(** * pyZoneGit: a shallow embedding of [pyZoneGit.py] and its properties

    The script validates DNS zone files kept in a git repository.  This
    development embeds it function by function:

    - Python [str] values are [string]s (characters with code points below
      256), Python [int]s are [Z];
    - the [re] module is embedded as a small backtracking matcher ([Re.ends],
      [Re.search], [Re.search_group], [Re.findall]) together with a declarative
      matching relation ([Re.Match]) and the proof that both agree;
    - [subprocess.run] is an oracle of the environment ([run]); [sys.exit]
      and uncaught exceptions are results of an error monad that also keeps
      the trace of the checker calls made by [pre_commit]. *)

From Stdlib Require Import List ZArith Lia Bool Ascii String DecimalString.
From Stdlib Require Import DecimalPos DecimalZ.
Import ListNotations.
Open Scope list_scope.
Open Scope string_scope.

(* ================================================================= *)
(** ** Characters and strings *)

Definition newline : ascii := "010"%char.
Definition tab : ascii := "009"%char.

(** Code point of a character. *)
Definition ord (c : ascii) : nat := nat_of_ascii c.

(** [a-b] inside a character class. *)
Definition in_range (a b : ascii) (c : ascii) : bool :=
  (ord a <=? ord c)%nat && (ord c <=? ord b)%nat.

(** Membership in an explicit set of characters. *)
Fixpoint one_of (cs : string) (c : ascii) : bool :=
  match cs with
  | EmptyString => false
  | String d cs' => Ascii.eqb c d || one_of cs' c
  end.

(** [\s] (and [str.isspace]) on a [str]: Unicode white space.  Below code
    point 256 these are TAB, LF, VT, FF, CR, FS, GS, RS, US, SPACE, NEL
    and NBSP. *)
Definition is_space (c : ascii) : bool :=
  let n := ord c in
  ((9 <=? n) && (n <=? 13) || (28 <=? n) && (n <=? 32)
   || (n =? 133) || (n =? 160))%nat.

(** [\d] on a [str]: below code point 256 the decimal digits are 0-9. *)
Definition is_digit (c : ascii) : bool := in_range "0" "9" c.

(** [.] without DOTALL: anything but a line feed. *)
Definition is_dot (c : ascii) : bool := negb (Ascii.eqb c newline).

(** The first [n] characters of [s] ([s[:n]]). *)
Fixpoint take (n : nat) (s : string) : string :=
  match n, s with
  | S n', String c s' => String c (take n' s')
  | _, _ => ""
  end.

(** The text consumed when a match moves from [rest] to its suffix [rest']. *)
Definition consumed (rest rest' : string) : string :=
  take (String.length rest - String.length rest') rest.

(** The last character seen once [m] has been read after a character [prev]. *)
Fixpoint lastc (prev : option ascii) (m : string) : option ascii :=
  match m with
  | EmptyString => prev
  | String c m' => lastc (Some c) m'
  end.

(* ================================================================= *)
(** ** The regular expressions of the [re] module *)

Module Re.

(** Syntax.  [Bol m] is [^] and [Eol m] is [$]; [m] tells whether the
    pattern is compiled with [re.MULTILINE]. *)
Inductive re : Type :=
| Eps
| Sym (p : ascii -> bool)
| Cat (a b : re)
| Alt (a b : re)
| Star (a : re)
| Bol (multiline : bool)
| Eol (multiline : bool).

(** [a+] *)
Definition Plus (a : re) : re := Cat a (Star a).

(** [a{n}] *)
Fixpoint Rep (n : nat) (a : re) : re :=
  match n with
  | O => Eps
  | S n' => Cat a (Rep n' a)
  end.

(** A literal text. *)
Fixpoint lit (s : string) : re :=
  match s with
  | EmptyString => Eps
  | String c s' => Cat (Sym (Ascii.eqb c)) (lit s')
  end.

(** A position of the matcher: the character just before it ([None] at
    the start of the subject) and the text still to read. *)
Definition pos : Type := option ascii * string.

(** [^]: at the start of the subject; with MULTILINE also after a line feed. *)
Definition at_bol (multiline : bool) (prev : option ascii) : bool :=
  match prev with
  | None => true
  | Some c => multiline && Ascii.eqb c newline
  end.

(** [$]: at the end of the subject or before a line feed that ends the
    subject; with MULTILINE before any line feed. *)
Definition at_eol (multiline : bool) (rest : string) : bool :=
  match rest with
  | EmptyString => true
  | String c rest' =>
      Ascii.eqb c newline
      && (multiline || match rest' with EmptyString => true | _ => false end)
  end.

(** Greedy iteration of a body whose ends are given by [f]: one more
    round first, zero rounds last.  A round that consumes nothing is not
    repeated.  [n] bounds the number of rounds. *)
Fixpoint star_ends (f : option ascii -> string -> list pos)
    (n : nat) (prev : option ascii) (rest : string) : list pos :=
  match n with
  | O => [(prev, rest)]
  | S n' =>
      flat_map
        (fun q : pos =>
           if (String.length (snd q) <? String.length rest)%nat
           then star_ends f n' (fst q) (snd q) else [])
        (f prev rest)
      ++ [(prev, rest)]
  end.

(** All the positions where a match of [r] that starts at [(prev, rest)]
    can end, in the order in which the backtracking matcher tries them. *)
Fixpoint ends (r : re) (prev : option ascii) (rest : string) : list pos :=
  match r with
  | Eps => [(prev, rest)]
  | Sym p =>
      match rest with
      | String c rest' => if p c then [(Some c, rest')] else []
      | EmptyString => []
      end
  | Cat a b =>
      flat_map (fun q : pos => ends b (fst q) (snd q)) (ends a prev rest)
  | Alt a b => ends a prev rest ++ ends b prev rest
  | Star a => star_ends (ends a) (String.length rest) prev rest
  | Bol m => if at_bol m prev then [(prev, rest)] else []
  | Eol m => if at_eol m rest then [(prev, rest)] else []
  end.

(** [re.search]: the leftmost start with a match, and there the first
    end the matcher finds.  The result is the matched text. *)
Fixpoint search_at (r : re) (prev : option ascii) (rest : string)
  : option string :=
  match ends r prev rest with
  | q :: _ => Some (consumed rest (snd q))
  | [] =>
      match rest with
      | EmptyString => None
      | String c rest' => search_at r (Some c) rest'
      end
  end.

Definition search (r : re) (s : string) : option string :=
  search_at r None s.

(** The first element of a list on which [f] answers. *)
Fixpoint first_some {A B : Type} (f : A -> option B) (l : list A) : option B :=
  match l with
  | [] => None
  | x :: l' =>
      match f x with
      | Some y => Some y
      | None => first_some f l'
      end
  end.

(** A match of [pre(grp)post] from one start: the text of the group in
    the first match found by backtracking. *)
Definition group_at (pre grp post : re) (prev : option ascii) (rest : string)
  : option string :=
  first_some
    (fun q1 : pos =>
       first_some
         (fun q2 : pos =>
            match ends post (fst q2) (snd q2) with
            | _ :: _ => Some (consumed (snd q1) (snd q2))
            | [] => None
            end)
         (ends grp (fst q1) (snd q1)))
    (ends pre prev rest).

Fixpoint search_group_at (pre grp post : re) (prev : option ascii)
    (rest : string) : option string :=
  match group_at pre grp post prev rest with
  | Some g => Some g
  | None =>
      match rest with
      | EmptyString => None
      | String c rest' => search_group_at pre grp post (Some c) rest'
      end
  end.

(** [re.search(pre(grp)post, s).group(1)] *)
Definition search_group (pre grp post : re) (s : string) : option string :=
  search_group_at pre grp post None s.

(** [re.findall] for a pattern without groups.  [skip] counts the
    characters of the last match still to step over.  After an empty match
    the matcher looks for a non-empty one at the same place before it
    moves on. *)
Fixpoint findall_at (r : re) (skip : nat) (prev : option ascii)
    (rest : string) : list string :=
  let step (k : nat) : list string :=
    match rest with
    | EmptyString => []
    | String c rest' => findall_at r k (Some c) rest'
    end in
  match skip with
  | S k => step k
  | O =>
      let longer (q : pos) : bool :=
        (String.length (snd q) <? String.length rest)%nat in
      match ends r prev rest with
      | [] => step O
      | q :: qs =>
          if longer q
          then consumed rest (snd q)
               :: step (String.length (consumed rest (snd q)) - 1)%nat
          else
            "" :: match filter longer qs with
                  | q' :: _ =>
                      consumed rest (snd q')
                      :: step (String.length (consumed rest (snd q')) - 1)%nat
                  | [] => step O
                  end
      end
  end.

Definition findall (r : re) (s : string) : list string :=
  findall_at r O None s.

(** Declarative matching: [Match r prev m post] says that the text [m],
    read after the character [prev] and followed by [post], matches [r]. *)
Inductive Match : re -> option ascii -> string -> string -> Prop :=
| MEps prev post : Match Eps prev "" post
| MSym p c prev post : p c = true -> Match (Sym p) prev (String c "") post
| MCat a b prev m1 m2 post :
    Match a prev m1 (m2 ++ post) ->
    Match b (lastc prev m1) m2 post ->
    Match (Cat a b) prev (m1 ++ m2) post
| MAltL a b prev m post : Match a prev m post -> Match (Alt a b) prev m post
| MAltR a b prev m post : Match b prev m post -> Match (Alt a b) prev m post
| MStar0 a prev post : Match (Star a) prev "" post
| MStarS a prev m1 m2 post :
    Match a prev m1 (m2 ++ post) ->
    Match (Star a) (lastc prev m1) m2 post ->
    Match (Star a) prev (m1 ++ m2) post
| MBol ml prev post : at_bol ml prev = true -> Match (Bol ml) prev "" post
| MEol ml prev post : at_eol ml post = true -> Match (Eol ml) prev "" post.

(** The subject [s] has a match of [r] somewhere. *)
Definition Found (r : re) (s : string) : Prop :=
  exists pre m post, s = pre ++ m ++ post /\ Match r (lastc None pre) m post.

End Re.

Import Re.

(* ================================================================= *)
(** ** Python built-ins used by the script *)

(** [str(n)] for an [int].  (The script calls [str] only on what
    [parse_serial] returned, which is within the interpreter's limit
    on the number of digits.) *)
Definition str (n : Z) : string := NilZero.string_of_int (Z.to_int n).

Fixpoint lstrip (p : ascii -> bool) (s : string) : string :=
  match s with
  | EmptyString => ""
  | String c s' => if p c then lstrip p s' else s
  end.

Fixpoint rstrip (p : ascii -> bool) (s : string) : string :=
  match s with
  | EmptyString => ""
  | String c s' =>
      match rstrip p s' with
      | EmptyString => if p c then "" else String c ""
      | t => String c t
      end
  end.

(** [s.strip(chars)], and [s.strip()] with [is_space]. *)
Definition strip (p : ascii -> bool) (s : string) : string :=
  lstrip p (rstrip p s).

(** [s.split(sep)] for a separator of one character. *)
Fixpoint str_split (sep : ascii) (s : string) : list string :=
  match s with
  | EmptyString => [""]
  | String c s' =>
      if Ascii.eqb c sep then "" :: str_split sep s'
      else match str_split sep s' with
           | w :: ws => String c w :: ws
           | [] => [String c ""]
           end
  end.

(** Truth value of a [str]. *)
Definition truthy (s : string) : bool := negb (s =? "").

(** Line boundaries of [str.splitlines] below code point 256: LF, VT, FF,
    CR, FS, GS, RS and NEL ([CR LF] is one boundary). *)
Definition is_linebreak (c : ascii) : bool :=
  let n := ord c in
  ((10 <=? n) && (n <=? 13) || (28 <=? n) && (n <=? 30) || (n =? 133))%nat.

Definition carriage_return : ascii := "013"%char.

Fixpoint splitlines (s : string) : list string :=
  match s with
  | EmptyString => []
  | String c s' =>
      if is_linebreak c then
        "" :: match s' with
              | String d s'' =>
                  if Ascii.eqb c carriage_return && Ascii.eqb d newline
                  then splitlines s'' else splitlines s'
              | EmptyString => []
              end
      else match splitlines s' with
           | l :: ls => String c l :: ls
           | [] => [String c ""]
           end
  end.

(** [sep.join(ls)] *)
Definition join (sep : string) (ls : list string) : string :=
  String.concat sep ls.

(** [s.startswith(p)] *)
Fixpoint startswith (p s : string) : bool :=
  match p, s with
  | EmptyString, _ => true
  | String a p', String b s' => Ascii.eqb a b && startswith p' s'
  | String _ _, EmptyString => false
  end.

(** [needle in s] *)
Fixpoint contains (needle s : string) : bool :=
  startswith needle s
  || match s with
     | EmptyString => false
     | String _ s' => contains needle s'
     end.

Definition digit_val (c : ascii) : Z := Z.of_nat (ord c - 48).

(** The digits of an [int] literal, single underscores allowed between
    digits. *)
Fixpoint digits_val (acc : Z) (after_digit : bool) (s : string) : option Z :=
  match s with
  | EmptyString => if after_digit then Some acc else None
  | String c s' =>
      if is_digit c then digits_val (10 * acc + digit_val c) true s'
      else if Ascii.eqb c "_" && after_digit then
        match s' with
        | String d _ => if is_digit d then digits_val acc false s' else None
        | EmptyString => None
        end
      else None
  end.

(** The white space that [int] skips at both ends of a [str]: TAB, LF,
    VT, FF, CR and SPACE, and from code point 128 on the Unicode white
    space (NEL and NBSP).  FS, GS, RS and US are white space for
    [str.strip] and [\s], but [int] does not skip them. *)
Definition is_int_space (c : ascii) : bool :=
  let n := ord c in
  ((9 <=? n) && (n <=? 13) || (n =? 32) || (n =? 133) || (n =? 160))%nat.

(** [sys.int_info.default_max_str_digits]: [int] refuses a text with
    more digits. *)
Definition int_max_str_digits : nat := 4300.

(** The number of digits of a text, underscores and the like left out. *)
Fixpoint count_digits (s : string) : nat :=
  match s with
  | EmptyString => O
  | String c s' => if is_digit c then S (count_digits s') else count_digits s'
  end.

(** [int(s)] in base 10; [None] is [ValueError]: a text that is no
    number, or one with more than [int_max_str_digits] digits. *)
Definition py_int (s : string) : option Z :=
  let limited (t : string) : option Z :=
    if (count_digits t <=? int_max_str_digits)%nat
    then digits_val 0 false t else None in
  match strip is_int_space s with
  | String "-" t => option_map Z.opp (limited t)
  | String "+" t => limited t
  | t => limited t
  end.

(** The text after the last [sep] of [s], if [s] has one. *)
Fixpoint after_last (sep : ascii) (s : string) : option string :=
  match s with
  | EmptyString => None
  | String c s' =>
      match after_last sep s' with
      | Some t => Some t
      | None => if Ascii.eqb c sep then Some s' else None
      end
  end.

(** [os.path.basename] (POSIX). *)
Definition basename (p : string) : string :=
  match after_last "/" p with
  | Some t => t
  | None => p
  end.

Definition ends_with_slash (a : string) : bool :=
  match lastc None a with
  | Some c => Ascii.eqb c "/"
  | None => false
  end.

(** [os.path.join(a, b)] (POSIX). *)
Definition path_join (a b : string) : string :=
  match b with
  | String "/" _ => b
  | _ => if (a =? "") || ends_with_slash a then a ++ b else a ++ "/" ++ b
  end.

(** [l.remove(x)]: drops the first element equal to [x]. *)
Fixpoint list_remove (x : string) (l : list string) : list string :=
  match l with
  | [] => []
  | y :: l' => if (y =? x) then l' else y :: list_remove x l'
  end.

(* ================================================================= *)
(** ** Results, exceptions and the trace *)

Inductive exn : Type :=
| CommandExecutionError (returncode : Z) (output : string)
| ValueError
| UnboundLocalError (name : string).

(** How a call ends: it returns, [sys.exit(code)] is raised, or another
    exception escapes. *)
Inductive result (A : Type) : Type :=
| Ok (a : A)
| Exit (code : Z)
| Raise (e : exn).
Arguments Ok {A} a.
Arguments Exit {A} code.
Arguments Raise {A} e.

(** What [pre_commit] is seen doing: its log line at the start of every
    file, and every call of a checker with the value it returned. *)
Inductive event : Type :=
| Checking (zonefile : string)
| Called_check_zone (zonename zonefile : string) (ret : Z)
| Called_check_serial (serial_rev0 : Z) (serial_rev1 : option Z) (ret : Z)
| Called_check_origin (origin_list : list string) (ret : Z).

(** Computations that end in a [result] and extend the trace. *)
Definition M (A : Type) : Type := list event -> result A * list event.

Definition ret {A : Type} (a : A) : M A := fun t => (Ok a, t).

Definition bind {A B : Type} (m : M A) (k : A -> M B) : M B :=
  fun t =>
    match m t with
    | (Ok a, t') => k a t'
    | (Exit c, t') => (Exit c, t')
    | (Raise e, t') => (Raise e, t')
    end.

Definition lift {A : Type} (r : result A) : M A := fun t => (r, t).

Definition tell (e : event) : M unit := fun t => (Ok tt, (t ++ [e])%list).

Notation "x <- m ;; k" := (bind m (fun x => k))
  (at level 61, m at next level, right associativity).
Notation "m ;;; k" := (bind m (fun _ => k))
  (at level 61, right associativity).

(* ================================================================= *)
(** ** The environment *)

(** [Call().method], set by [init]. *)
Inductive call_method : Type := git_hook | ci_cd.

Record CompletedProcess : Type := {
  returncode : Z;
  stdout : string;
  stderr : string
}.

(** What the script reads from outside: the programs it runs (the
    program is found and the answer depends on the command line only),
    its own path, the working directory and the date of the day as
    [strftime("%Y%m%d")] prints it. *)
Record world : Type := {
  run : list string -> CompletedProcess;
  argv0_abspath : string;
  getcwd : string;
  now_Ymd : string
}.

(* ================================================================= *)
(** ** The script *)

(** Concatenation of lists ([cmd += [...]]), apart from that of texts. *)
Infix "+++" := List.app (at level 60, right associativity).

(** [init] *)
Definition init (w : world) : call_method :=
  if contains ".git/hooks" (argv0_abspath w) then git_hook else ci_cd.

Definition is_git_hook (call : call_method) : bool :=
  match call with git_hook => true | ci_cd => false end.

Definition is_ci_cd (call : call_method) : bool :=
  match call with ci_cd => true | git_hook => false end.

(** [exec_cmd] *)
Definition exec_cmd (w : world) (cmd : list string) : result CompletedProcess :=
  let result := run w cmd in
  if (returncode result =? 0)%Z then Ok result
  else
    let err := strip is_space (stderr result) in
    Raise (CommandExecutionError (returncode result)
             (if truthy err then err else strip is_space (stdout result))).

(** [read_file] *)
Definition read_file (w : world) (call : call_method) (zonefile : string)
    (revision : Z) : result string :=
  let cmd := ["git"; "show"] in
  let cmd := cmd +++ (if is_git_hook call && (revision =? 0)%Z
                     then [":" ++ zonefile] else []) in
  let cmd := cmd +++ (if is_git_hook call && (revision =? 1)%Z
                     then ["HEAD:" ++ zonefile] else []) in
  let cmd := cmd +++ (if is_ci_cd call && (revision =? 0)%Z
                     then ["HEAD:" ++ zonefile] else []) in
  let cmd := cmd +++ (if is_ci_cd call && (revision =? 1)%Z
                     then ["HEAD~1:" ++ zonefile] else []) in
  match exec_cmd w cmd with
  | Ok result => Ok (join (String newline "") (splitlines (stdout result)))
  | Exit c => Exit c
  | Raise e => Raise e
  end.

(** A sequence of patterns. *)
Fixpoint seq (l : list re) : re :=
  match l with
  | [] => Eps
  | [r] => r
  | r :: l' => Cat r (seq l')
  end.

(** [^db\.|\.db$|\.zone$|\.rev$|\.rpz$] *)
Definition zonefile_pattern : re :=
  Alt (Cat (Bol false) (lit "db."))
    (Alt (Cat (lit ".db") (Eol false))
       (Alt (Cat (lit ".zone") (Eol false))
          (Alt (Cat (lit ".rev") (Eol false))
             (Cat (lit ".rpz") (Eol false))))).

Definition is_zonefile (item : string) : bool :=
  match search zonefile_pattern (basename item) with
  | Some _ => true
  | None => false
  end.

(** The loop [for item in file_list: if not ...: file_list.remove(item)].
    The iterator of a list is an index into it: every round reads
    [file_list[i]] from the list as it is by then and moves to [i + 1];
    the loop ends when [i] is no index any more. *)
Fixpoint remove_loop (fuel : nat) (i : nat) (file_list : list string)
  : list string :=
  match fuel with
  | O => file_list
  | S fuel' =>
      match nth_error file_list i with
      | None => file_list
      | Some item =>
          if is_zonefile item then remove_loop fuel' (S i) file_list
          else remove_loop fuel' (S i) (list_remove item file_list)
      end
  end.

(** The part that both listings share, from the output of git on. *)
Definition zonefiles_of (out : string) : list string :=
  let file_list := str_split newline out in
  let file_list := filter truthy file_list in
  remove_loop (List.length file_list) 0 file_list.

(** [get_all_zonefiles] *)
Definition get_all_zonefiles (w : world) : result (list string) :=
  let cmd := ["git"; "ls-files"] in
  match exec_cmd w cmd with
  | Ok result => Ok (zonefiles_of (stdout result))
  | Exit c => Exit c
  | Raise e => Raise e
  end.

(** [get_changed_zonefiles] *)
Definition get_changed_zonefiles (w : world) (call : call_method)
    (repo_path : string) : result (list string) :=
  let cmd := ["git"; "--git-dir=" ++ repo_path ++ "/.git";
              "--work-tree=" ++ repo_path; "diff"; "--name-only";
              "--diff-filter=d"] in
  let cmd := cmd +++ (if is_git_hook call then ["HEAD"] else []) in
  let cmd := cmd +++ (if is_ci_cd call then ["HEAD~1"; "HEAD"] else []) in
  match exec_cmd w cmd with
  | Ok result => Ok (zonefiles_of (stdout result))
  | Exit c => Exit c
  | Raise e => Raise e
  end.

(** [get_rev_count]: a command that fails counts as 0 ([except:]); an
    output that is no number escapes as [ValueError] from the [else]
    branch. *)
Definition get_rev_count (w : world) (call : call_method)
    (zonefile : option string) : result Z :=
  let cmd := ["git"; "rev-list"; "--count"; "HEAD"] in
  let cmd := cmd +++ (match zonefile with
                     | Some f => if truthy f then ["--"; f] else []
                     | None => []
                     end) in
  match exec_cmd w cmd with
  | Ok result =>
      match py_int (stdout result) with
      | Some n =>
          match call with
          | git_hook => Ok n
          | ci_cd => Ok (n - 1)%Z
          end
      | None => Raise ValueError
      end
  | _ => Ok 0%Z
  end.

(** [get_repo_path] *)
Definition get_repo_path (w : world) : result string :=
  let cmd := ["git"; "-C"; getcwd w; "rev-parse"; "--show-toplevel"] in
  match exec_cmd w cmd with
  | Ok result => Ok (hd "" (str_split newline (stdout result)))
  | Raise (CommandExecutionError _ _) => Exit 1
  | Raise e => Raise e
  | Exit c => Exit c
  end.

(** [[a-zA-Z0-9-]] *)
Definition label_char (c : ascii) : bool :=
  in_range "a" "z" c || in_range "A" "Z" c || in_range "0" "9" c
  || Ascii.eqb c "-".

(** [[a-zA-Z0-9-\.]] and [[A-Za-z0-9-\.]] *)
Definition name_char (c : ascii) : bool := label_char c || Ascii.eqb c ".".

(** [[ \t]] *)
Definition blank_char (c : ascii) : bool := Ascii.eqb c " " || Ascii.eqb c tab.

(** [[a-zA-Z0-9-]+[a-zA-Z0-9-\.]+], the group of both patterns of
    [parse_zone]. *)
Definition name_group : re := Cat (Plus (Sym label_char)) (Plus (Sym name_char)).

(** [^\s*(...)\s+IN\s+SOA] with MULTILINE: before and after the group. *)
Definition soa_before : re := Cat (Bol true) (Star (Sym is_space)).
Definition soa_after : re :=
  seq [Plus (Sym is_space); lit "IN"; Plus (Sym is_space); lit "SOA"].

(** [^\s*\$ORIGIN\s+(...)] with MULTILINE: before the group. *)
Definition origin_before : re :=
  seq [Bol true; Star (Sym is_space); lit "$ORIGIN"; Plus (Sym is_space)].

Definition is_period (c : ascii) : bool := Ascii.eqb c ".".

(** [parse_zone] *)
Definition parse_zone (data : string) : result string :=
  match search_group soa_before name_group soa_after data with
  | Some g => Ok (strip is_period g)
  | None =>
      match search_group origin_before name_group Eps data with
      | Some g => Ok (strip is_period g)
      | None => Exit 1
      end
  end.

(** [check_zone]: the return code of named-checkzone, whether the
    command succeeds or [exec_cmd] raises. *)
Definition check_zone (w : world) (zonename zonefile : string) : result Z :=
  let cmd := ["named-checkzone"; "-k"; "fail"; zonename; zonefile] in
  match exec_cmd w cmd with
  | Ok result => Ok (returncode result)
  | Raise (CommandExecutionError rc _) => Ok rc
  | Raise e => Raise e
  | Exit c => Exit c
  end.

(** [IN\s+SOA\s+[A-Za-z0-9-\.]+\s+[A-Za-z0-9-\.]+\s+\(\s+(\d+)]: before
    the group. *)
Definition serial_before : re :=
  seq [lit "IN"; Plus (Sym is_space); lit "SOA"; Plus (Sym is_space);
       Plus (Sym name_char); Plus (Sym is_space);
       Plus (Sym name_char); Plus (Sym is_space);
       Sym (Ascii.eqb "("); Plus (Sym is_space)].

Definition serial_group : re := Plus (Sym is_digit).

(** [parse_serial] *)
Definition parse_serial (data : string) : result Z :=
  match search_group serial_before serial_group Eps data with
  | Some g =>
      match py_int g with
      | Some serial => Ok serial
      | None => Raise ValueError
      end
  | None => Exit 1
  end.

(** [19[7-9][0-9]|[2-9][0-9]{3}0[1-9]|1[12][012][0-9]|3[01]\d\d] *)
Definition new_serial_pattern : re :=
  Alt (seq [lit "19"; Sym (in_range "7" "9"); Sym (in_range "0" "9")])
    (Alt (seq [Sym (in_range "2" "9"); Rep 3 (Sym (in_range "0" "9"));
               lit "0"; Sym (in_range "1" "9")])
       (Alt (seq [lit "1"; Sym (one_of "12"); Sym (one_of "012");
                  Sym (in_range "0" "9")])
          (seq [lit "3"; Sym (one_of "01"); Sym is_digit; Sym is_digit]))).

(** [^{date}\d\d$]; [date] is printed by [strftime("%Y%m%d")], digits
    only, so that it stands for itself in the pattern. *)
Definition dated_serial_pattern (date : string) : re :=
  seq [Bol false; lit date; Sym is_digit; Sym is_digit; Eol false].

(** [check_serial]; [date] is [sys_time.strftime("%Y%m%d")]. *)
Definition check_serial (date : string) (serial_rev0 : Z)
    (serial_rev1 : option Z) : Z :=
  let err_counter := 0%Z in
  let pattern :=
    match serial_rev1 with
    | None => new_serial_pattern
    | Some _ => dated_serial_pattern date
    end in
  let err_counter :=
    match search pattern (str serial_rev0) with
    | Some _ => err_counter
    | None => 1%Z
    end in
  let err_counter :=
    match serial_rev1 with
    | Some serial_rev1 =>
        if (serial_rev0 >? serial_rev1)%Z then err_counter else 1%Z
    | None => err_counter
    end in
  err_counter.

(** [^[ \t]*\$ORIGIN.*$] with MULTILINE *)
Definition origin_line_pattern : re :=
  seq [Bol true; Star (Sym blank_char); lit "$ORIGIN"; Star (Sym is_dot);
       Eol true].

(** [parse_origin] *)
Definition parse_origin (data : string) : list string :=
  findall origin_line_pattern data.

(** [^[ \t]*\$ORIGIN.*\.$] *)
Definition origin_dot_pattern : re :=
  seq [Bol false; Star (Sym blank_char); lit "$ORIGIN"; Star (Sym is_dot);
       Sym is_period; Eol false].

(** [check_origin] *)
Definition check_origin (origin_list : list string) : Z :=
  fold_left
    (fun err_counter line =>
       match search origin_dot_pattern line with
       | Some _ => err_counter
       | None => 1%Z
       end)
    origin_list 0%Z.

(** The body of the loop of [pre_commit] for one file, from the counter
    before the file to the counter after it. *)
Definition pre_commit_file (w : world) (call : call_method)
    (repo_path zonefile : string) (err_counter : Z) : M Z :=
  tell (Checking zonefile) ;;;
  let tmp_counter := err_counter in
  rev_counter <- lift (get_rev_count w call (Some zonefile)) ;;
  data <- lift (read_file w call zonefile 0) ;;
  zonename <- lift (parse_zone data) ;;
  rc <- lift (check_zone w zonename (path_join repo_path zonefile)) ;;
  tell (Called_check_zone zonename (path_join repo_path zonefile) rc) ;;;
  let err_counter := (err_counter + rc)%Z in
  err_counter <-
    (if (tmp_counter =? err_counter)%Z && (rev_counter =? 0)%Z then
       data <- lift (read_file w call zonefile 0) ;;
       serial_rev0 <- lift (parse_serial data) ;;
       let e := check_serial (now_Ymd w) serial_rev0 None in
       tell (Called_check_serial serial_rev0 None e) ;;;
       ret (err_counter + e)%Z
     else ret err_counter) ;;
  err_counter <-
    (if (tmp_counter =? err_counter)%Z && (rev_counter >? 0)%Z then
       data <- lift (read_file w call zonefile 0) ;;
       serial_rev0 <- lift (parse_serial data) ;;
       data <- lift (read_file w call zonefile 1) ;;
       serial_rev1 <- lift (parse_serial data) ;;
       let e := check_serial (now_Ymd w) serial_rev0 (Some serial_rev1) in
       tell (Called_check_serial serial_rev0 (Some serial_rev1) e) ;;;
       ret (err_counter + e)%Z
     else ret err_counter) ;;
  (if (tmp_counter =? err_counter)%Z then
     data <- lift (read_file w call zonefile 0) ;;
     let origin_list := parse_origin data in
     let e := check_origin origin_list in
     tell (Called_check_origin origin_list e) ;;;
     ret (err_counter + e)%Z
   else ret err_counter).

(** The loop of [pre_commit] over [file_list]. *)
Fixpoint pre_commit_loop (w : world) (call : call_method) (repo_path : string)
    (file_list : list string) (err_counter : Z) : M Z :=
  match file_list with
  | [] => ret err_counter
  | zonefile :: file_list' =>
      err_counter <- pre_commit_file w call repo_path zonefile err_counter ;;
      pre_commit_loop w call repo_path file_list' err_counter
  end.

(** [pre_commit] *)
Definition pre_commit (w : world) (call : call_method) (repo_path : string)
    (file_list : list string) : M unit :=
  err_counter <- pre_commit_loop w call repo_path file_list 0%Z ;;
  if (err_counter =? 0)%Z then ret tt else lift (Exit 1).

(** [main]; [file_list] stays unbound when [rev_count] is negative. *)
Definition main (w : world) : M unit :=
  let call := init w in
  repo_path <- lift (get_repo_path w) ;;
  rev_count <- lift (get_rev_count w call None) ;;
  file_list <-
    (if (rev_count =? 0)%Z then
       fl <- lift (get_all_zonefiles w) ;; ret (Some fl)
     else ret None) ;;
  file_list <-
    (if (rev_count >? 0)%Z then
       fl <- lift (get_changed_zonefiles w call repo_path) ;; ret (Some fl)
     else ret file_list) ;;
  match file_list with
  | Some file_list => pre_commit w call repo_path file_list
  | None => lift (Raise (UnboundLocalError "file_list"))
  end.

(** The exit status of the process once [main] has ended: an uncaught
    exception ends the interpreter with status 1. *)
Definition exit_status {A : Type} (r : result A) : Z :=
  match r with
  | Ok _ => 0%Z
  | Exit code => code
  | Raise _ => 1%Z
  end.

(* ================================================================= *)
(** ** Notions used to state the properties *)

(** Every character of [s] satisfies [p]. *)
Fixpoint all_chars (p : ascii -> bool) (s : string) : bool :=
  match s with
  | EmptyString => true
  | String c s' => p c && all_chars p s'
  end.

(** The characters [str] prints. *)
Definition is_sign_or_digit (c : ascii) : bool := is_digit c || Ascii.eqb c "-".

(** The naming convention of zone files: the name begins with [db.] or
    ends with [.db], [.zone], [.rev] or [.rpz]. *)
Definition zone_name_shape (b : string) : Prop :=
  (exists t, b = "db." ++ t)
  \/ (exists t ext eol,
         b = t ++ ext ++ eol
         /\ In ext [".db"; ".zone"; ".rev"; ".rpz"]
         /\ (eol = "" \/ eol = String newline "")).

(** The decimal text of [n] is [date] followed by two digits. *)
Definition dated_serial (date : string) (n : Z) : Prop :=
  exists d1 d2,
    is_digit d1 = true /\ is_digit d2 = true
    /\ str n = date ++ String d1 (String d2 "").

(** A line of the shape [$ORIGIN <name>.]: blanks, the keyword, any text
    of the line, and a dot that ends the line. *)
Definition origin_with_dot (line : string) : Prop :=
  exists ws name eol,
    line = ws ++ "$ORIGIN" ++ name ++ "." ++ eol
    /\ all_chars blank_char ws = true
    /\ all_chars is_dot name = true
    /\ (eol = "" \/ eol = String newline "").

(** The last character of [line] is a dot. *)
Definition ends_with_dot (line : string) : bool :=
  match lastc None line with
  | Some c => is_period c
  | None => false
  end.

Definition is_open_paren (c : ascii) : bool := Ascii.eqb c "(".

(** The first opening parenthesis of [s] is followed by white space. *)
Fixpoint first_paren_spaced (s : string) : bool :=
  match s with
  | EmptyString => false
  | String c s' =>
      if is_open_paren c then
        match s' with
        | String d _ => is_space d
        | EmptyString => false
        end
      else first_paren_spaced s'
  end.

(** Somewhere in [s] the letters [SOA] are followed by an opening
    parenthesis, the first one after them, that has white space right
    behind it. *)
Fixpoint soa_paren_spaced (s : string) : bool :=
  (startswith "SOA" s && first_paren_spaced s)
  || match s with
     | EmptyString => false
     | String _ s' => soa_paren_spaced s'
     end.

(** The value a recorded call returned. *)
Definition ret_of (e : event) : Z :=
  match e with
  | Checking _ => 0%Z
  | Called_check_zone _ _ r => r
  | Called_check_serial _ _ r => r
  | Called_check_origin _ r => r
  end.

Definition sum (l : list Z) : Z := fold_right Z.add 0%Z l.

Definition is_check_zone (e : event) : bool :=
  match e with Called_check_zone _ _ _ => true | _ => false end.

Definition is_check_serial (e : event) : bool :=
  match e with Called_check_serial _ _ _ => true | _ => false end.

Definition is_check_origin (e : event) : bool :=
  match e with Called_check_origin _ _ => true | _ => false end.

(** The place of a call in the order of the stages. *)
Definition stage (e : event) : nat :=
  match e with
  | Checking _ => 0
  | Called_check_zone _ _ _ => 1
  | Called_check_serial _ _ _ => 2
  | Called_check_origin _ _ => 3
  end.

(** The calls made for one file stop at the first one that fails: every
    call but the last returned 0, and the stages come in their order. *)
Fixpoint short_circuited (calls : list event) : bool :=
  match calls with
  | [] => true
  | e :: calls' =>
      match calls' with
      | [] => true
      | e' :: _ => (ret_of e =? 0)%Z && (stage e <? stage e')%nat
      end
      && short_circuited calls'
  end.

(** The calls of one file start with the external check. *)
Definition starts_with_check_zone (calls : list event) : bool :=
  match calls with
  | e :: _ => is_check_zone e
  | [] => false
  end.

(** The trace of a run in which [per_file] lists, file by file, the
    calls that were made. *)
Definition trace_of (file_list : list string) (per_file : list (list event))
  : list event :=
  List.concat (map (fun fc => Checking (fst fc) :: snd fc)
            (combine file_list per_file)).

(** The calls that follow the external check of a file, given the value
    [rc] it returned. *)
Inductive later_calls (w : world) : Z -> list event -> Prop :=
| LC_zone_failed rc : rc <> 0%Z -> later_calls w rc []
| LC_serial_failed s0 s1 :
    check_serial (now_Ymd w) s0 s1 <> 0%Z ->
    later_calls w 0
      [Called_check_serial s0 s1 (check_serial (now_Ymd w) s0 s1)]
| LC_all s0 s1 l :
    check_serial (now_Ymd w) s0 s1 = 0%Z ->
    later_calls w 0
      [Called_check_serial s0 s1 0; Called_check_origin l (check_origin l)]
| LC_no_serial l :
    later_calls w 0 [Called_check_origin l (check_origin l)].

(* ================================================================= *)
(** ** Sample worlds *)

Definition completed (out : string) : CompletedProcess :=
  {| returncode := 0; stdout := out; stderr := "" |}.

Definition failed (rc : Z) (err : string) : CompletedProcess :=
  {| returncode := rc; stdout := ""; stderr := err |}.

Definition nl : string := String newline "".

(** A world in which [git show] prints [show] of its argument,
    named-checkzone ends with status [checkzone] of the path, [git
    rev-list] answers [rev_list], [git ls-files] prints [ls_files], the
    repository is [/repo] and the day is 2024-03-15. *)
Definition sample_world (argv0 : string) (show : string -> CompletedProcess)
    (checkzone : string -> Z) (rev_list : CompletedProcess)
    (ls_files : string) : world :=
  {| run := fun cmd =>
       match cmd with
       | prog :: sub :: args =>
           if prog =? "named-checkzone" then
             if (checkzone (last args "") =? 0)%Z then completed "OK"
             else failed (checkzone (last args "")) "zone not loaded"
           else if sub =? "show" then show (last args "")
           else if sub =? "rev-list" then rev_list
           else if sub =? "ls-files" then completed ls_files
           else if sub =? "-C" then completed ("/repo" ++ nl)
           else completed ""
       | _ => completed ""
       end;
     argv0_abspath := argv0;
     getcwd := "/repo";
     now_Ymd := "20240315" |}.

(** A zone with the serial [serial], written after [paren]. *)
Definition sample_zone (paren serial : string) : string :=
  "$ORIGIN example.com." ++ nl
  ++ "example.com. IN SOA ns1.example.com. admin.example.com. "
  ++ paren ++ serial ++ " 3600 600 86400 3600 )" ++ nl
  ++ "  IN NS ns1" ++ nl.

(** No commit yet: [git rev-list] fails. *)
Definition no_history : CompletedProcess :=
  failed 128 "fatal: ambiguous argument 'HEAD': unknown revision".

(** A hook run on new files with the zone text [zone]; named-checkzone
    ends with [checkzone path]. *)
Definition hook_world (zone : string) (checkzone : string -> Z) : world :=
  sample_world "/repo/.git/hooks/pre-commit" (fun _ => completed zone)
    checkzone no_history ("db.example.com" ++ nl).

(** A sample run: the external check fails for the first of two new
    files and everything passes for the second. *)
Definition two_files_world : world :=
  hook_world (sample_zone "( " "2024010100")
    (fun path => if path =? "/repo/db.bad" then 1%Z else 0%Z).

(** A hook run on one new file for which named-checkzone ends with
    status 2. *)
Definition status_2_world : world :=
  hook_world (sample_zone "( " "2024010100") (fun _ => 2%Z).

(** A hook run on one new file whose serial is 42; named-checkzone
    passes. *)
Definition serial_42_world : world :=
  hook_world (sample_zone "( " "42") (fun _ => 0%Z).

(** A hook run on new files whose text has no SOA record and no
    [$ORIGIN] line. *)
Definition no_zone_world : world :=
  hook_world ("; nothing here" ++ nl) (fun _ => 0%Z).

(** A hook run on new files in which the serial follows the parenthesis
    at once. *)
Definition tight_paren_world : world :=
  hook_world (sample_zone "(" "2024010100") (fun _ => 0%Z).

(** A pipeline run in a repository with one commit. *)
Definition one_commit_world : world :=
  sample_world "/builds/dns/pyZoneGit.py"
    (fun _ => completed (sample_zone "( " "2024010100"))
    (fun _ => 0%Z) (completed ("1" ++ nl))
    ("README.md" ++ nl ++ "db.example.com" ++ nl).

(** A zone text with a [$ORIGIN] line and no SOA record. *)
Definition no_soa_zone : string :=
  "$ORIGIN example.com." ++ nl ++ "  IN NS ns1" ++ nl.

(** A zone text whose SOA record has the serial right behind the
    parenthesis, after a comment that holds [IN SOA a b ( 7]. *)
Definition commented_zone : string :=
  "; IN SOA a b ( 7" ++ nl ++ sample_zone "(" "2024010100".

(** A hook run on two new files: [git show] prints [bad] for [db.bad]
    and a zone in order for any other file, and named-checkzone ends
    with status 1 for [db.bad]. *)
Definition failed_check_world (bad : string) : world :=
  sample_world "/repo/.git/hooks/pre-commit"
    (fun ref => if ref =? ":db.bad" then completed bad
                else completed (sample_zone "( " "2024010100"))
    (fun path => if path =? "/repo/db.bad" then 1%Z else 0%Z)
    no_history ("db.bad" ++ nl ++ "db.example.com" ++ nl).

(* ================================================================= *)
(** ** Further notions and sample worlds *)

(** The longest prefix of [s] whose characters satisfy [p], and what
    follows it. *)
Fixpoint takewhile (p : ascii -> bool) (s : string) : string :=
  match s with
  | EmptyString => ""
  | String c s' => if p c then String c (takewhile p s') else ""
  end.

Fixpoint dropwhile (p : ascii -> bool) (s : string) : string :=
  match s with
  | EmptyString => ""
  | String c s' => if p c then dropwhile p s' else s
  end.

(** The first character of [s], if any, does not satisfy [p]. *)
Definition stops (p : ascii -> bool) (s : string) : bool :=
  match s with
  | EmptyString => true
  | String c _ => negb (p c)
  end.

(** A line that begins, after blanks and tabs, with [$ORIGIN]. *)
Definition is_origin_line (line : string) : bool :=
  startswith "$ORIGIN" (dropwhile blank_char line).

(** No two paths in a row fail the naming convention. *)
Fixpoint no_adjacent_strangers (l : list string) : bool :=
  match l with
  | x :: l' =>
      match l' with
      | y :: _ => is_zonefile x || is_zonefile y
      | [] => true
      end
      && no_adjacent_strangers l'
  | [] => true
  end.

(** [l1] is [l2] with some elements left out. *)
Inductive subseq {A : Type} : list A -> list A -> Prop :=
| subseq_nil : subseq [] []
| subseq_skip x l1 l2 : subseq l1 l2 -> subseq l1 (x :: l2)
| subseq_keep x l1 l2 : subseq l1 l2 -> subseq (x :: l1) (x :: l2).

(** A character that is no line boundary. *)
Definition no_linebreak (c : ascii) : bool := negb (is_linebreak c).

(** A character that is no line boundary other than the line feed. *)
Definition lf_only (c : ascii) : bool :=
  negb (is_linebreak c) || Ascii.eqb c newline.

(** A hook run on a file that was saved with CR LF line ends. *)
Definition crlf_world : world :=
  hook_world
    ("$ORIGIN example.com." ++ String carriage_return nl
     ++ "@ IN NS ns1" ++ String carriage_return nl)
    (fun _ => 0%Z).

(** A hook run on a file that [git show] does not find. *)
Definition missing_file_world : world :=
  sample_world "/repo/.git/hooks/pre-commit"
    (fun _ => failed 128 "fatal: path 'db.gone' does not exist")
    (fun _ => 0%Z) no_history ("db.gone" ++ nl).

(** A hook run on a file with three commits; the text in [HEAD] has
    the serial right behind the parenthesis. *)
Definition old_tight_paren_world : world :=
  sample_world "/repo/.git/hooks/pre-commit"
    (fun ref => if startswith "HEAD:" ref
                then completed (sample_zone "(" "2024031401")
                else completed (sample_zone "( " "2024031500"))
    (fun _ => 0%Z) (completed ("3" ++ nl)) ("db.example.com" ++ nl).

(** A hook run in a repository with five commits where [git diff]
    names nothing. *)
Definition five_commits_world : world :=
  sample_world "/repo/.git/hooks/pre-commit"
    (fun _ => completed (sample_zone "( " "2024031500"))
    (fun _ => 0%Z) (completed ("5" ++ nl)) ("db.example.com" ++ nl).

(** The number that a text of digits stands for, read after [acc]. *)
Fixpoint digits_num (acc : Z) (s : string) : Z :=
  match s with
  | EmptyString => acc
  | String c s' => digits_num (10 * acc + digit_val c) s'
  end.

Definition no_open_paren (c : ascii) : bool := negb (is_open_paren c).

(** The command with which [read_file] asks for the previous revision. *)
Definition baseline_cmd (call : call_method) (zonefile : string)
  : list string :=
  ["git"; "show";
   match call with
   | git_hook => "HEAD:" ++ zonefile
   | ci_cd => "HEAD~1:" ++ zonefile
   end].

(** The world [w] with another answer to the command [cmd0]. *)
Definition with_answer (w : world) (cmd0 : list string)
    (answer : CompletedProcess) : world :=
  {| run := fun cmd =>
       if list_eq_dec string_dec cmd cmd0 then answer else run w cmd;
     argv0_abspath := argv0_abspath w;
     getcwd := getcwd w;
     now_Ymd := now_Ymd w |}.

(** A hook started outside of any repository. *)
Definition outside_repo_world : world :=
  with_answer two_files_world
    ["git"; "-C"; "/repo"; "rev-parse"; "--show-toplevel"]
    (failed 128 "fatal: not a git repository").

(* ================================================================= *)
(** * Facts *)

(** ** Texts *)

Lemma append_nil_r (s : string) : s ++ "" = s.
Proof. induction s; simpl; congruence. Qed.

Lemma append_assoc (a b c : string) : (a ++ b) ++ c = a ++ (b ++ c).
Proof. induction a; simpl; congruence. Qed.

Lemma length_append (a b : string) :
  String.length (a ++ b) = (String.length a + String.length b)%nat.
Proof. induction a; simpl; congruence. Qed.

Lemma append_inv_head (a b c : string) : a ++ b = a ++ c -> b = c.
Proof. induction a; simpl; intros H; [assumption|]. injection H; auto. Qed.

Lemma append_inv_tail (a b c : string) : a ++ c = b ++ c -> a = b.
Proof.
  revert b; induction a as [|x a IH]; intros [|y b] H; simpl in *.
  - reflexivity.
  - apply (f_equal String.length) in H. simpl in H.
    rewrite length_append in H. lia.
  - apply (f_equal String.length) in H. simpl in H.
    rewrite length_append in H. lia.
  - injection H as -> H. f_equal. auto.
Qed.

Lemma length_zero_empty (s : string) : String.length s = 0%nat -> s = "".
Proof. destruct s; simpl; [reflexivity | discriminate]. Qed.

Lemma take_append (a b : string) : take (String.length a) (a ++ b) = a.
Proof. induction a; simpl; [destruct b; reflexivity | congruence]. Qed.

Lemma consumed_append (m post : string) : consumed (m ++ post) post = m.
Proof.
  unfold consumed. rewrite length_append.
  replace (String.length m + String.length post - String.length post)%nat
    with (String.length m) by lia.
  apply take_append.
Qed.

Lemma lastc_append (prev : option ascii) (a b : string) :
  lastc prev (a ++ b) = lastc (lastc prev a) b.
Proof. revert prev; induction a; simpl; intros; auto. Qed.

(** ** The matcher agrees with the matching relation *)

Module ReFacts.
Import Re.

(** What it means for a list of ends to be right for a pattern. *)
Definition ends_ok (r : re) (prev : option ascii) (rest : string) (q : pos)
  : Prop :=
  exists m, rest = m ++ snd q /\ fst q = lastc prev m /\ Match r prev m (snd q).

Lemma star_ends_sound (a : re) (f : option ascii -> string -> list pos) :
  (forall prev rest q, In q (f prev rest) -> ends_ok a prev rest q) ->
  forall n prev rest q,
    In q (star_ends f n prev rest) -> ends_ok (Star a) prev rest q.
Proof.
  intros Hf n. induction n as [|n IH]; intros prev rest q Hq; simpl in Hq.
  - destruct Hq as [<-|[]]. exists "". simpl. repeat split. constructor.
  - apply in_app_or in Hq. destruct Hq as [Hq|[<-|[]]].
    + apply in_flat_map in Hq. destruct Hq as [q1 [H1 H2]].
      destruct (String.length (snd q1) <? String.length rest)%nat; [|contradiction].
      apply Hf in H1. destruct H1 as [m1 [E1 [P1 M1]]].
      apply IH in H2. destruct H2 as [m2 [E2 [P2 M2]]].
      exists (m1 ++ m2). repeat split.
      * rewrite append_assoc, <- E2. exact E1.
      * rewrite lastc_append, <- P1. exact P2.
      * apply MStarS; [rewrite <- E2; exact M1 | rewrite <- P1; exact M2].
    + exists "". simpl. repeat split. constructor.
Qed.

Lemma ends_sound (r : re) :
  forall prev rest q, In q (ends r prev rest) -> ends_ok r prev rest q.
Proof.
  induction r as [|p|a IHa b IHb|a IHa b IHb|a IHa|ml|ml];
    intros prev rest q Hq; simpl in Hq.
  - destruct Hq as [<-|[]]. exists "". simpl. repeat split. constructor.
  - destruct rest as [|c rest']; [contradiction|].
    destruct (p c) eqn:Hp; [|contradiction].
    destruct Hq as [<-|[]]. exists (String c ""). simpl. repeat split.
    constructor. exact Hp.
  - apply in_flat_map in Hq. destruct Hq as [q1 [H1 H2]].
    apply IHa in H1. destruct H1 as [m1 [E1 [P1 M1]]].
    apply IHb in H2. destruct H2 as [m2 [E2 [P2 M2]]].
    exists (m1 ++ m2). repeat split.
    + rewrite append_assoc, <- E2. exact E1.
    + rewrite lastc_append, <- P1. exact P2.
    + apply MCat; [rewrite <- E2; exact M1 | rewrite <- P1; exact M2].
  - apply in_app_or in Hq. destruct Hq as [Hq|Hq].
    + apply IHa in Hq. destruct Hq as [m [E [P Hm]]].
      exists m. repeat split; auto. apply MAltL; exact Hm.
    + apply IHb in Hq. destruct Hq as [m [E [P Hm]]].
      exists m. repeat split; auto. apply MAltR; exact Hm.
  - eapply star_ends_sound; eauto.
  - destruct (at_bol ml prev) eqn:Hb; [|contradiction].
    destruct Hq as [<-|[]]. exists "". simpl. repeat split. constructor; exact Hb.
  - destruct (at_eol ml rest) eqn:Hb; [|contradiction].
    destruct Hq as [<-|[]]. exists "". simpl. repeat split. constructor; exact Hb.
Qed.

Lemma star_ends_last (f : option ascii -> string -> list pos) n prev rest :
  In (prev, rest) (star_ends f n prev rest).
Proof. destruct n; simpl; [left; reflexivity|]. apply in_or_app. right. left. reflexivity. Qed.

Lemma star_ends_mono (f : option ascii -> string -> list pos) :
  forall n n' prev rest q,
    (n <= n')%nat -> In q (star_ends f n prev rest) ->
    In q (star_ends f n' prev rest).
Proof.
  induction n as [|n IH]; intros n' prev rest q Hle Hq.
  - simpl in Hq. destruct Hq as [<-|[]]. apply star_ends_last.
  - destruct n' as [|n']; [lia|]. simpl in *.
    apply in_app_or in Hq. apply in_or_app. destruct Hq as [Hq|Hq]; [left|right; exact Hq].
    apply in_flat_map in Hq. destruct Hq as [q1 [H1 H2]].
    apply in_flat_map. exists q1. split; [exact H1|].
    destruct (String.length (snd q1) <? String.length rest)%nat; [|contradiction].
    apply IH; [lia | exact H2].
Qed.

Lemma ends_complete (r : re) (prev : option ascii) (m post : string) :
  Match r prev m post -> In (lastc prev m, post) (ends r prev (m ++ post)).
Proof.
  induction 1 as
    [prev post|p c prev post Hp
    |a b prev m1 m2 post _ IH1 _ IH2
    |a b prev m post _ IH|a b prev m post _ IH
    |a prev post
    |a prev m1 m2 post _ IH1 _ IH2
    |ml prev post Hb|ml prev post Hb]; simpl.
  - left; reflexivity.
  - rewrite Hp. left; reflexivity.
  - apply in_flat_map. exists (lastc prev m1, m2 ++ post). split.
    + rewrite append_assoc. exact IH1.
    + simpl. rewrite lastc_append. exact IH2.
  - apply in_or_app; left; exact IH.
  - apply in_or_app; right; exact IH.
  - apply star_ends_last.
  - destruct (string_dec m1 "") as [->|Hne].
    + simpl in *. exact IH2.
    + rewrite lastc_append. simpl in IH2.
      assert (Hlen : (String.length (m2 ++ post) < String.length ((m1 ++ m2) ++ post))%nat).
      { rewrite append_assoc, (length_append m1).
        destruct m1; [congruence | simpl; lia]. }
      destruct (String.length ((m1 ++ m2) ++ post)) as [|k] eqn:Ek; [lia|].
      simpl. apply in_or_app. left.
      apply in_flat_map. exists (lastc prev m1, m2 ++ post). split.
      * rewrite append_assoc. exact IH1.
      * simpl. rewrite Ek.
        destruct (String.length (m2 ++ post) <? S k)%nat eqn:Hlt.
        -- eapply star_ends_mono; [|exact IH2]. lia.
        -- apply Nat.ltb_ge in Hlt. lia.
  - rewrite Hb. left; reflexivity.
  - rewrite Hb. left; reflexivity.
Qed.

(** [ends] is empty exactly when nothing matches from the position. *)
Lemma ends_nil_iff (r : re) (prev : option ascii) (rest : string) :
  ends r prev rest = [] <->
  (forall m post, rest = m ++ post -> ~ Match r prev m post).
Proof.
  split.
  - intros E m post -> Hm. apply ends_complete in Hm. rewrite E in Hm. exact Hm.
  - intros H. destruct (ends r prev rest) as [|q l] eqn:E; [reflexivity|].
    exfalso. assert (Hq : In q (ends r prev rest)) by (rewrite E; left; reflexivity).
    apply ends_sound in Hq. destruct Hq as [m [E1 [_ Hm]]].
    exact (H m (snd q) E1 Hm).
Qed.

Lemma ends_head (r : re) (prev : option ascii) (rest : string) q l :
  ends r prev rest = q :: l ->
  rest = consumed rest (snd q) ++ snd q
  /\ fst q = lastc prev (consumed rest (snd q))
  /\ Match r prev (consumed rest (snd q)) (snd q).
Proof.
  intros E.
  assert (Hq : In q (ends r prev rest)) by (rewrite E; left; reflexivity).
  apply ends_sound in Hq. destruct Hq as [m [E1 [P Hm]]].
  subst rest. rewrite consumed_append. auto.
Qed.

Lemma search_at_some (r : re) :
  forall rest prev t,
    search_at r prev rest = Some t ->
    exists pre post,
      rest = pre ++ t ++ post /\ Match r (lastc prev pre) t post.
Proof.
  induction rest as [|c rest IH]; intros prev t H; simpl in H.
  - destruct (ends r prev "") as [|q l] eqn:E; [discriminate|].
    injection H as <-. apply ends_head in E. destruct E as [E1 [_ Hm]].
    exists "", (snd q). split; [exact E1 | exact Hm].
  - destruct (ends r prev (String c rest)) as [|q l] eqn:E.
    + apply IH in H. destruct H as [pre [post [E1 Hm]]].
      exists (String c pre), post. simpl. split; [congruence | exact Hm].
    + injection H as <-. apply ends_head in E. destruct E as [E1 [_ Hm]].
      exists "", (snd q). split; [exact E1 | exact Hm].
Qed.

Lemma search_at_none (r : re) :
  forall rest prev,
    search_at r prev rest = None ->
    forall pre m post,
      rest = pre ++ m ++ post -> ~ Match r (lastc prev pre) m post.
Proof.
  induction rest as [|c rest IH]; intros prev H pre m post E Hm; simpl in H.
  - destruct (ends r prev "") as [|q l] eqn:E0; [|discriminate].
    destruct pre; [|discriminate]. simpl in *.
    exact (proj1 (ends_nil_iff r prev "") E0 m post E Hm).
  - destruct (ends r prev (String c rest)) as [|q l] eqn:E0; [|discriminate].
    destruct pre as [|d pre]; simpl in *.
    + exact (proj1 (ends_nil_iff r prev _) E0 m post E Hm).
    + injection E as -> E. exact (IH (Some d) H pre m post E Hm).
Qed.

(** [re.search] finds a match exactly when the subject has one. *)
Lemma search_none_iff (r : re) (s : string) :
  search r s = None <-> ~ Found r s.
Proof.
  split.
  - intros H [pre [m [post [E Hm]]]].
    exact (search_at_none r s None H pre m post E Hm).
  - intros H. destruct (search r s) as [t|] eqn:E; [|reflexivity].
    exfalso. apply H. apply search_at_some in E.
    destruct E as [pre [post [E Hm]]]. exists pre, t, post. auto.
Qed.

Lemma search_some_iff (r : re) (s : string) :
  (exists t, search r s = Some t) <-> Found r s.
Proof.
  split.
  - intros [t E]. apply search_at_some in E.
    destruct E as [pre [post [E Hm]]]. exists pre, t, post. auto.
  - intros H. destruct (search r s) as [t|] eqn:E; [eauto|].
    exfalso. exact (proj1 (search_none_iff r s) E H).
Qed.

Lemma first_some_none {A B : Type} (f : A -> option B) (l : list A) :
  first_some f l = None <-> (forall x, In x l -> f x = None).
Proof.
  induction l as [|x l IH]; simpl.
  - split; [intros _ x [] | reflexivity].
  - destruct (f x) eqn:E.
    + split; [discriminate|]. intros H. rewrite (H x (or_introl eq_refl)) in E. discriminate.
    + rewrite IH. split.
      * intros H y [<-|Hy]; auto.
      * intros H y Hy. apply H. right. exact Hy.
Qed.

Lemma first_some_some {A B : Type} (f : A -> option B) (l : list A) (y : B) :
  first_some f l = Some y -> exists x, In x l /\ f x = Some y.
Proof.
  induction l as [|x l IH]; simpl; [discriminate|].
  destruct (f x) eqn:E.
  - intros H. injection H as ->. exists x. auto.
  - intros H. destruct (IH H) as [x' [H1 H2]]. exists x'. auto.
Qed.

Lemma flat_map_nil {A B : Type} (f : A -> list B) (l : list A) :
  flat_map f l = [] <-> (forall x, In x l -> f x = []).
Proof.
  induction l as [|x l IH]; simpl.
  - split; [intros _ x [] | reflexivity].
  - split.
    + intros H. apply app_eq_nil in H. destruct H as [H1 H2].
      intros y [<-|Hy]; [exact H1 | exact (proj1 IH H2 y Hy)].
    + intros H. rewrite (H x (or_introl eq_refl)). simpl.
      apply IH. intros y Hy. apply H. right. exact Hy.
Qed.

(** Looking for the group fails exactly when the whole pattern
    [pre(grp)post] has no match from the position. *)
Lemma group_at_none (pre grp post : re) (prev : option ascii) (rest : string) :
  group_at pre grp post prev rest = None <->
  ends (Cat pre (Cat grp post)) prev rest = [].
Proof.
  unfold group_at. simpl. rewrite first_some_none, flat_map_nil.
  split; intros H q1 H1; specialize (H q1 H1).
  - rewrite first_some_none in H. apply flat_map_nil. intros q2 H2.
    specialize (H q2 H2). destruct (ends post (fst q2) (snd q2)); [reflexivity|discriminate].
  - apply first_some_none. intros q2 H2.
    rewrite flat_map_nil in H. rewrite (H q2 H2). reflexivity.
Qed.

Lemma group_at_some (pre grp post : re) (prev : option ascii) (rest g : string) :
  group_at pre grp post prev rest = Some g ->
  exists m0 m2 z,
    rest = m0 ++ g ++ m2 ++ z
    /\ Match pre prev m0 (g ++ m2 ++ z)
    /\ Match grp (lastc prev m0) g (m2 ++ z)
    /\ Match post (lastc prev (m0 ++ g)) m2 z.
Proof.
  unfold group_at. intros H.
  apply first_some_some in H. destruct H as [q1 [H1 H]].
  apply first_some_some in H. destruct H as [q2 [H2 H]].
  destruct (ends post (fst q2) (snd q2)) as [|q3 l] eqn:E3; [discriminate|].
  injection H as <-.
  assert (H3 : In q3 (ends post (fst q2) (snd q2))) by (rewrite E3; left; reflexivity).
  apply ends_sound in H1. destruct H1 as [m0 [E0 [P0 M0]]].
  apply ends_sound in H2. destruct H2 as [g [E1 [P1 M1]]].
  apply ends_sound in H3. destruct H3 as [m2 [E2 [P2 M2]]].
  destruct q1 as [p1 r1], q2 as [p2 r2], q3 as [p3 r3]. simpl in *.
  subst. rewrite consumed_append.
  exists m0, m2, r3. rewrite lastc_append. auto.
Qed.

Lemma search_group_at_none (pre grp post : re) :
  forall rest prev,
    search_group_at pre grp post prev rest = None <->
    search_at (Cat pre (Cat grp post)) prev rest = None.
Proof.
  induction rest as [|c rest IH]; intros prev.
  - cbn [search_group_at search_at].
    destruct (group_at pre grp post prev "") eqn:E.
    + destruct (ends (Cat pre (Cat grp post)) prev "") eqn:E';
        [apply group_at_none in E'; congruence|]. split; discriminate.
    + apply group_at_none in E. rewrite E. tauto.
  - cbn [search_group_at search_at].
    destruct (group_at pre grp post prev (String c rest)) eqn:E.
    + destruct (ends (Cat pre (Cat grp post)) prev (String c rest)) eqn:E';
        [apply group_at_none in E'; congruence|]. split; discriminate.
    + apply group_at_none in E. rewrite E. apply IH.
Qed.

(** [re.search(...)] is [None] exactly when the subject has no match of
    the whole pattern. *)
Lemma search_group_none_iff (pre grp post : re) (s : string) :
  search_group pre grp post s = None <-> ~ Found (Cat pre (Cat grp post)) s.
Proof.
  unfold search_group. rewrite search_group_at_none. apply search_none_iff.
Qed.

Lemma search_group_at_some (pre grp post : re) :
  forall rest prev g,
    search_group_at pre grp post prev rest = Some g ->
    exists a m0 m2 z,
      rest = a ++ m0 ++ g ++ m2 ++ z
      /\ Match pre (lastc prev a) m0 (g ++ m2 ++ z)
      /\ Match grp (lastc prev (a ++ m0)) g (m2 ++ z)
      /\ Match post (lastc prev (a ++ m0 ++ g)) m2 z.
Proof.
  induction rest as [|c rest IH]; intros prev g H; cbn [search_group_at] in H.
  - destruct (group_at pre grp post prev "") eqn:E; [|discriminate].
    injection H as ->. apply group_at_some in E.
    destruct E as [m0 [m2 [z [E [A [B C]]]]]]. exists "", m0, m2, z. simpl. auto.
  - destruct (group_at pre grp post prev (String c rest)) eqn:E.
    + injection H as ->. apply group_at_some in E.
      destruct E as [m0 [m2 [z [E [A [B C]]]]]]. exists "", m0, m2, z. simpl. auto.
    + apply IH in H. destruct H as [a [m0 [m2 [z [E' [A [B C]]]]]]].
      exists (String c a), m0, m2, z. simpl. rewrite E'. auto.
Qed.

End ReFacts.

(** ** Reading a match back *)

Import Re ReFacts.

Lemma Match_Eps_inv prev m post : Match Eps prev m post -> m = "".
Proof. inversion 1; reflexivity. Qed.

Lemma Match_Sym_inv p prev m post :
  Match (Sym p) prev m post -> exists c, m = String c "" /\ p c = true.
Proof. inversion 1; subst; eauto. Qed.

Lemma Match_Cat_inv a b prev m post :
  Match (Cat a b) prev m post ->
  exists m1 m2, m = m1 ++ m2 /\ Match a prev m1 (m2 ++ post)
                /\ Match b (lastc prev m1) m2 post.
Proof. inversion 1; subst; eauto. Qed.

Lemma Match_Alt_inv a b prev m post :
  Match (Alt a b) prev m post -> Match a prev m post \/ Match b prev m post.
Proof. inversion 1; subst; auto. Qed.

Lemma Match_Bol_inv ml prev m post :
  Match (Bol ml) prev m post -> m = "" /\ at_bol ml prev = true.
Proof. inversion 1; subst; auto. Qed.

Lemma Match_Eol_inv ml prev m post :
  Match (Eol ml) prev m post -> m = "" /\ at_eol ml post = true.
Proof. inversion 1; subst; auto. Qed.

Lemma Match_lit_inv s : forall prev m post, Match (lit s) prev m post -> m = s.
Proof.
  induction s as [|c s IH]; intros prev m post H; simpl in H.
  - apply Match_Eps_inv in H. exact H.
  - apply Match_Cat_inv in H. destruct H as [m1 [m2 [-> [H1 H2]]]].
    apply Match_Sym_inv in H1. destruct H1 as [d [-> Hd]].
    apply Ascii.eqb_eq in Hd. subst d. apply IH in H2. subst. reflexivity.
Qed.

Lemma Match_lit s : forall prev post, Match (lit s) prev s post.
Proof.
  induction s as [|c s IH]; intros prev post; simpl.
  - constructor.
  - change (String c s) with (String c "" ++ s). apply MCat.
    + constructor. apply Ascii.eqb_refl.
    + apply IH.
Qed.

Lemma Match_Star_Sym_inv p prev m post :
  Match (Star (Sym p)) prev m post -> all_chars p m = true.
Proof.
  remember (Star (Sym p)) as r eqn:Er. intros H.
  induction H; try discriminate; injection Er as ->.
  - reflexivity.
  - apply Match_Sym_inv in H. destruct H as [c [-> Hc]]. simpl.
    rewrite Hc. simpl. apply IHMatch2. reflexivity.
Qed.

Lemma Match_Star_Sym p : forall m prev post,
  all_chars p m = true -> Match (Star (Sym p)) prev m post.
Proof.
  induction m as [|c m IH]; intros prev post H; simpl in H.
  - constructor.
  - apply andb_prop in H. destruct H as [Hc Hm].
    change (String c m) with (String c "" ++ m). apply MStarS.
    + constructor. exact Hc.
    + apply IH. exact Hm.
Qed.

Lemma Match_Plus_Sym_inv p prev m post :
  Match (Plus (Sym p)) prev m post ->
  exists c m', m = String c m' /\ p c = true /\ all_chars p m' = true.
Proof.
  intros H. apply Match_Cat_inv in H. destruct H as [m1 [m2 [-> [H1 H2]]]].
  apply Match_Sym_inv in H1. destruct H1 as [c [-> Hc]].
  apply Match_Star_Sym_inv in H2. exists c, m2. auto.
Qed.

Lemma lastc_None_inv pre : lastc None pre = None -> pre = "".
Proof.
  destruct pre as [|c pre]; [reflexivity|]. simpl.
  assert (forall s d, lastc (Some d) s <> None).
  { induction s; simpl; intros; [discriminate | apply IHs]. }
  intros H'. exfalso. exact (H pre c H').
Qed.

Lemma at_bol_false_inv pre : at_bol false (lastc None pre) = true -> pre = "".
Proof.
  intros H. apply lastc_None_inv. destruct (lastc None pre); [discriminate|reflexivity].
Qed.

Lemma at_eol_false_inv post :
  at_eol false post = true -> post = "" \/ post = String newline "".
Proof.
  destruct post as [|c [|d post]]; simpl; auto.
  - rewrite andb_true_r. intros H. apply Ascii.eqb_eq in H. subst. auto.
  - rewrite andb_false_r. discriminate.
Qed.

Lemma string_of_uint_digits (d : Decimal.uint) :
  all_chars is_digit (NilEmpty.string_of_uint d) = true.
Proof. induction d; simpl; auto. Qed.

Lemma all_chars_weaken (p q : ascii -> bool) (s : string) :
  (forall c, p c = true -> q c = true) ->
  all_chars p s = true -> all_chars q s = true.
Proof.
  intros Hpq. induction s as [|c s IH]; simpl; [reflexivity|].
  intros H. apply andb_prop in H. destruct H as [H1 H2].
  rewrite (Hpq c H1), (IH H2). reflexivity.
Qed.

Lemma str_chars (n : Z) : all_chars is_sign_or_digit (str n) = true.
Proof.
  assert (Hu : forall d, all_chars is_sign_or_digit (NilZero.string_of_uint d) = true).
  { intros d. apply all_chars_weaken with (p := is_digit).
    - intros c Hc. unfold is_sign_or_digit. rewrite Hc. reflexivity.
    - destruct d; try apply string_of_uint_digits. reflexivity. }
  unfold str. destruct (Z.to_int n); simpl; auto.
Qed.

Lemma all_chars_append p a b :
  all_chars p (a ++ b) = all_chars p a && all_chars p b.
Proof. induction a; simpl; [reflexivity|]. rewrite IHa. apply andb_assoc. Qed.

Lemma str_no_newline (n : Z) (a b : string) : str n <> a ++ String newline b.
Proof.
  intros E. pose proof (str_chars n) as H. rewrite E, all_chars_append in H.
  simpl in H. rewrite andb_false_r in H. discriminate.
Qed.

(** Whether a subject has a match is decided by running [re.search]. *)
Lemma search_dec (r : re) (s : string) :
  {Found r s} + {~ Found r s}.
Proof.
  destruct (search r s) as [t|] eqn:E.
  - left. apply search_some_iff. eauto.
  - right. apply search_none_iff. exact E.
Qed.


(** ** The serial patterns *)

Lemma dated_serial_found (date : string) (n : Z) :
  Found (dated_serial_pattern date) (str n) <-> dated_serial date n.
Proof.
  unfold dated_serial_pattern, dated_serial. cbn [seq]. split.
  - intros [pre [m [post [E H]]]].
    apply Match_Cat_inv in H. destruct H as [m0 [ma [-> [H0 H]]]].
    apply Match_Bol_inv in H0. destruct H0 as [-> Hb].
    apply at_bol_false_inv in Hb. subst pre.
    apply Match_Cat_inv in H. destruct H as [m1 [mb [-> [H1 H]]]].
    apply Match_lit_inv in H1. subst m1.
    apply Match_Cat_inv in H. destruct H as [m2 [mc [-> [H2 H]]]].
    apply Match_Sym_inv in H2. destruct H2 as [d1 [-> Hd1]].
    apply Match_Cat_inv in H. destruct H as [m3 [md [-> [H3 H]]]].
    apply Match_Sym_inv in H3. destruct H3 as [d2 [-> Hd2]].
    apply Match_Eol_inv in H. destruct H as [-> He].
    exists d1, d2. repeat split; auto.
    simpl in E. apply at_eol_false_inv in He. destruct He as [->| ->].
    + rewrite E, !append_assoc. simpl. reflexivity.
    + exfalso. apply (str_no_newline n (date ++ String d1 (String d2 "")) "").
      rewrite E, !append_assoc. simpl. reflexivity.
  - intros [d1 [d2 [Hd1 [Hd2 E]]]].
    exists "", (str n), "". split; [simpl; rewrite append_nil_r; reflexivity|].
    rewrite E. simpl lastc.
    change (date ++ String d1 (String d2 ""))
      with ("" ++ date ++ String d1 "" ++ String d2 "" ++ "").
    apply MCat; [constructor; reflexivity|].
    apply MCat; [apply Match_lit|].
    apply MCat; [constructor; exact Hd1|].
    apply MCat; [constructor; exact Hd2|].
    constructor. reflexivity.
Qed.

(** The two tests of [check_serial], one by one. *)
Lemma check_serial_baseline_cases (date : string) (s0 s1 : Z) :
  check_serial date s0 (Some s1)
  = if search_dec (dated_serial_pattern date) (str s0)
    then if (s0 >? s1)%Z then 0%Z else 1%Z
    else 1%Z.
Proof.
  unfold check_serial.
  destruct (search_dec _ _) as [H|H].
  - apply search_some_iff in H. destruct H as [t ->]. reflexivity.
  - apply search_none_iff in H. rewrite H. destruct (s0 >? s1)%Z; reflexivity.
Qed.

(** C1.  With a baseline, [check_serial] returns 1 exactly when the
    decimal text of the current serial is not the date of the day
    (YYYYMMDD) followed by two digits, or the current serial is not
    greater than the baseline as an integer; otherwise it returns 0.  It
    returns 1, not 2, when both rules fail. *)
Theorem check_serial_with_baseline (date : string) (s0 s1 : Z) :
  (check_serial date s0 (Some s1) = 1%Z
   <-> ~ dated_serial date s0 \/ ~ (s0 > s1)%Z)
  /\ (check_serial date s0 (Some s1) = 0%Z
      <-> dated_serial date s0 /\ (s0 > s1)%Z)
  /\ (check_serial date s0 (Some s1) = 0%Z
      \/ check_serial date s0 (Some s1) = 1%Z).
Proof.
  rewrite check_serial_baseline_cases.
  destruct (search_dec _ _) as [H|H]; rewrite dated_serial_found in H;
    [destruct (Z.gtb_spec s0 s1) as [Hgt|Hle];
     [assert (s0 > s1)%Z by lia | assert (~ (s0 > s1)%Z) by lia]|];
    repeat split; intros; try discriminate; try tauto.
Qed.

(** The values of the specification for a zone with a history. *)
Lemma check_serial_history_examples :
  check_serial "20240315" 2024031500 (Some 2024031401%Z) = 0%Z
  /\ check_serial "20240315" 2024031599 (Some 2024031401%Z) = 0%Z
  /\ check_serial "20240315" 2024031400 (Some 2024031300%Z) = 1%Z
  /\ check_serial "20240314" 2024031402 (Some 2024031401%Z) = 0%Z
  /\ check_serial "20240314" 2024031401 (Some 2024031401%Z) = 1%Z
  /\ check_serial "20240314" 2024031400 (Some 2024031401%Z) = 1%Z
  /\ check_serial "20240315" 20240315000 (Some 2024031401%Z) = 1%Z.
Proof. repeat split; vm_compute; reflexivity. Qed.

Lemma check_serial_new_cases (date : string) (s0 : Z) :
  check_serial date s0 None
  = if search_dec new_serial_pattern (str s0) then 0%Z else 1%Z.
Proof.
  unfold check_serial.
  destruct (search_dec _ _) as [H|H].
  - apply search_some_iff in H. destruct H as [t ->]. reflexivity.
  - apply search_none_iff in H. rewrite H. reflexivity.
Qed.

(** C4.  Without a baseline, [check_serial] passes (returns 0) exactly
    when the decimal text of the serial has a part that matches
    [19[7-9][0-9]|[2-9][0-9]{3}0[1-9]|1[12][012][0-9]|3[01]\d\d], and
    returns 1 otherwise; 2024010100 passes and 42 fails. *)
Theorem check_serial_new_zone :
  (forall date n,
      check_serial date n None = 0%Z <-> Found new_serial_pattern (str n))
  /\ (forall date n,
         check_serial date n None = 1%Z <-> ~ Found new_serial_pattern (str n))
  /\ (forall date, check_serial date 2024010100 None = 0%Z)
  /\ (forall date, check_serial date 42 None = 1%Z).
Proof.
  split; [|split; [|split]].
  - intros date n. rewrite check_serial_new_cases.
    destruct (search_dec _ _); split; intros; try discriminate; tauto.
  - intros date n. rewrite check_serial_new_cases.
    destruct (search_dec _ _); split; intros; try discriminate; tauto.
  - intros date. vm_compute. reflexivity.
  - intros date. vm_compute. reflexivity.
Qed.

Ltac norm_app :=
  repeat first [rewrite append_assoc | rewrite append_nil_r | progress simpl].

(** ** The [$ORIGIN] patterns *)

Lemma origin_dot_found (line : string) :
  Found origin_dot_pattern line <-> origin_with_dot line.
Proof.
  unfold origin_dot_pattern, origin_with_dot. cbn [seq]. split.
  - intros [pre [m [post [E H]]]].
    apply Match_Cat_inv in H. destruct H as [m0 [ma [-> [H0 H]]]].
    apply Match_Bol_inv in H0. destruct H0 as [-> Hb].
    apply at_bol_false_inv in Hb. subst pre.
    apply Match_Cat_inv in H. destruct H as [ws [mb [-> [H1 H]]]].
    apply Match_Star_Sym_inv in H1.
    apply Match_Cat_inv in H. destruct H as [kw [mc [-> [H2 H]]]].
    apply Match_lit_inv in H2. subst kw.
    apply Match_Cat_inv in H. destruct H as [name [md [-> [H3 H]]]].
    apply Match_Star_Sym_inv in H3.
    apply Match_Cat_inv in H. destruct H as [dot [me [-> [H4 H]]]].
    apply Match_Sym_inv in H4. destruct H4 as [c [-> Hc]].
    apply Ascii.eqb_eq in Hc. subst c.
    apply Match_Eol_inv in H. destruct H as [-> He].
    apply at_eol_false_inv in He.
    exists ws, name, post. repeat split; auto.
    rewrite E. norm_app. reflexivity.
  - intros [ws [name [eol [E [Hws [Hname Heol]]]]]].
    exists "", (ws ++ "$ORIGIN" ++ name ++ "."), eol. split.
    + rewrite E. norm_app. reflexivity.
    + simpl lastc.
      change (ws ++ "$ORIGIN" ++ name ++ ".")
        with ("" ++ ws ++ "$ORIGIN" ++ name ++ "." ++ "").
      apply MCat; [constructor; reflexivity|].
      apply MCat; [apply Match_Star_Sym; exact Hws|].
      apply MCat; [apply Match_lit|].
      apply MCat; [apply Match_Star_Sym; exact Hname|].
      apply MCat; [constructor; reflexivity|].
      constructor. destruct Heol as [->| ->]; reflexivity.
Qed.

(** [check_origin] raises its flag at the first line that does not match
    and never lowers it. *)
Lemma check_origin_cases (l : list string) :
  check_origin l
  = if forallb (fun line => if search_dec origin_dot_pattern line
                            then true else false) l
    then 0%Z else 1%Z.
Proof.
  unfold check_origin.
  assert (G : forall acc,
             fold_left
               (fun err_counter line =>
                  match search origin_dot_pattern line with
                  | Some _ => err_counter
                  | None => 1%Z
                  end) l acc
             = if forallb (fun line => if search_dec origin_dot_pattern line
                                       then true else false) l
               then acc else 1%Z).
  { induction l as [|line l IH]; intros acc; simpl; [reflexivity|].
    rewrite IH. destruct (search_dec origin_dot_pattern line) as [H|H].
    - apply search_some_iff in H. destruct H as [t ->]. reflexivity.
    - apply search_none_iff in H. rewrite H. simpl.
      destruct (forallb _ l); reflexivity. }
  apply G.
Qed.

Lemma all_chars_no_newline (s a b : string) :
  all_chars is_dot s = true -> s <> a ++ String newline b.
Proof.
  intros H E. rewrite E, all_chars_append in H. simpl in H.
  rewrite andb_false_r in H. discriminate.
Qed.

Lemma lastc_snoc (s : string) :
  forall prev c, s <> "" -> lastc prev s = Some c ->
                 exists s', s = s' ++ String c "".
Proof.
  induction s as [|d s IH]; intros prev c Hne H; [congruence|].
  destruct s as [|d' s].
  - simpl in H. injection H as ->. exists "". reflexivity.
  - simpl in H. destruct (IH (Some d) c) as [s' E]; [discriminate | exact H |].
    exists (String d s'). simpl. rewrite <- E. reflexivity.
Qed.

Lemma ends_consumed (r : re) (prev : option ascii) (rest : string) (q : pos) :
  In q (ends r prev rest) -> Match r prev (consumed rest (snd q)) (snd q).
Proof.
  intros H. apply ends_sound in H. destruct H as [m [E [_ Hm]]].
  subst rest. rewrite consumed_append. exact Hm.
Qed.

Lemma ends_not_longer (r : re) (prev : option ascii) (rest : string) (q : pos) :
  In q (ends r prev rest) ->
  (String.length (snd q) <? String.length rest)%nat = false ->
  Match r prev "" (snd q).
Proof.
  intros H Hl. apply ends_sound in H. destruct H as [m [E [_ Hm]]].
  apply Nat.ltb_ge in Hl. rewrite E, length_append in Hl.
  assert (m = "") by (apply length_zero_empty; lia). subst m. exact Hm.
Qed.

(** Every text that [re.findall] returns is a match of the pattern. *)
Lemma findall_at_sound (r : re) :
  forall rest skip prev t,
    In t (findall_at r skip prev rest) -> exists prev' post, Match r prev' t post.
Proof.
  induction rest as [|c rest IH]; intros skip prev t H.
  - destruct skip; simpl in H; [|contradiction].
    destruct (ends r prev "") as [|q qs] eqn:E; [contradiction|].
    assert (Hq : In q (ends r prev "")) by (rewrite E; left; reflexivity).
    replace (String.length (snd q) <? 0)%nat with false in H
      by (symmetry; apply Nat.ltb_ge; lia).
    destruct H as [<-|H].
    + exists prev, (snd q). apply (ends_not_longer r prev "" q Hq).
      apply Nat.ltb_ge. simpl. lia.
    + match type of H with
      | context [filter ?f qs] =>
          pose proof (filter_In f) as Hf;
          remember (filter f qs) as fl eqn:Ef; destruct fl as [|q' l']
      end; [contradiction|].
      assert (Hin : In q' (q' :: l')) by (left; reflexivity).
      rewrite Ef in Hin. apply Hf in Hin. destruct Hin as [_ Hl].
      simpl in Hl. apply Nat.ltb_lt in Hl. lia.
  - destruct skip as [|k]; [|simpl in H; eapply IH; exact H].
    cbn [findall_at] in H.
    destruct (ends r prev (String c rest)) as [|q qs] eqn:E;
      [eapply IH; exact H|].
    assert (Hq : In q (ends r prev (String c rest))) by (rewrite E; left; reflexivity).
    destruct (String.length (snd q) <? String.length (String c rest))%nat eqn:Hl.
    + destruct H as [<-|H].
      * exists prev, (snd q). apply ends_consumed. exact Hq.
      * eapply IH; exact H.
    + destruct H as [<-|H].
      * exists prev, (snd q). apply (ends_not_longer r prev _ q Hq Hl).
      * match type of H with
        | context [filter ?f qs] =>
            pose proof (filter_In f) as Hf;
            remember (filter f qs) as fl eqn:Ef; destruct fl as [|q' l']
        end; [eapply IH; exact H|].
        assert (Hq' : In q' (ends r prev (String c rest))).
        { rewrite E. right.
          assert (Hin : In q' (q' :: l')) by (left; reflexivity).
          rewrite Ef in Hin. apply Hf in Hin. tauto. }
        destruct H as [<-|H].
        -- exists prev, (snd q'). apply ends_consumed. exact Hq'.
        -- eapply IH; exact H.
Qed.

Lemma parse_origin_line (data line : string) :
  In line (parse_origin data) ->
  exists ws rest,
    line = ws ++ "$ORIGIN" ++ rest
    /\ all_chars blank_char ws = true /\ all_chars is_dot rest = true.
Proof.
  intros H. apply findall_at_sound in H. destruct H as [prev [post H]].
  unfold origin_line_pattern in H. cbn [seq] in H.
  apply Match_Cat_inv in H. destruct H as [m0 [ma [-> [H0 H]]]].
  apply Match_Bol_inv in H0. destruct H0 as [-> _].
  apply Match_Cat_inv in H. destruct H as [ws [mb [-> [H1 H]]]].
  apply Match_Star_Sym_inv in H1.
  apply Match_Cat_inv in H. destruct H as [kw [mc [-> [H2 H]]]].
  apply Match_lit_inv in H2. subst kw.
  apply Match_Cat_inv in H. destruct H as [rest [md [-> [H3 H]]]].
  apply Match_Star_Sym_inv in H3.
  apply Match_Eol_inv in H. destruct H as [-> _].
  exists ws, rest. rewrite append_nil_r. simpl. auto.
Qed.

Lemma blank_is_dot (s : string) :
  all_chars blank_char s = true -> all_chars is_dot s = true.
Proof.
  apply all_chars_weaken. intros c H. unfold blank_char in H.
  apply orb_prop in H. destruct H as [H|H]; apply Ascii.eqb_eq in H; subst; reflexivity.
Qed.

(** On a line that [parse_origin] returns, the pattern of [check_origin]
    asks for nothing but a dot at the end. *)
Lemma parse_origin_line_dot (data line : string) :
  In line (parse_origin data) ->
  (origin_with_dot line <-> ends_with_dot line = true).
Proof.
  intros H. apply parse_origin_line in H.
  destruct H as [ws [rest [E [Hws Hrest]]]].
  assert (Hline : all_chars is_dot line = true).
  { rewrite E, !all_chars_append, (blank_is_dot ws Hws), Hrest. reflexivity. }
  unfold ends_with_dot. split.
  - intros [ws' [name [eol [E' [_ [_ Heol]]]]]].
    destruct Heol as [->| ->].
    + rewrite E', !lastc_append. reflexivity.
    + exfalso. apply (all_chars_no_newline line (ws' ++ "$ORIGIN" ++ name ++ ".") "" Hline).
      rewrite E'. norm_app. reflexivity.
  - intros Hd. destruct (lastc None line) as [c|] eqn:El; [|discriminate].
    apply Ascii.eqb_eq in Hd. subst c.
    rewrite E, !lastc_append in El.
    destruct (string_dec rest "") as [->|Hne].
    + simpl in El. discriminate.
    + apply lastc_snoc in El; [|exact Hne]. destruct El as [name ->].
      exists ws, name, "".
      rewrite all_chars_append in Hrest. apply andb_prop in Hrest.
      split; [rewrite E; norm_app; reflexivity | tauto].
Qed.

(** C5.  [check_origin] returns 1 exactly when some line is not of the
    shape [$ORIGIN <name>.] with the dot at its end, and 0 otherwise, so 0
    for the empty list and never more than 1 however many lines fail.
    On the lines that [parse_origin] takes from a zone text the shape
    comes down to the dot at the end of the line. *)
Theorem check_origin_flags_missing_dot :
  (forall l, check_origin l = 1%Z
             <-> exists line, In line l /\ ~ origin_with_dot line)
  /\ (forall l, check_origin l = 0%Z
                <-> forall line, In line l -> origin_with_dot line)
  /\ check_origin [] = 0%Z
  /\ (forall l, check_origin l = 0%Z \/ check_origin l = 1%Z)
  /\ (forall data,
         check_origin (parse_origin data) = 1%Z
         <-> exists line,
             In line (parse_origin data) /\ ends_with_dot line = false)
  /\ check_origin ["$ORIGIN example.com."] = 0%Z
  /\ check_origin ["$ORIGIN example.com"] = 1%Z
  /\ check_origin ["$ORIGIN example.com"; "$ORIGIN example.org"] = 1%Z.
Proof.
  assert (A : forall l, check_origin l = 1%Z
                        <-> exists line, In line l /\ ~ origin_with_dot line).
  { intros l. rewrite check_origin_cases.
    destruct (forallb _ l) eqn:F.
    - split; [discriminate|]. intros [line [Hin Hn]].
      rewrite forallb_forall in F. specialize (F line Hin).
      destruct (search_dec origin_dot_pattern line) as [Hf|Hf]; [|discriminate].
      apply origin_dot_found in Hf. contradiction.
    - split; [intros _|reflexivity].
      assert (E : existsb (fun line => negb (if search_dec origin_dot_pattern line then true else false)) l = true).
      { clear -F. induction l as [|x l IH]; simpl in *; [discriminate|].
        destruct (search_dec origin_dot_pattern x); simpl in *; auto. }
      apply existsb_exists in E. destruct E as [line [Hin Hn]].
      exists line. split; [exact Hin|].
      destruct (search_dec origin_dot_pattern line) as [Hf|Hf]; [discriminate|].
      rewrite <- origin_dot_found. exact Hf. }
  assert (B : forall l, check_origin l = 0%Z \/ check_origin l = 1%Z).
  { intros l. rewrite check_origin_cases. destruct (forallb _ l); auto. }
  split; [exact A|]. split; [|split; [reflexivity|split; [exact B|split]]].
  - intros l. rewrite check_origin_cases. destruct (forallb _ l) eqn:F.
    + split; [intros _|reflexivity]. intros line Hin.
      rewrite forallb_forall in F. specialize (F line Hin).
      destruct (search_dec origin_dot_pattern line) as [Hf|Hf]; [|discriminate].
      apply origin_dot_found. exact Hf.
    + split; [discriminate|]. intros H. exfalso.
      assert (F' : forallb (fun line => if search_dec origin_dot_pattern line then true else false) l = true).
      { apply forallb_forall. intros line Hin.
        destruct (search_dec origin_dot_pattern line) as [Hf|Hf]; [reflexivity|].
        exfalso. apply Hf. apply origin_dot_found. auto. }
      congruence.
  - intros data. rewrite A. split; intros [line [Hin H]]; exists line; split; auto.
    + rewrite (parse_origin_line_dot data line Hin) in H.
      destruct (ends_with_dot line); congruence.
    + rewrite (parse_origin_line_dot data line Hin). congruence.
  - repeat split; vm_compute; reflexivity.
Qed.

(** ** The loop of [pre_commit] *)

(** [check_zone] hands over the exit status of the tool as it is. *)
Lemma check_zone_returncode (w : world) (zonename zonefile : string) :
  check_zone w zonename zonefile
  = Ok (returncode
          (run w ["named-checkzone"; "-k"; "fail"; zonename; zonefile])).
Proof.
  unfold check_zone, exec_cmd.
  destruct (returncode _ =? 0)%Z; reflexivity.
Qed.

(** A file that is processed to its end: the calls that were made and
    the counter they leave. *)
Lemma pre_commit_file_ok w call repo f e t e' t' :
  pre_commit_file w call repo f e t = (Ok e', t') ->
  exists zn rc evs,
    t' = t +++ Checking f :: Called_check_zone zn (path_join repo f) rc :: evs
    /\ check_zone w zn (path_join repo f) = Ok rc
    /\ e' = (e + rc + sum (map ret_of evs))%Z
    /\ later_calls w rc evs.
Proof.
  unfold pre_commit_file, bind, lift, tell, ret.
  destruct (get_rev_count w call (Some f)) as [rev| |] eqn:Erev; try discriminate.
  destruct (read_file w call f 0) as [data| |] eqn:Edata; try discriminate.
  destruct (parse_zone data) as [zn| |] eqn:Ezn; try discriminate.
  destruct (check_zone w zn (path_join repo f)) as [rc| |] eqn:Erc; try discriminate.
  assert (Hself : forall x, (e =? e + x)%Z = (x =? 0)%Z).
  { intros x. destruct (Z.eqb_spec x 0), (Z.eqb_spec e (e + x)); try reflexivity; lia. }
  assert (Hself2 : forall x y, (e =? e + x + y)%Z = (x + y =? 0)%Z).
  { intros x y. rewrite <- Z.add_assoc. apply Hself. }
  rewrite Hself.
  remember (check_origin (parse_origin data)) as eo eqn:Eo.
  destruct (Z.eqb_spec rc 0) as [->|Hrc]; cbn [andb].
  - (* the zone check passed *)
    destruct (Z.eqb_spec rev 0) as [->|Hrev].
    + (* a new zone *)
      destruct (parse_serial data) as [s0| |] eqn:Es0; try discriminate.
      remember (check_serial (now_Ymd w) s0 None) as es eqn:Ees.
      cbn [Z.gtb Z.compare andb]. rewrite ?Bool.andb_false_r.
      rewrite Hself2. cbn [Z.add].
      destruct (Z.eqb_spec es 0) as [E0|E0]; intros H; injection H as <- <-.
      * exists zn, 0%Z, [Called_check_serial s0 None es; Called_check_origin (parse_origin data) eo].
        repeat split; [rewrite <- !app_assoc; reflexivity | exact Erc | simpl; lia|].
        subst es eo. rewrite E0. apply LC_all. exact E0.
      * exists zn, 0%Z, [Called_check_serial s0 None es].
        repeat split; [rewrite <- !app_assoc; reflexivity | exact Erc | simpl; lia|].
        subst es. apply LC_serial_failed. exact E0.
    + destruct (rev >? 0)%Z eqn:Hpos; rewrite ?Hself; cbn [Z.eqb andb].
      * (* a zone with a history *)
        destruct (parse_serial data) as [s0| |] eqn:Es0; try discriminate.
        destruct (read_file w call f 1) as [data1| |] eqn:Edata1; try discriminate.
        destruct (parse_serial data1) as [s1| |] eqn:Es1; try discriminate.
        remember (check_serial (now_Ymd w) s0 (Some s1)) as es eqn:Ees.
        rewrite Hself2. cbn [Z.add].
        destruct (Z.eqb_spec es 0) as [E0|E0]; intros H; injection H as <- <-.
        -- exists zn, 0%Z, [Called_check_serial s0 (Some s1) es; Called_check_origin (parse_origin data) eo].
           repeat split; [rewrite <- !app_assoc; reflexivity | exact Erc | simpl; lia|].
           subst es eo. rewrite E0. apply LC_all. exact E0.
        -- exists zn, 0%Z, [Called_check_serial s0 (Some s1) es].
           repeat split; [rewrite <- !app_assoc; reflexivity | exact Erc | simpl; lia|].
           subst es. apply LC_serial_failed. exact E0.
      * (* a negative count: no serial check *)
        rewrite Hself. cbn [Z.eqb].
        intros H; injection H as <- <-.
        exists zn, 0%Z, [Called_check_origin (parse_origin data) eo].
        repeat split; [rewrite <- !app_assoc; reflexivity | exact Erc | simpl; lia|].
        subst eo. apply LC_no_serial.
  - (* the zone check failed *)
    assert (Hf : (rc =? 0)%Z = false) by (apply Z.eqb_neq; exact Hrc).
    rewrite ?Hself, ?Hf. cbn [andb]. rewrite ?Hself, ?Hf.
    intros H; injection H as <- <-.
    exists zn, rc, []. repeat split; [rewrite <- !app_assoc; reflexivity | exact Erc | simpl; lia|].
    apply LC_zone_failed. exact Hrc.
Qed.

Lemma later_calls_short_circuited w zn p rc evs :
  later_calls w rc evs ->
  short_circuited (Called_check_zone zn p rc :: evs) = true.
Proof. intros H. destruct H; reflexivity. Qed.

Lemma later_calls_after_failure w rc evs :
  later_calls w rc evs -> rc <> 0%Z -> evs = [].
Proof. intros H. destruct H; intros; congruence. Qed.

Lemma pre_commit_loop_ok w call repo :
  forall files e t total t',
    pre_commit_loop w call repo files e t = (Ok total, t') ->
    exists per_file,
      List.length per_file = List.length files
      /\ t' = t +++ trace_of files per_file
      /\ Forall (fun calls => starts_with_check_zone calls = true
                              /\ short_circuited calls = true) per_file
      /\ total = (e + sum (map (fun calls => sum (map ret_of calls)) per_file))%Z.
Proof.
  induction files as [|f files IH]; intros e t total t' H; simpl in H.
  - injection H as <- <-. exists []. repeat split; auto.
    + unfold trace_of. simpl. rewrite app_nil_r. reflexivity.
    + simpl. lia.
  - unfold bind in H.
    destruct (pre_commit_file w call repo f e t) as [[e1| |] t1] eqn:Ef;
      try discriminate.
    apply pre_commit_file_ok in Ef.
    destruct Ef as [zn [rc [evs [Et [_ [Ee Hl]]]]]].
    apply IH in H. destruct H as [per_file [Hlen [Ht' [Hall Htot]]]].
    exists ((Called_check_zone zn (path_join repo f) rc :: evs) :: per_file).
    repeat split.
    + simpl. congruence.
    + rewrite Ht', Et. unfold trace_of. simpl.
      rewrite <- app_assoc. reflexivity.
    + constructor; [|exact Hall]. split; [reflexivity|].
      eapply later_calls_short_circuited; exact Hl.
    + rewrite Htot, Ee. simpl. lia.
Qed.

(** C2.  When the loop of [pre_commit] gets through all the files, the
    calls made for each file stop at the first check that fails (every
    call but the last returned 0), every file of the list has its calls,
    beginning with the external check, and the run ends with a non-zero
    status exactly when the sum of the values returned over all files
    is not 0. *)
Theorem pre_commit_short_circuits_and_sums w call repo files total t' :
  pre_commit_loop w call repo files 0%Z [] = (Ok total, t') ->
  exists per_file,
    List.length per_file = List.length files
    /\ t' = trace_of files per_file
    /\ Forall (fun calls => starts_with_check_zone calls = true
                            /\ short_circuited calls = true) per_file
    /\ total = sum (map (fun calls => sum (map ret_of calls)) per_file)
    /\ pre_commit w call repo files []
       = (if (total =? 0)%Z then Ok tt else Exit 1, t')
    /\ (exit_status (fst (pre_commit w call repo files [])) <> 0%Z
        <-> total <> 0%Z).
Proof.
  intros H. pose proof H as H0. apply pre_commit_loop_ok in H.
  destruct H as [per_file [Hlen [Ht' [Hall Htot]]]].
  exists per_file. repeat split; auto.
  - unfold pre_commit, bind. rewrite H0.
    destruct (total =? 0)%Z; reflexivity.
  - unfold pre_commit, bind. rewrite H0.
    destruct (Z.eqb_spec total 0); simpl; intros; lia.
  - unfold pre_commit, bind. rewrite H0.
    destruct (Z.eqb_spec total 0); simpl; intros; lia.
Qed.

Lemma pre_commit_short_circuits_and_sums_witness :
  pre_commit_loop two_files_world git_hook "/repo"
    ["db.bad"; "db.example.com"] 0%Z []
  = (Ok 1%Z,
     [Checking "db.bad"; Called_check_zone "example.com" "/repo/db.bad" 1;
      Checking "db.example.com";
      Called_check_zone "example.com" "/repo/db.example.com" 0;
      Called_check_serial 2024010100 None 0;
      Called_check_origin ["$ORIGIN example.com."] 0])
  /\ pre_commit two_files_world git_hook "/repo"
       ["db.bad"; "db.example.com"] []
     = (Exit 1,
        [Checking "db.bad"; Called_check_zone "example.com" "/repo/db.bad" 1;
         Checking "db.example.com";
         Called_check_zone "example.com" "/repo/db.example.com" 0;
         Called_check_serial 2024010100 None 0;
         Called_check_origin ["$ORIGIN example.com."] 0]).
Proof.
  assert (H : pre_commit_loop two_files_world git_hook "/repo"
                ["db.bad"; "db.example.com"] 0%Z []
              = (Ok 1%Z,
                 [Checking "db.bad";
                  Called_check_zone "example.com" "/repo/db.bad" 1;
                  Checking "db.example.com";
                  Called_check_zone "example.com" "/repo/db.example.com" 0;
                  Called_check_serial 2024010100 None 0;
                  Called_check_origin ["$ORIGIN example.com."] 0]))
    by (vm_compute; reflexivity).
  split; [exact H|].
  destruct (pre_commit_short_circuits_and_sums _ _ _ _ _ _ H)
    as [per_file [_ [_ [_ [_ [E _]]]]]].
  exact E.
Defined.

(** ** The external check *)

(** C6, as the code has it.  The external check adds the exit status of
    named-checkzone itself to the counter: nothing for status 0, and
    [n] for a status [n] other than 0 (1 only when the tool ends with
    status 1); after a status other than 0 nothing else is added for the
    file. *)
Theorem check_zone_adds_exit_status w call repo f e t e' t' :
  pre_commit_file w call repo f e t = (Ok e', t') ->
  exists zn evs,
    let rc := returncode
                (run w ["named-checkzone"; "-k"; "fail"; zn;
                        path_join repo f]) in
    check_zone w zn (path_join repo f) = Ok rc
    /\ t' = t +++ Checking f :: Called_check_zone zn (path_join repo f) rc
                  :: evs
    /\ e' = (e + rc + sum (map ret_of evs))%Z
    /\ (rc <> 0%Z -> evs = [] /\ e' = (e + rc)%Z).
Proof.
  intros H. apply pre_commit_file_ok in H.
  destruct H as [zn [rc [evs [Et [Erc [Ee Hl]]]]]].
  exists zn, evs. cbv zeta.
  rewrite check_zone_returncode in Erc. injection Erc as Erc.
  rewrite check_zone_returncode, Erc.
  repeat split; auto.
  - apply (later_calls_after_failure _ _ _ Hl). assumption.
  - rewrite Ee, (later_calls_after_failure _ _ _ Hl); [simpl; lia | assumption].
Qed.

Lemma check_zone_adds_exit_status_witness :
  pre_commit_file status_2_world git_hook "/repo" "db.example.com" 0%Z []
  = (Ok 2%Z,
     [Checking "db.example.com";
      Called_check_zone "example.com" "/repo/db.example.com" 2])
  /\ exists zn evs,
      [Checking "db.example.com";
       Called_check_zone "example.com" "/repo/db.example.com" 2]
      = [] +++ Checking "db.example.com"
            :: Called_check_zone zn (path_join "/repo" "db.example.com")
                 (returncode
                    (run status_2_world
                       ["named-checkzone"; "-k"; "fail"; zn;
                        path_join "/repo" "db.example.com"]))
            :: evs.
Proof.
  assert (H : pre_commit_file status_2_world git_hook "/repo"
                "db.example.com" 0%Z []
              = (Ok 2%Z,
                 [Checking "db.example.com";
                  Called_check_zone "example.com" "/repo/db.example.com" 2]))
    by (vm_compute; reflexivity).
  split; [exact H|].
  destruct (check_zone_adds_exit_status _ _ _ _ _ _ _ _ H)
    as [zn [evs [_ [E _]]]].
  exists zn, evs. exact E.
Defined.

(** C6, as stated, fails: an exit status of 2 adds 2 to the counter of
    the file, not 1. *)
Lemma check_zone_status_2_adds_2 :
  returncode
    (run status_2_world
       ["named-checkzone"; "-k"; "fail"; "example.com";
        "/repo/db.example.com"]) = 2%Z
  /\ check_zone status_2_world "example.com" "/repo/db.example.com" = Ok 2%Z
  /\ pre_commit_file status_2_world git_hook "/repo" "db.example.com" 0%Z []
     = (Ok 2%Z,
        [Checking "db.example.com";
         Called_check_zone "example.com" "/repo/db.example.com" 2]).
Proof. repeat split; vm_compute; reflexivity. Qed.

(** ** A new zone with a bad serial *)

(** C7, as the code has it.  In a run on one new zone file: when the
    external check passes and the serial fails its check, the run ends
    with status 1 after the external check and the serial check, and
    the origin check is not run; when the external check fails, the run
    ends with status 1 and neither the serial check nor the origin
    check is run. *)
Theorem bad_serial_skips_origin_check w call repo f data zn :
  get_rev_count w call (Some f) = Ok 0%Z ->
  read_file w call f 0 = Ok data ->
  parse_zone data = Ok zn ->
  (forall s0,
      check_zone w zn (path_join repo f) = Ok 0%Z ->
      parse_serial data = Ok s0 ->
      check_serial (now_Ymd w) s0 None <> 0%Z ->
      pre_commit w call repo [f] []
      = (Exit 1,
         [Checking f; Called_check_zone zn (path_join repo f) 0;
          Called_check_serial s0 None (check_serial (now_Ymd w) s0 None)]))
  /\ (forall rc,
         check_zone w zn (path_join repo f) = Ok rc ->
         rc <> 0%Z ->
         pre_commit w call repo [f] []
         = (Exit 1, [Checking f; Called_check_zone zn (path_join repo f) rc]))
  /\ (forall s0,
         check_zone w zn (path_join repo f) = Ok 0%Z ->
         parse_serial data = Ok s0 ->
         check_serial (now_Ymd w) s0 None = 0%Z ->
         snd (pre_commit w call repo [f] [])
         = [Checking f; Called_check_zone zn (path_join repo f) 0;
            Called_check_serial s0 None 0;
            Called_check_origin (parse_origin data)
              (check_origin (parse_origin data))]).
Proof.
  intros Hrev Hdata Hzn. split; [|split].
  - intros s0 Hrc Hs0 Hbad.
    unfold pre_commit, pre_commit_loop, pre_commit_file, bind, lift, tell, ret.
    rewrite Hrev, Hdata, Hzn, Hrc, Hs0.
    remember (check_serial (now_Ymd w) s0 None) as es.
    replace (0 =? 0 + 0)%Z with true by reflexivity. cbn [andb Z.eqb Z.add].
    cbn [Z.gtb Z.compare andb].
    clear Heqes. destruct es; [congruence | reflexivity | reflexivity].
  - intros rc Hrc Hne.
    unfold pre_commit, pre_commit_loop, pre_commit_file, bind, lift, tell, ret.
    rewrite Hrev, Hdata, Hzn, Hrc. cbn [Z.add].
    destruct rc; [congruence | reflexivity | reflexivity].
  - intros s0 Hrc Hs0 Hgood.
    unfold pre_commit, pre_commit_loop, pre_commit_file, bind, lift, tell, ret.
    rewrite Hrev, Hdata, Hzn, Hrc, Hs0, Hgood.
    cbn [andb Z.eqb Z.add Z.gtb Z.compare].
    destruct (check_origin (parse_origin data)); reflexivity.
Qed.

Lemma bad_serial_skips_origin_check_witness :
  pre_commit serial_42_world git_hook "/repo" ["db.example.com"] []
  = (Exit 1,
     [Checking "db.example.com";
      Called_check_zone "example.com"
        (path_join "/repo" "db.example.com") 0;
      Called_check_serial 42 None
        (check_serial (now_Ymd serial_42_world) 42 None)]).
Proof.
  refine (proj1 (bad_serial_skips_origin_check serial_42_world git_hook
                   "/repo" "db.example.com"
                   (join nl (splitlines (sample_zone "( " "42")))
                   "example.com" _ _ _) 42%Z _ _ _).
  - vm_compute; reflexivity.
  - vm_compute; reflexivity.
  - vm_compute; reflexivity.
  - vm_compute; reflexivity.
  - vm_compute; reflexivity.
  - vm_compute. discriminate.
Defined.

(** C7, as stated, fails: with a passing external check and the
    serial 42 the run ends with status 1 and the origin check has not
    been run. *)
Lemma bad_serial_origin_check_not_run :
  parse_origin (sample_zone "( " "42") = ["$ORIGIN example.com."]
  /\ exit_status
       (fst (pre_commit serial_42_world git_hook "/repo"
               ["db.example.com"] [])) = 1%Z
  /\ snd (pre_commit serial_42_world git_hook "/repo" ["db.example.com"] [])
     = [Checking "db.example.com";
        Called_check_zone "example.com" "/repo/db.example.com" 0;
        Called_check_serial 42 None 1]
  /\ existsb is_check_origin
       (snd (pre_commit serial_42_world git_hook "/repo"
               ["db.example.com"] [])) = false.
Proof. repeat split; vm_compute; reflexivity. Qed.

(** ** Texts that cannot be parsed *)

Lemma pre_commit_loop_app w call repo (pre rest : list string) e t :
  pre_commit_loop w call repo (pre +++ rest) e t
  = bind (pre_commit_loop w call repo pre e)
      (fun e' => pre_commit_loop w call repo rest e') t.
Proof.
  revert e t. induction pre as [|f pre IH]; intros e t; simpl.
  - reflexivity.
  - unfold bind.
    destruct (pre_commit_file w call repo f e t) as [[e1| |] t1];
      try reflexivity.
    rewrite IH. reflexivity.
Qed.

(** When a file makes the loop leave with [sys.exit], the run ends there:
    the files after it leave no trace. *)
Lemma pre_commit_stops_at_exit w call repo pre f rest e t c t1 :
  pre_commit_loop w call repo pre 0%Z [] = (Ok e, t) ->
  pre_commit_file w call repo f e t = (Exit c, t1) ->
  pre_commit w call repo (pre +++ f :: rest) [] = (Exit c, t1).
Proof.
  intros Hpre Hf. unfold pre_commit. unfold bind at 1.
  rewrite pre_commit_loop_app. unfold bind at 1. rewrite Hpre.
  simpl. unfold bind at 1. rewrite Hf. reflexivity.
Qed.

Lemma pre_commit_file_bad_name w call repo f e t rev data :
  get_rev_count w call (Some f) = Ok rev ->
  read_file w call f 0 = Ok data ->
  parse_zone data = Exit 1 ->
  pre_commit_file w call repo f e t = (Exit 1, t +++ [Checking f]).
Proof.
  intros Hrev Hdata Hzn.
  unfold pre_commit_file, bind, lift, tell, ret.
  rewrite Hrev, Hdata, Hzn. reflexivity.
Qed.

Lemma pre_commit_file_bad_serial w call repo f e t rev data zn :
  get_rev_count w call (Some f) = Ok rev ->
  (0 <= rev)%Z ->
  read_file w call f 0 = Ok data ->
  parse_zone data = Ok zn ->
  check_zone w zn (path_join repo f) = Ok 0%Z ->
  parse_serial data = Exit 1 ->
  pre_commit_file w call repo f e t
  = (Exit 1,
     t +++ [Checking f; Called_check_zone zn (path_join repo f) 0]).
Proof.
  intros Hrev Hpos Hdata Hzn Hrc Hs0.
  unfold pre_commit_file, bind, lift, tell, ret.
  rewrite Hrev, Hdata, Hzn, Hrc, Hs0.
  replace (e =? e + 0)%Z with true by (symmetry; apply Z.eqb_eq; lia).
  rewrite <- app_assoc. cbn [andb app].
  destruct (Z.eqb_spec rev 0) as [->|Hne]; [reflexivity|].
  replace (rev >? 0)%Z with true by (symmetry; apply Z.gtb_lt; lia).
  replace (e =? e + 0)%Z with true by (symmetry; apply Z.eqb_eq; lia).
  reflexivity.
Qed.

(** After a failed external check nothing else is done for the file,
    its texts are not parsed for a serial, and the loop goes on. *)
Lemma pre_commit_file_failed_check w call repo f e t rev data zn rc :
  get_rev_count w call (Some f) = Ok rev ->
  read_file w call f 0 = Ok data ->
  parse_zone data = Ok zn ->
  check_zone w zn (path_join repo f) = Ok rc ->
  rc <> 0%Z ->
  pre_commit_file w call repo f e t
  = (Ok (e + rc)%Z,
     t +++ [Checking f; Called_check_zone zn (path_join repo f) rc]).
Proof.
  intros Hrev Hdata Hzn Hrc Hne.
  unfold pre_commit_file, bind, lift, tell, ret.
  rewrite Hrev, Hdata, Hzn, Hrc.
  assert (He : (e =? e + rc)%Z = false) by (apply Z.eqb_neq; lia).
  rewrite He. cbn [andb]. cbv beta iota. rewrite He. cbn [andb].
  cbv beta iota. rewrite He. rewrite <- app_assoc. reflexivity.
Qed.

Lemma pre_commit_goes_on w call repo pre f rest e t e1 t1 :
  pre_commit_loop w call repo pre 0%Z [] = (Ok e, t) ->
  pre_commit_file w call repo f e t = (Ok e1, t1) ->
  pre_commit_loop w call repo (pre +++ f :: rest) 0%Z []
  = pre_commit_loop w call repo rest e1 t1.
Proof.
  intros Hpre Hf. rewrite pre_commit_loop_app. unfold bind at 1.
  rewrite Hpre. simpl. unfold bind at 1. rewrite Hf. reflexivity.
Qed.

Lemma startswith_append (n b : string) : startswith n (n ++ b) = true.
Proof. induction n as [|c n IH]; simpl; [reflexivity|]. rewrite Ascii.eqb_refl, IH. reflexivity. Qed.

Lemma contains_append (n a b : string) : contains n (a ++ n ++ b) = true.
Proof.
  induction a as [|c a IH].
  - simpl append. pose proof (startswith_append n b) as H.
    destruct (n ++ b); simpl; rewrite H; reflexivity.
  - cbn [append contains]. rewrite IH. apply orb_true_r.
Qed.

(** A match of the SOA pattern of [parse_zone] holds the letters [SOA]. *)
Lemma soa_found_contains (data : string) :
  Found (Cat soa_before (Cat name_group soa_after)) data ->
  contains "SOA" data = true.
Proof.
  intros [pre [m [post [E H]]]].
  apply Match_Cat_inv in H. destruct H as [mb [mr [-> [_ H]]]].
  apply Match_Cat_inv in H. destruct H as [mg [ma [-> [_ H]]]].
  unfold soa_after in H. cbn [seq] in H.
  apply Match_Cat_inv in H. destruct H as [w1 [r1 [-> [_ H]]]].
  apply Match_Cat_inv in H. destruct H as [k1 [r2 [-> [_ H]]]].
  apply Match_Cat_inv in H. destruct H as [w2 [r3 [-> [_ H]]]].
  apply Match_lit_inv in H. subst r3.
  rewrite E.
  replace (pre ++ (mb ++ mg ++ w1 ++ k1 ++ w2 ++ "SOA") ++ post)
    with ((pre ++ mb ++ mg ++ w1 ++ k1 ++ w2) ++ "SOA" ++ post)
    by (norm_app; reflexivity).
  apply contains_append.
Qed.

(** A match of the [$ORIGIN] pattern of [parse_zone] holds the keyword. *)
Lemma origin_found_contains (data : string) :
  Found (Cat origin_before (Cat name_group Eps)) data ->
  contains "$ORIGIN" data = true.
Proof.
  intros [pre [m [post [E H]]]].
  apply Match_Cat_inv in H. destruct H as [mb [mr [-> [H _]]]].
  unfold origin_before in H. cbn [seq] in H.
  apply Match_Cat_inv in H. destruct H as [m0 [r0 [-> [_ H]]]].
  apply Match_Cat_inv in H. destruct H as [w1 [r1 [-> [_ H]]]].
  apply Match_Cat_inv in H. destruct H as [k1 [r2 [-> [H1 _]]]].
  apply Match_lit_inv in H1. subst k1.
  rewrite E.
  replace (pre ++ ((m0 ++ w1 ++ "$ORIGIN" ++ r2) ++ mr) ++ post)
    with ((pre ++ m0 ++ w1) ++ "$ORIGIN" ++ (r2 ++ mr ++ post))
    by (norm_app; reflexivity).
  apply contains_append.
Qed.

(** C8, as the code has it.  A text in which nothing matches the SOA
    pattern or the [$ORIGIN] pattern of [parse_zone] (so a text without
    [SOA] and without [$ORIGIN]) makes [parse_zone] leave with
    [sys.exit(1)]: in [pre_commit] the run ends at once with status 1,
    and the files that follow are not touched.  A text in which nothing
    matches the pattern of [parse_serial] makes [parse_serial] leave
    with [sys.exit(1)], and the run ends in the same way when the
    external check of the file ended with status 0 and its count of
    revisions is not negative.  When the external check fails, the
    serial is not parsed, whatever the text: the status is added to the
    counter and the loop goes on with the files that follow. *)
Theorem unparsable_zone_ends_the_run :
  (forall data,
      ~ Found (Cat soa_before (Cat name_group soa_after)) data ->
      ~ Found (Cat origin_before (Cat name_group Eps)) data ->
      parse_zone data = Exit 1)
  /\ (forall data,
         contains "SOA" data = false -> contains "$ORIGIN" data = false ->
         parse_zone data = Exit 1)
  /\ (forall data,
         ~ Found (Cat serial_before (Cat serial_group Eps)) data ->
         parse_serial data = Exit 1)
  /\ (forall w call repo pre f rest e t rev data,
         pre_commit_loop w call repo pre 0%Z [] = (Ok e, t) ->
         get_rev_count w call (Some f) = Ok rev ->
         read_file w call f 0 = Ok data ->
         parse_zone data = Exit 1 ->
         pre_commit w call repo (pre +++ f :: rest) []
         = (Exit 1, t +++ [Checking f]))
  /\ (forall w call repo pre f rest e t rev data zn,
         pre_commit_loop w call repo pre 0%Z [] = (Ok e, t) ->
         get_rev_count w call (Some f) = Ok rev ->
         (0 <= rev)%Z ->
         read_file w call f 0 = Ok data ->
         parse_zone data = Ok zn ->
         check_zone w zn (path_join repo f) = Ok 0%Z ->
         parse_serial data = Exit 1 ->
         pre_commit w call repo (pre +++ f :: rest) []
         = (Exit 1,
            t +++ [Checking f; Called_check_zone zn (path_join repo f) 0]))
  /\ (forall w call repo pre f rest e t rev data zn rc,
         pre_commit_loop w call repo pre 0%Z [] = (Ok e, t) ->
         get_rev_count w call (Some f) = Ok rev ->
         read_file w call f 0 = Ok data ->
         parse_zone data = Ok zn ->
         check_zone w zn (path_join repo f) = Ok rc ->
         rc <> 0%Z ->
         pre_commit_loop w call repo (pre +++ f :: rest) 0%Z []
         = pre_commit_loop w call repo rest (e + rc)%Z
             (t +++ [Checking f;
                     Called_check_zone zn (path_join repo f) rc])).
Proof.
  assert (Hname : forall data,
             ~ Found (Cat soa_before (Cat name_group soa_after)) data ->
             ~ Found (Cat origin_before (Cat name_group Eps)) data ->
             parse_zone data = Exit 1).
  { intros data Hsoa Horigin. unfold parse_zone.
    apply search_group_none_iff in Hsoa. rewrite Hsoa.
    apply search_group_none_iff in Horigin. rewrite Horigin. reflexivity. }
  split; [exact Hname|]. split; [|split; [|split; [|split]]].
  - intros data Hsoa Horigin. apply Hname; intros H.
    + apply soa_found_contains in H. congruence.
    + apply origin_found_contains in H. congruence.
  - intros data Hserial. unfold parse_serial.
    apply search_group_none_iff in Hserial. rewrite Hserial. reflexivity.
  - intros w call repo pre f rest e t rev data Hpre Hrev Hdata Hzn.
    eapply pre_commit_stops_at_exit; [exact Hpre|].
    eapply pre_commit_file_bad_name; eassumption.
  - intros w call repo pre f rest e t rev data zn
      Hpre Hrev Hpos Hdata Hzn Hrc Hs0.
    eapply pre_commit_stops_at_exit; [exact Hpre|].
    eapply pre_commit_file_bad_serial; eassumption.
  - intros w call repo pre f rest e t rev data zn rc
      Hpre Hrev Hdata Hzn Hrc Hne.
    eapply pre_commit_goes_on; [exact Hpre|].
    eapply pre_commit_file_failed_check; eassumption.
Qed.

Lemma unparsable_zone_ends_the_run_witness :
  parse_zone "; nothing here" = Exit 1
  /\ pre_commit no_zone_world git_hook "/repo"
       ([] +++ "db.example.com" :: ["db.other"]) []
     = (Exit 1, [] +++ [Checking "db.example.com"])
  /\ parse_serial (join nl (splitlines (sample_zone "(" "2024010100")))
     = Exit 1
  /\ pre_commit tight_paren_world git_hook "/repo"
       ([] +++ "db.example.com" :: ["db.other"]) []
     = (Exit 1,
        [] +++ [Checking "db.example.com";
                Called_check_zone "example.com"
                  (path_join "/repo" "db.example.com") 0])
  /\ pre_commit_loop (failed_check_world no_soa_zone) git_hook "/repo"
       ([] +++ "db.bad" :: ["db.example.com"]) 0%Z []
     = pre_commit_loop (failed_check_world no_soa_zone) git_hook "/repo"
         ["db.example.com"] (0 + 1)%Z
         ([] +++ [Checking "db.bad";
                  Called_check_zone "example.com"
                    (path_join "/repo" "db.bad") 1]).
Proof.
  destruct unparsable_zone_ends_the_run
    as [_ [Hname [Hserial [Hrun_name [Hrun_serial Hgoes_on]]]]].
  assert (H1 : parse_zone "; nothing here" = Exit 1)
    by (apply Hname; vm_compute; reflexivity).
  assert (H2 : parse_serial
                 (join nl (splitlines (sample_zone "(" "2024010100")))
               = Exit 1).
  { apply Hserial. apply search_group_none_iff. vm_compute. reflexivity. }
  split; [exact H1|]. split; [|split; [exact H2|split]].
  - apply (Hrun_name no_zone_world git_hook "/repo" [] "db.example.com"
             ["db.other"] 0%Z [] 0%Z "; nothing here");
      first [exact H1 | vm_compute; reflexivity].
  - apply (Hrun_serial tight_paren_world git_hook "/repo" []
             "db.example.com" ["db.other"] 0%Z [] 0%Z
             (join nl (splitlines (sample_zone "(" "2024010100")))
             "example.com");
      first [exact H2 | vm_compute; reflexivity | vm_compute; discriminate].
  - apply (Hgoes_on (failed_check_world no_soa_zone) git_hook "/repo" []
             "db.bad" ["db.example.com"] 0%Z [] 0%Z
             (join nl (splitlines no_soa_zone)) "example.com" 1%Z);
      first [vm_compute; reflexivity | discriminate].
Defined.

(** C8, as stated, fails for the serial: the text of [db.bad] has a
    [$ORIGIN] line and no SOA record, so [parse_serial] would leave
    with [sys.exit(1)] on it; named-checkzone ends with status 1 for
    the file, so the serial is never parsed, the file that follows is
    checked in full, and the run ends with status 1 only after it. *)
Lemma failed_check_hides_missing_serial :
  parse_zone (join nl (splitlines no_soa_zone)) = Ok "example.com"
  /\ parse_serial (join nl (splitlines no_soa_zone)) = Exit 1
  /\ pre_commit (failed_check_world no_soa_zone) git_hook "/repo"
       ["db.bad"; "db.example.com"] []
     = (Exit 1,
        [Checking "db.bad";
         Called_check_zone "example.com" "/repo/db.bad" 1;
         Checking "db.example.com";
         Called_check_zone "example.com" "/repo/db.example.com" 0;
         Called_check_serial 2024010100 None 0;
         Called_check_origin ["$ORIGIN example.com."] 0]).
Proof. repeat split; vm_compute; reflexivity. Qed.

(** ** White space after the parenthesis of the SOA record *)

Lemma first_paren_spaced_skip (a b : string) :
  all_chars (fun c => negb (is_open_paren c)) a = true ->
  first_paren_spaced (a ++ b) = first_paren_spaced b.
Proof.
  induction a as [|x a IH]; simpl; [reflexivity|].
  intros H. apply andb_prop in H. destruct H as [Hx Ha].
  apply negb_true_iff in Hx. rewrite Hx. auto.
Qed.

Lemma soa_paren_spaced_append (a b : string) :
  soa_paren_spaced b = true -> soa_paren_spaced (a ++ b) = true.
Proof.
  intros H. induction a as [|x a IH]; [exact H|].
  cbn [append soa_paren_spaced]. rewrite IH. apply orb_true_r.
Qed.

Lemma soa_paren_spaced_head (b : string) :
  first_paren_spaced b = true -> soa_paren_spaced ("SOA" ++ b) = true.
Proof. intros H. simpl. rewrite H. reflexivity. Qed.

Lemma space_no_paren (s : string) :
  all_chars is_space s = true ->
  all_chars (fun c => negb (is_open_paren c)) s = true.
Proof.
  apply all_chars_weaken. intros c H.
  destruct (is_open_paren c) eqn:E; [|reflexivity].
  apply Ascii.eqb_eq in E. subst c. discriminate.
Qed.

Lemma name_no_paren (s : string) :
  all_chars name_char s = true ->
  all_chars (fun c => negb (is_open_paren c)) s = true.
Proof.
  apply all_chars_weaken. intros c H.
  destruct (is_open_paren c) eqn:E; [|reflexivity].
  apply Ascii.eqb_eq in E. subst c. discriminate.
Qed.

Lemma Match_Plus_Sym_all p prev m post :
  Match (Plus (Sym p)) prev m post -> all_chars p m = true.
Proof.
  intros H. apply Match_Plus_Sym_inv in H.
  destruct H as [c [m' [-> [Hc Hm]]]]. simpl. rewrite Hc, Hm. reflexivity.
Qed.

(** A match of the pattern of [parse_serial] has white space right after
    its parenthesis, the first one after [SOA]. *)
Lemma serial_found_soa_paren_spaced (data : string) :
  Found (Cat serial_before (Cat serial_group Eps)) data ->
  soa_paren_spaced data = true.
Proof.
  intros [pre [m [post [E H]]]].
  unfold serial_before in H. cbn [seq] in H.
  apply Match_Cat_inv in H. destruct H as [mb [mg [-> [H _]]]].
  apply Match_Cat_inv in H. destruct H as [k1 [r1 [-> [H1 H]]]].
  apply Match_lit_inv in H1. subst k1.
  apply Match_Cat_inv in H. destruct H as [w1 [r2 [-> [_ H]]]].
  apply Match_Cat_inv in H. destruct H as [k2 [r3 [-> [H2 H]]]].
  apply Match_lit_inv in H2. subst k2.
  apply Match_Cat_inv in H. destruct H as [w2 [r4 [-> [Hw2 H]]]].
  apply Match_Plus_Sym_all, space_no_paren in Hw2.
  apply Match_Cat_inv in H. destruct H as [n1 [r5 [-> [Hn1 H]]]].
  apply Match_Plus_Sym_all, name_no_paren in Hn1.
  apply Match_Cat_inv in H. destruct H as [w3 [r6 [-> [Hw3 H]]]].
  apply Match_Plus_Sym_all, space_no_paren in Hw3.
  apply Match_Cat_inv in H. destruct H as [n2 [r7 [-> [Hn2 H]]]].
  apply Match_Plus_Sym_all, name_no_paren in Hn2.
  apply Match_Cat_inv in H. destruct H as [w4 [r8 [-> [Hw4 H]]]].
  apply Match_Plus_Sym_all, space_no_paren in Hw4.
  apply Match_Cat_inv in H. destruct H as [p [w5 [-> [H3 H]]]].
  apply Match_Sym_inv in H3. destruct H3 as [c [-> Hc]].
  apply Ascii.eqb_eq in Hc. subst c.
  apply Match_Plus_Sym_inv in H. destruct H as [c [w5' [-> [Hc _]]]].
  rewrite E.
  replace (pre ++ (("IN" ++ w1 ++ "SOA" ++ w2 ++ n1 ++ w3 ++ n2 ++ w4 ++ "(" ++ String c w5') ++ mg) ++ post)
    with ((pre ++ "IN" ++ w1) ++ "SOA" ++ w2 ++ n1 ++ w3 ++ n2 ++ w4 ++ "(" ++ String c (w5' ++ mg ++ post))
    by (norm_app; reflexivity).
  apply soa_paren_spaced_append.
  apply soa_paren_spaced_head.
  rewrite !first_paren_spaced_skip by assumption.
  simpl. rewrite Hc. reflexivity.
Qed.

(** C10, as the code has it.  [parse_serial] needs white space
    between the parenthesis of the SOA record and the serial.  A text
    in which no [SOA] has white space behind the first parenthesis that
    follows it does not match the pattern, whatever numbers it holds:
    [parse_serial] leaves with [sys.exit(1)], and in [pre_commit] the
    run ends there with status 1 when the external check of the file
    ended with status 0 and its count of revisions is not negative.
    When the external check fails, the serial is not parsed and the
    loop goes on with the files that follow. *)
Theorem parse_serial_needs_space_after_paren (data : string) :
  soa_paren_spaced data = false ->
  parse_serial data = Exit 1
  /\ (forall w call repo pre f rest e t rev zn,
         pre_commit_loop w call repo pre 0%Z [] = (Ok e, t) ->
         get_rev_count w call (Some f) = Ok rev ->
         (0 <= rev)%Z ->
         read_file w call f 0 = Ok data ->
         parse_zone data = Ok zn ->
         check_zone w zn (path_join repo f) = Ok 0%Z ->
         pre_commit w call repo (pre +++ f :: rest) []
         = (Exit 1,
            t +++ [Checking f; Called_check_zone zn (path_join repo f) 0]))
  /\ (forall w call repo pre f rest e t rev zn rc,
         pre_commit_loop w call repo pre 0%Z [] = (Ok e, t) ->
         get_rev_count w call (Some f) = Ok rev ->
         read_file w call f 0 = Ok data ->
         parse_zone data = Ok zn ->
         check_zone w zn (path_join repo f) = Ok rc ->
         rc <> 0%Z ->
         pre_commit_loop w call repo (pre +++ f :: rest) 0%Z []
         = pre_commit_loop w call repo rest (e + rc)%Z
             (t +++ [Checking f;
                     Called_check_zone zn (path_join repo f) rc])).
Proof.
  intros Hp.
  assert (Hs : parse_serial data = Exit 1).
  { unfold parse_serial.
    destruct (search_group serial_before serial_group Eps data) as [g|] eqn:E;
      [|reflexivity].
    exfalso.
    assert (Hf : Found (Cat serial_before (Cat serial_group Eps)) data).
    { destruct (search_dec (Cat serial_before (Cat serial_group Eps)) data)
        as [Hf|Hf]; [exact Hf|].
      apply search_group_none_iff in Hf. congruence. }
    apply serial_found_soa_paren_spaced in Hf. congruence. }
  split; [exact Hs|]. split.
  - intros w call repo pre f rest e t rev zn Hpre Hrev Hpos Hdata Hzn Hrc.
    eapply pre_commit_stops_at_exit; [exact Hpre|].
    eapply pre_commit_file_bad_serial; eassumption.
  - intros w call repo pre f rest e t rev zn rc
      Hpre Hrev Hdata Hzn Hrc Hne.
    eapply pre_commit_goes_on; [exact Hpre|].
    eapply pre_commit_file_failed_check; eassumption.
Qed.

Lemma parse_serial_needs_space_after_paren_witness :
  parse_serial (join nl (splitlines (sample_zone "( " "2024010100")))
  = Ok 2024010100%Z
  /\ parse_serial (join nl (splitlines (sample_zone "(" "2024010100")))
     = Exit 1
  /\ pre_commit tight_paren_world git_hook "/repo"
       ([] +++ "db.example.com" :: ["db.other"]) []
     = (Exit 1,
        [] +++ [Checking "db.example.com";
                Called_check_zone "example.com"
                  (path_join "/repo" "db.example.com") 0]).
Proof.
  split; [vm_compute; reflexivity|].
  assert (Hp : soa_paren_spaced
                 (join nl (splitlines (sample_zone "(" "2024010100")))
               = false) by (vm_compute; reflexivity).
  destruct (parse_serial_needs_space_after_paren _ Hp) as [Hs [Hrun _]].
  split; [exact Hs|].
  apply (Hrun tight_paren_world git_hook "/repo" [] "db.example.com"
           ["db.other"] 0%Z [] 0%Z "example.com");
    try (vm_compute; reflexivity).
  vm_compute. discriminate.
Defined.

(** C10, as stated, fails twice.  In [commented_zone] the serial of the
    SOA record follows the parenthesis at once, and a comment before
    the record holds [IN SOA a b ( 7]: parsing does not fail, it
    returns 7.  And a file whose serial follows the parenthesis at once
    does not end the run when named-checkzone fails for it: the file
    that follows is checked in full. *)
Lemma tight_paren_does_not_always_abort :
  contains "(2024010100" commented_zone = true
  /\ parse_serial (join nl (splitlines commented_zone)) = Ok 7%Z
  /\ parse_serial (join nl (splitlines (sample_zone "(" "2024010100")))
     = Exit 1
  /\ pre_commit (failed_check_world (sample_zone "(" "2024010100"))
       git_hook "/repo" ["db.bad"; "db.example.com"] []
     = (Exit 1,
        [Checking "db.bad";
         Called_check_zone "example.com" "/repo/db.bad" 1;
         Checking "db.example.com";
         Called_check_zone "example.com" "/repo/db.example.com" 0;
         Called_check_serial 2024010100 None 0;
         Called_check_origin ["$ORIGIN example.com."] 0]).
Proof. repeat split; vm_compute; reflexivity. Qed.

(** ** The listings *)

Lemma list_remove_length (x : string) (l : list string) :
  (List.length (list_remove x l) <= List.length l)%nat.
Proof.
  induction l as [|y l IH]; simpl; [lia|].
  destruct (y =? x); simpl; lia.
Qed.

Lemma list_remove_other (x y : string) (l : list string) :
  x <> y -> In x l -> In x (list_remove y l).
Proof.
  intros Hne. induction l as [|z l IH]; simpl; [tauto|].
  destruct (String.eqb_spec z y) as [->|Hz].
  - intros [E|H]; [congruence | exact H].
  - intros [E|H]; [left; exact E | right; auto].
Qed.

(** The loop has ended when the fuel is spent: more fuel changes nothing. *)
Lemma remove_loop_ends :
  forall fuel i l fuel',
    (List.length l <= fuel + i)%nat -> (fuel <= fuel')%nat ->
    remove_loop fuel' i l = remove_loop fuel i l.
Proof.
  induction fuel as [|fuel IH]; intros i l fuel' Hlen Hle.
  - assert (E : nth_error l i = None) by (apply nth_error_None; lia).
    destruct fuel'; simpl; [reflexivity | rewrite E; reflexivity].
  - destruct fuel' as [|fuel']; [lia|]. simpl.
    destruct (nth_error l i) as [item|]; [|reflexivity].
    destruct (is_zonefile item).
    + apply IH; lia.
    + apply IH; [|lia]. pose proof (list_remove_length item l). lia.
Qed.

(** The loop never drops a path that matches the pattern. *)
Lemma remove_loop_keeps (x : string) :
  is_zonefile x = true ->
  forall fuel i l, In x l -> In x (remove_loop fuel i l).
Proof.
  intros Hx. induction fuel as [|fuel IH]; intros i l Hin; simpl; [exact Hin|].
  destruct (nth_error l i) as [item|]; [|exact Hin].
  destruct (is_zonefile item) eqn:Hitem.
  - apply IH. exact Hin.
  - apply IH. apply list_remove_other; [congruence | exact Hin].
Qed.

Lemma Match_ext_inv ext prev m post :
  Match (Cat (lit ext) (Eol false)) prev m post ->
  m = ext /\ (post = "" \/ post = String newline "").
Proof.
  intros H. apply Match_Cat_inv in H. destruct H as [m1 [m2 [-> [H1 H2]]]].
  apply Match_lit_inv in H1. apply Match_Eol_inv in H2.
  destruct H2 as [-> He]. apply at_eol_false_inv in He.
  subst. rewrite append_nil_r. auto.
Qed.

Lemma Match_ext ext prev post :
  post = "" \/ post = String newline "" ->
  Match (Cat (lit ext) (Eol false)) prev ext post.
Proof.
  intros He. rewrite <- (append_nil_r ext) at 2.
  apply MCat; [apply Match_lit|]. constructor.
  destruct He as [->| ->]; reflexivity.
Qed.

(** The pattern of the listings says what the convention says. *)
Lemma is_zonefile_iff (item : string) :
  is_zonefile item = true <-> zone_name_shape (basename item).
Proof.
  unfold is_zonefile. generalize (basename item) as b. intros b.
  assert (E : (match search zonefile_pattern b with
               | Some _ => true | None => false end) = true
              <-> Found zonefile_pattern b).
  { rewrite <- search_some_iff. destruct (search zonefile_pattern b).
    - split; eauto.
    - split; [discriminate | intros [t H]; discriminate]. }
  rewrite E. unfold zonefile_pattern, zone_name_shape. split.
  - intros [pre [m [post [Eb H]]]].
    apply Match_Alt_inv in H. destruct H as [H|H].
    { left. apply Match_Cat_inv in H. destruct H as [m1 [m2 [-> [H1 H2]]]].
      apply Match_Bol_inv in H1. destruct H1 as [-> Hb].
      apply at_bol_false_inv in Hb. apply Match_lit_inv in H2. subst.
      exists post. reflexivity. }
    right.
    repeat (apply Match_Alt_inv in H; destruct H as [H|H]);
      apply Match_ext_inv in H; destruct H as [-> He];
      exists pre; eexists; exists post; (split; [exact Eb|]);
      (split; [simpl; tauto | exact He]).
  - intros [[t ->]|[t [ext [eol [-> [Hin He]]]]]].
    + exists "", "db.", t. split; [reflexivity|].
      apply MAltL. change "db." with ("" ++ "db.").
      apply MCat; [constructor; reflexivity | apply Match_lit].
    + exists t, ext, eol. split; [reflexivity|].
      apply MAltR. simpl in Hin.
      destruct Hin as [<-|[<-|[<-|[<-|[]]]]].
      * apply MAltL. apply Match_ext. exact He.
      * apply MAltR, MAltL. apply Match_ext. exact He.
      * apply MAltR, MAltR, MAltL. apply Match_ext. exact He.
      * apply MAltR, MAltR, MAltR. apply Match_ext. exact He.
Qed.

(** C3, on the code.  [git ls-files] prints [a.txt], [b.txt] and
    [db.example.com]: the list that [get_all_zonefiles] (and
    [get_changed_zonefiles], from the same output of [git diff]) returns
    still holds [b.txt], whose name does not match the pattern.
    Removing [a.txt] moves [b.txt] under the index that the loop has
    just left. *)
Theorem zonefiles_of_keeps_a_stranger :
  zonefiles_of ("a.txt" ++ nl ++ "b.txt" ++ nl ++ "db.example.com" ++ nl)
  = ["b.txt"; "db.example.com"]
  /\ is_zonefile "b.txt" = false
  /\ filter is_zonefile ["a.txt"; "b.txt"; "db.example.com"]
     = ["db.example.com"]
  /\ get_all_zonefiles
       (sample_world "/repo/.git/hooks/pre-commit" (fun _ => completed "")
          (fun _ => 0%Z) no_history
          ("a.txt" ++ nl ++ "b.txt" ++ nl ++ "db.example.com" ++ nl))
     = Ok ["b.txt"; "db.example.com"]
  /\ zonefiles_of
       ("db.example.com" ++ nl ++ "notes.txt" ++ nl ++ "zones/foo.zone" ++ nl)
     = ["db.example.com"; "zones/foo.zone"].
Proof. repeat split; vm_compute; reflexivity. Qed.

(** ** The choice of the files in [main] *)

Lemma get_rev_count_failed w call zonefile :
  let cmd := ["git"; "rev-list"; "--count"; "HEAD"]
             +++ match zonefile with
                 | Some f => if truthy f then ["--"; f] else []
                 | None => []
                 end in
  returncode (run w cmd) <> 0%Z -> get_rev_count w call zonefile = Ok 0%Z.
Proof.
  cbv zeta. intros H. unfold get_rev_count, exec_cmd. cbv zeta.
  apply Z.eqb_neq in H. rewrite H. reflexivity.
Qed.

Lemma get_rev_count_counted w call zonefile n :
  let cmd := ["git"; "rev-list"; "--count"; "HEAD"]
             +++ match zonefile with
                 | Some f => if truthy f then ["--"; f] else []
                 | None => []
                 end in
  returncode (run w cmd) = 0%Z ->
  py_int (stdout (run w cmd)) = Some n ->
  get_rev_count w call zonefile
  = Ok (match call with git_hook => n | ci_cd => n - 1 end)%Z.
Proof.
  cbv zeta. intros H E. unfold get_rev_count, exec_cmd. cbv zeta.
  rewrite H. change (0 =? 0)%Z with true. cbv iota.
  rewrite E. destruct call; reflexivity.
Qed.

(** C9.  When the count of revisions of the whole repository comes out
    as 0, [main] hands the list of [get_all_zonefiles] to [pre_commit],
    and nothing of [git diff] is looked at.  The count is 0 when the
    command that counts fails, and in pipeline mode when it prints 1.
    The list holds every path printed by [git ls-files] whose name
    matches the pattern. *)
Theorem main_takes_all_files_without_history (w : world) :
  let count := run w ["git"; "rev-list"; "--count"; "HEAD"] in
  (returncode count <> 0%Z -> get_rev_count w (init w) None = Ok 0%Z)
  /\ (init w = ci_cd -> returncode count = 0%Z ->
      py_int (stdout count) = Some 1%Z ->
      get_rev_count w (init w) None = Ok 0%Z)
  /\ (get_rev_count w (init w) None = Ok 0%Z ->
      forall t,
        main w t
        = (repo_path <- lift (get_repo_path w) ;;
           file_list <- lift (get_all_zonefiles w) ;;
           pre_commit w (init w) repo_path file_list) t)
  /\ (forall file_list item,
         get_all_zonefiles w = Ok file_list ->
         In item
           (filter truthy
              (str_split newline (stdout (run w ["git"; "ls-files"])))) ->
         is_zonefile item = true ->
         In item file_list).
Proof.
  cbv zeta. split; [|split; [|split]].
  - intros H. apply (get_rev_count_failed w (init w) None). exact H.
  - intros Hci H E.
    rewrite (get_rev_count_counted w (init w) None 1%Z H E), Hci. reflexivity.
  - intros H t. unfold main, bind, lift, ret. rewrite H.
    destruct (get_repo_path w) as [repo| |]; try reflexivity.
    cbn [Z.eqb Z.gtb Z.compare].
    destruct (get_all_zonefiles w) as [fl| |]; reflexivity.
  - intros file_list item Hfl Hin Hz.
    unfold get_all_zonefiles in Hfl.
    destruct (exec_cmd w ["git"; "ls-files"]) as [r| |] eqn:E; try discriminate.
    injection Hfl as <-.
    assert (Er : r = run w ["git"; "ls-files"]).
    { unfold exec_cmd in E.
      destruct (returncode (run w ["git"; "ls-files"]) =? 0)%Z;
        [injection E as <-; reflexivity | discriminate]. }
    subst r. unfold zonefiles_of. apply remove_loop_keeps; assumption.
Qed.

Lemma main_takes_all_files_without_history_witness :
  init one_commit_world = ci_cd
  /\ get_rev_count one_commit_world (init one_commit_world) None = Ok 0%Z
  /\ get_all_zonefiles one_commit_world = Ok ["db.example.com"]
  /\ main one_commit_world []
     = (repo_path <- lift (get_repo_path one_commit_world) ;;
        file_list <- lift (get_all_zonefiles one_commit_world) ;;
        pre_commit one_commit_world (init one_commit_world)
          repo_path file_list) [].
Proof.
  destruct (main_takes_all_files_without_history one_commit_world)
    as [_ [Hone [Hmain _]]].
  assert (Hci : init one_commit_world = ci_cd) by (vm_compute; reflexivity).
  assert (H0 : get_rev_count one_commit_world (init one_commit_world) None
               = Ok 0%Z).
  { apply Hone; vm_compute; reflexivity. }
  split; [exact Hci|]. split; [exact H0|].
  split; [vm_compute; reflexivity|].
  apply Hmain. exact H0.
Defined.

(* ================================================================= *)
(** * More about the script *)

Lemma takewhile_dropwhile p s : s = takewhile p s ++ dropwhile p s.
Proof. induction s as [|c s IH]; simpl; [reflexivity|]. destruct (p c); simpl; congruence. Qed.

Lemma takewhile_all p s : all_chars p (takewhile p s) = true.
Proof. induction s as [|c s IH]; simpl; [reflexivity|]. destruct (p c) eqn:E; simpl; [rewrite E; exact IH | reflexivity]. Qed.

Lemma dropwhile_stops p s : stops p (dropwhile p s) = true.
Proof. induction s as [|c s IH]; simpl; [reflexivity|]. destruct (p c) eqn:E; simpl; [exact IH | rewrite E; reflexivity]. Qed.

Lemma takewhile_app p m rest :
  all_chars p m = true -> stops p rest = true -> takewhile p (m ++ rest) = m.
Proof.
  intros Hm Hr. induction m as [|c m IH]; simpl in *.
  - destruct rest as [|d rest]; [reflexivity|]. simpl in *.
    apply negb_true_iff in Hr. rewrite Hr. reflexivity.
  - apply andb_prop in Hm. destruct Hm as [Hc Hm]. rewrite Hc, IH; auto.
Qed.

Lemma dropwhile_app p m rest :
  all_chars p m = true -> stops p rest = true -> dropwhile p (m ++ rest) = rest.
Proof.
  intros Hm Hr. induction m as [|c m IH]; simpl in *.
  - destruct rest as [|d rest]; [reflexivity|]. simpl in *.
    apply negb_true_iff in Hr. rewrite Hr. reflexivity.
  - apply andb_prop in Hm. destruct Hm as [Hc Hm]. rewrite Hc, IH; auto.
Qed.

(** ** The first end the matcher tries *)

Lemma flat_map_head {A B : Type} (f : A -> list B) x xs y ys :
  f x = y :: ys -> exists l, flat_map f (x :: xs) = y :: l.
Proof. intros E. simpl. rewrite E. simpl. eauto. Qed.

(** A greedy run of one class of characters ends first behind the
    longest run. *)
Lemma star_sym_head (p : ascii -> bool) :
  forall m n prev rest,
    all_chars p m = true -> stops p rest = true ->
    (String.length (m ++ rest) <= n)%nat ->
    exists l,
      star_ends (ends (Sym p)) n prev (m ++ rest) = (lastc prev m, rest) :: l.
Proof.
  induction m as [|c m IH]; intros n prev rest Hm Hr Hn.
  - simpl append. destruct n as [|n]; simpl; [eauto|].
    destruct rest as [|d rest]; simpl; [eauto|].
    simpl in Hr. apply negb_true_iff in Hr. rewrite Hr. simpl. eauto.
  - simpl in Hm. apply andb_prop in Hm. destruct Hm as [Hc Hm].
    destruct n as [|n]; [simpl in Hn; lia|].
    cbn [append star_ends ends]. rewrite Hc.
    cbn [flat_map fst snd app].
    replace (String.length (m ++ rest) <? String.length (String c (m ++ rest)))%nat
      with true by (symmetry; apply Nat.ltb_lt; simpl; lia).
    destruct (IH n (Some c) rest Hm Hr) as [l E]; [simpl in Hn; lia|].
    cbn [ends] in E. rewrite E. simpl. eauto.
Qed.

Lemma ends_star_sym_head p prev s :
  exists l,
    ends (Star (Sym p)) prev s
    = (lastc prev (takewhile p s), dropwhile p s) :: l.
Proof.
  cbn [ends].
  pose proof (star_sym_head p (takewhile p s) (String.length s) prev
                (dropwhile p s) (takewhile_all p s) (dropwhile_stops p s))
    as H.
  rewrite <- takewhile_dropwhile in H. apply H. lia.
Qed.

Lemma ends_plus_sym p prev s :
  ends (Plus (Sym p)) prev s
  = match s with
    | String c s' => if p c then ends (Star (Sym p)) (Some c) s' else []
    | EmptyString => []
    end.
Proof.
  unfold Plus. cbn [ends]. destruct s as [|c s']; [reflexivity|].
  destruct (p c); simpl; [apply app_nil_r | reflexivity].
Qed.

Lemma first_some_head {A B : Type} (f : A -> option B) x l y :
  f x = Some y -> first_some f (x :: l) = Some y.
Proof. intros E. simpl. rewrite E. reflexivity. Qed.

(** With nothing behind the group, the group is the first match of its
    pattern at the first place where the text before it ends. *)
Lemma group_at_last_some (pre grp : re) prev rest g :
  group_at pre grp Eps prev rest = Some g ->
  exists q1 q2 l,
    In q1 (ends pre prev rest)
    /\ ends grp (fst q1) (snd q1) = q2 :: l
    /\ g = consumed (snd q1) (snd q2).
Proof.
  unfold group_at. intros H.
  apply first_some_some in H. destruct H as [q1 [H1 H]].
  destruct (ends grp (fst q1) (snd q1)) as [|q2 l] eqn:E; [discriminate|].
  simpl in H. injection H as <-. exists q1, q2, l. auto.
Qed.

Lemma search_group_at_last_some (pre grp : re) :
  forall rest prev g,
    search_group_at pre grp Eps prev rest = Some g ->
    exists a p q1 q2 l,
      rest = a ++ p
      /\ In q1 (ends pre (lastc prev a) p)
      /\ ends grp (fst q1) (snd q1) = q2 :: l
      /\ g = consumed (snd q1) (snd q2).
Proof.
  induction rest as [|c rest IH]; intros prev g H; cbn [search_group_at] in H.
  - destruct (group_at pre grp Eps prev "") eqn:E; [|discriminate].
    injection H as ->. apply group_at_last_some in E.
    destruct E as [q1 [q2 [l E]]]. exists "", "", q1, q2, l. auto.
  - destruct (group_at pre grp Eps prev (String c rest)) eqn:E.
    + injection H as ->. apply group_at_last_some in E.
      destruct E as [q1 [q2 [l E]]]. exists "", (String c rest), q1, q2, l. auto.
    + apply IH in H. destruct H as [a [p [q1 [q2 [l [E' H]]]]]].
      exists (String c a), p, q1, q2, l. simpl. rewrite E'. auto.
Qed.

(** ** Numbers and stripping *)

Lemma digit_not_space (c : ascii) : is_digit c = true -> is_space c = false.
Proof.
  destruct c as [[] [] [] [] [] [] [] []]; intros H;
    try reflexivity; discriminate H.
Qed.

Lemma lstrip_keeps p c s : p c = false -> lstrip p (String c s) = String c s.
Proof. intros H. simpl. rewrite H. reflexivity. Qed.

Lemma rstrip_cons p c s :
  p c = false -> rstrip p (String c s) = String c (rstrip p s).
Proof. intros H. simpl. rewrite H. destruct (rstrip p s); reflexivity. Qed.

Lemma rstrip_none p s :
  all_chars (fun c => negb (p c)) s = true -> rstrip p s = s.
Proof.
  induction s as [|c s IH]; [reflexivity|]. simpl all_chars.
  intros H. apply andb_prop in H. destruct H as [Hc Hs].
  apply negb_true_iff in Hc. rewrite rstrip_cons, IH; auto.
Qed.

Lemma int_space_is_space (c : ascii) :
  is_int_space c = true -> is_space c = true.
Proof.
  destruct c as [[] [] [] [] [] [] [] []]; intros H;
    try reflexivity; discriminate H.
Qed.

Lemma digit_not_int_space (c : ascii) :
  is_digit c = true -> is_int_space c = false.
Proof.
  intros H. destruct (is_int_space c) eqn:E; [|reflexivity].
  apply int_space_is_space in E. rewrite (digit_not_space c H) in E.
  discriminate.
Qed.

Lemma digits_strip (g : string) :
  all_chars is_digit g = true -> strip is_int_space g = g.
Proof.
  intros H. unfold strip.
  rewrite rstrip_none.
  - destruct g as [|c g]; [reflexivity|]. simpl in H.
    apply andb_prop in H. destruct H as [Hc _].
    apply lstrip_keeps, digit_not_int_space, Hc.
  - revert H. apply all_chars_weaken. intros c Hc.
    rewrite (digit_not_int_space c Hc). reflexivity.
Qed.

Lemma count_digits_all (g : string) :
  all_chars is_digit g = true -> count_digits g = String.length g.
Proof.
  induction g as [|c g IH]; [reflexivity|]. simpl. intros H.
  apply andb_prop in H. destruct H as [Hc Hg]. rewrite Hc, (IH Hg).
  reflexivity.
Qed.

(** [int] of a text of digits: the sign cases do not apply, and what
    is left is the limit on the number of digits. *)
Lemma py_int_of_digits (g : string) :
  all_chars is_digit g = true ->
  py_int g
  = if (String.length g <=? int_max_str_digits)%nat
    then digits_val 0 false g else None.
Proof.
  intros Hg. unfold py_int. rewrite (digits_strip g Hg).
  destruct g as [|c g]; [reflexivity|].
  rewrite <- (count_digits_all _ Hg).
  simpl in Hg. apply andb_prop in Hg. destruct Hg as [Hc _].
  destruct c as [[] [] [] [] [] [] [] []]; try discriminate Hc; reflexivity.
Qed.

Lemma digits_val_digits (g : string) :
  forall acc b,
    all_chars is_digit g = true -> (g <> "" \/ b = true) -> (0 <= acc)%Z ->
    exists v, digits_val acc b g = Some v /\ (0 <= v)%Z.
Proof.
  induction g as [|c g IH]; intros acc b Hg Hb Hacc.
  - destruct Hb as [Hb|Hb]; [congruence|]. subst b. simpl. eauto.
  - simpl in Hg. apply andb_prop in Hg. destruct Hg as [Hc Hg].
    cbn [digits_val]. rewrite Hc. apply IH; [exact Hg | right; reflexivity |].
    unfold digit_val. lia.
Qed.

(** [int] of a text of digits is a number that is not negative. *)
Lemma py_int_digits (g : string) :
  all_chars is_digit g = true -> g <> "" ->
  (String.length g <= int_max_str_digits)%nat ->
  exists v, py_int g = Some v /\ (0 <= v)%Z.
Proof.
  intros Hg Hne Hlen. rewrite (py_int_of_digits g Hg).
  apply Nat.leb_le in Hlen. rewrite Hlen.
  apply digits_val_digits; [exact Hg | left; exact Hne | lia].
Qed.

(** [int] refuses a text of more than [int_max_str_digits] digits. *)
Lemma py_int_too_long (g : string) :
  all_chars is_digit g = true ->
  (int_max_str_digits < String.length g)%nat ->
  py_int g = None.
Proof.
  intros Hg Hlen. rewrite (py_int_of_digits g Hg).
  apply Nat.leb_gt in Hlen. rewrite Hlen. reflexivity.
Qed.

(** ** What [parse_serial] reads *)

Lemma parse_serial_group (data g : string) :
  search_group serial_before serial_group Eps data = Some g ->
  exists before ws after,
    data = before ++ "(" ++ ws ++ g ++ after
    /\ ws <> "" /\ all_chars is_space ws = true
    /\ g <> "" /\ all_chars is_digit g = true
    /\ stops is_digit after = true.
Proof.
  intros H. apply search_group_at_last_some in H.
  destruct H as [a [p [[p1 r1] [[p2 r2] [l [E [H1 [H2 Hg]]]]]]]].
  cbn [fst snd] in *.
  unfold serial_group in H2. rewrite ends_plus_sym in H2.
  destruct r1 as [|c s']; [discriminate|].
  destruct (is_digit c) eqn:Hc; [|discriminate].
  destruct (ends_star_sym_head is_digit (Some c) s') as [l' E'].
  rewrite E' in H2. injection H2 as _ <- _.
  assert (Eg : g = String c (takewhile is_digit s')).
  { rewrite Hg. rewrite (takewhile_dropwhile is_digit s') at 1.
    change (String c (takewhile is_digit s' ++ dropwhile is_digit s'))
      with (String c (takewhile is_digit s') ++ dropwhile is_digit s').
    apply consumed_append. }
  apply ends_sound in H1. destruct H1 as [m0 [E0 [_ H]]]. cbn [snd] in *.
  unfold serial_before in H. cbn [seq] in H.
  apply Match_Cat_inv in H. destruct H as [k1 [x1 [-> [_ H]]]].
  apply Match_Cat_inv in H. destruct H as [w1 [x2 [-> [_ H]]]].
  apply Match_Cat_inv in H. destruct H as [k2 [x3 [-> [_ H]]]].
  apply Match_Cat_inv in H. destruct H as [w2 [x4 [-> [_ H]]]].
  apply Match_Cat_inv in H. destruct H as [n1 [x5 [-> [_ H]]]].
  apply Match_Cat_inv in H. destruct H as [w3 [x6 [-> [_ H]]]].
  apply Match_Cat_inv in H. destruct H as [n2 [x7 [-> [_ H]]]].
  apply Match_Cat_inv in H. destruct H as [w4 [x8 [-> [_ H]]]].
  apply Match_Cat_inv in H. destruct H as [po [ws [-> [H3 H]]]].
  apply Match_Sym_inv in H3. destruct H3 as [d [-> Hd]].
  apply Ascii.eqb_eq in Hd. subst d.
  pose proof (Match_Plus_Sym_all _ _ _ _ H) as Hws.
  apply Match_Plus_Sym_inv in H. destruct H as [d [ws' [-> _]]].
  exists (a ++ k1 ++ w1 ++ k2 ++ w2 ++ n1 ++ w3 ++ n2 ++ w4),
    (String d ws'), (dropwhile is_digit s').
  assert (Ed : data
               = (a ++ k1 ++ w1 ++ k2 ++ w2 ++ n1 ++ w3 ++ n2 ++ w4)
                   ++ "(" ++ String d ws' ++ g ++ dropwhile is_digit s').
  { rewrite E, E0, Eg. rewrite (takewhile_dropwhile is_digit s') at 1.
    norm_app. reflexivity. }
  split; [exact Ed|]. split; [discriminate|]. split; [exact Hws|].
  rewrite Eg. split; [discriminate|]. split.
  - simpl. rewrite Hc. apply takewhile_all.
  - apply dropwhile_stops.
Qed.

(** X1.  [parse_serial] leaves with [sys.exit(1)] exactly when
    nothing matches its pattern.  Otherwise the group is a whole run of
    digits of the text: the run stands behind an opening parenthesis
    and white space, and no digit follows it.  A run of at most
    [int_max_str_digits] digits is returned as its number, which is not
    negative; for a longer run the [ValueError] of [int] escapes. *)
Theorem parse_serial_reads_whole_number (data : string) :
  (parse_serial data = Exit 1
   <-> ~ Found (Cat serial_before (Cat serial_group Eps)) data)
  /\ (parse_serial data = Exit 1
      \/ parse_serial data = Raise ValueError
      \/ exists n, parse_serial data = Ok n)
  /\ (forall n,
         parse_serial data = Ok n ->
         (0 <= n)%Z
         /\ exists before ws g after,
             data = before ++ "(" ++ ws ++ g ++ after
             /\ ws <> "" /\ all_chars is_space ws = true
             /\ g <> "" /\ all_chars is_digit g = true
             /\ stops is_digit after = true
             /\ (String.length g <= int_max_str_digits)%nat
             /\ py_int g = Some n)
  /\ (parse_serial data = Raise ValueError ->
      exists before ws g after,
        data = before ++ "(" ++ ws ++ g ++ after
        /\ ws <> "" /\ all_chars is_space ws = true
        /\ all_chars is_digit g = true
        /\ stops is_digit after = true
        /\ (int_max_str_digits < String.length g)%nat).
Proof.
  unfold parse_serial.
  destruct (search_group serial_before serial_group Eps data) as [g|] eqn:E.
  - destruct (parse_serial_group data g E)
      as [before [ws [after [Ed [Hws [Hsp [Hg [Hdig Hst]]]]]]]].
    destruct (Nat.le_gt_cases (String.length g) int_max_str_digits)
      as [Hlen|Hlen].
    + destruct (py_int_digits g Hdig Hg Hlen) as [v [Ev Hv]]. rewrite Ev.
      split; [|split; [|split]].
      * split; [discriminate|]. intros Hn.
        apply search_group_none_iff in Hn. congruence.
      * right. right. eauto.
      * intros n Hn. injection Hn as <-. split; [exact Hv|].
        exists before, ws, g, after. repeat split; auto.
      * discriminate.
    + rewrite (py_int_too_long g Hdig Hlen).
      split; [|split; [|split]].
      * split; [discriminate|]. intros Hn.
        apply search_group_none_iff in Hn. congruence.
      * right. left. reflexivity.
      * intros n Hn. discriminate.
      * intros _. exists before, ws, g, after. repeat split; auto.
  - split; [|split; [|split]].
    + split; [intros _|reflexivity]. apply search_group_none_iff. exact E.
    + left. reflexivity.
    + intros n Hn. discriminate.
    + discriminate.
Qed.

(** ** What [parse_zone] returns *)

Lemma label_not_period (c : ascii) : label_char c = true -> is_period c = false.
Proof.
  destruct c as [[] [] [] [] [] [] [] []]; intros H;
    try reflexivity; discriminate H.
Qed.

Lemma label_is_name (c : ascii) : label_char c = true -> name_char c = true.
Proof. intros H. unfold name_char. rewrite H. reflexivity. Qed.

(** [rstrip] cuts off a run of characters that satisfy [p]. *)
Lemma rstrip_split p s :
  exists t, s = rstrip p s ++ t /\ all_chars p t = true.
Proof.
  induction s as [|c s [t [E Ht]]]; [exists ""; auto|].
  cbn [rstrip]. destruct (rstrip p s) as [|d r].
  - simpl in E. subst t. destruct (p c) eqn:Hc.
    + exists (String c s). simpl. rewrite Hc. auto.
    + exists s. auto.
  - exists t. split; [|exact Ht]. simpl. simpl in E. congruence.
Qed.

Lemma rstrip_all q p s :
  all_chars q s = true -> all_chars q (rstrip p s) = true.
Proof.
  intros H. destruct (rstrip_split p s) as [t [E _]].
  rewrite E, all_chars_append in H. apply andb_prop in H. tauto.
Qed.

(** What [rstrip] leaves does not end with a character that satisfies [p]. *)
Lemma rstrip_last p s :
  match lastc None (rstrip p s) with
  | Some d => p d = false
  | None => True
  end.
Proof.
  induction s as [|c s IH]; [exact I|].
  cbn [rstrip]. destruct (rstrip p s) as [|d r].
  - destruct (p c) eqn:Hc; simpl; auto.
  - exact IH.
Qed.

Lemma name_group_inv prev g post :
  Match name_group prev g post ->
  exists c r,
    g = String c r /\ label_char c = true
    /\ r <> "" /\ all_chars name_char r = true.
Proof.
  intros H. unfold name_group in H.
  apply Match_Cat_inv in H. destruct H as [g1 [g2 [-> [H1 H2]]]].
  apply Match_Plus_Sym_inv in H1. destruct H1 as [c [g1' [-> [Hc H1]]]].
  pose proof (Match_Plus_Sym_all _ _ _ _ H2) as Hall.
  apply Match_Plus_Sym_inv in H2. destruct H2 as [d [g2' [-> _]]].
  exists c, (g1' ++ String d g2'). repeat split; auto.
  - destruct g1'; discriminate.
  - rewrite all_chars_append, Hall, andb_true_r.
    revert H1. apply all_chars_weaken. exact label_is_name.
Qed.

(** The name that is left of a group once its dots are stripped. *)
Lemma strip_name_group prev g post :
  Match name_group prev g post ->
  exists c rest dots,
    strip is_period g = String c rest
    /\ g = strip is_period g ++ dots
    /\ label_char c = true
    /\ all_chars name_char rest = true
    /\ ends_with_dot (strip is_period g) = false.
Proof.
  intros H. apply name_group_inv in H.
  destruct H as [c [r [-> [Hc [_ Hr]]]]].
  pose proof (label_not_period c Hc) as Hp.
  assert (E : strip is_period (String c r) = String c (rstrip is_period r)).
  { unfold strip. rewrite rstrip_cons by exact Hp. apply lstrip_keeps, Hp. }
  destruct (rstrip_split is_period r) as [dots [Ed _]].
  exists c, (rstrip is_period r), dots. rewrite E.
  split; [reflexivity|]. split; [simpl; congruence|]. split; [exact Hc|].
  split; [apply rstrip_all, Hr|].
  unfold ends_with_dot. pose proof (rstrip_last is_period r) as Hl.
  destruct (rstrip is_period r) as [|d r']; simpl in *; [exact Hp|].
  destruct (lastc (Some d) r'); [exact Hl | reflexivity].
Qed.

(** X3.  [parse_zone] leaves with [sys.exit(1)] exactly when neither
    of its patterns matches, and otherwise returns a name that is a part
    of the text, begins with a letter, a digit or a hyphen, is made of
    such characters and dots, and has no dot at its end. *)
Theorem parse_zone_name_shape (data : string) :
  (parse_zone data = Exit 1
   <-> ~ Found (Cat soa_before (Cat name_group soa_after)) data
       /\ ~ Found (Cat origin_before (Cat name_group Eps)) data)
  /\ (parse_zone data = Exit 1 \/ exists zn, parse_zone data = Ok zn)
  /\ (forall zn,
         parse_zone data = Ok zn ->
         (exists c rest,
             zn = String c rest /\ label_char c = true
             /\ all_chars name_char rest = true)
         /\ ends_with_dot zn = false
         /\ exists a b, data = a ++ zn ++ b).
Proof.
  unfold parse_zone.
  destruct (search_group soa_before name_group soa_after data) as [g|] eqn:E1.
  - split; [|split].
    + split; [discriminate|]. intros [Hn _].
      apply search_group_none_iff in Hn. congruence.
    + right. eauto.
    + intros zn Hzn. injection Hzn as <-.
      apply search_group_at_some in E1.
      destruct E1 as [a [m0 [m2 [z [Ed [_ [Hg _]]]]]]].
      destruct (strip_name_group _ _ _ Hg)
        as [c [rest [dots [Es [Eg [Hc [Hrest Hdot]]]]]]].
      split; [exists c, rest; auto|]. split; [exact Hdot|].
      exists (a ++ m0), (dots ++ m2 ++ z).
      rewrite Ed. rewrite Eg at 1. norm_app. reflexivity.
  - destruct (search_group origin_before name_group Eps data) as [g|] eqn:E2.
    + split; [|split].
      * split; [discriminate|]. intros [_ Hn].
        apply search_group_none_iff in Hn. congruence.
      * right. eauto.
      * intros zn Hzn. injection Hzn as <-.
        apply search_group_at_some in E2.
        destruct E2 as [a [m0 [m2 [z [Ed [_ [Hg _]]]]]]].
        destruct (strip_name_group _ _ _ Hg)
          as [c [rest [dots [Es [Eg [Hc [Hrest Hdot]]]]]]].
        split; [exists c, rest; auto|]. split; [exact Hdot|].
        exists (a ++ m0), (dots ++ m2 ++ z).
        rewrite Ed. rewrite Eg at 1. norm_app. reflexivity.
    + split; [|split].
      * split; [intros _|reflexivity].
        split; apply search_group_none_iff; assumption.
      * left. reflexivity.
      * intros zn Hzn. discriminate.
Qed.

(** ** The lines that [parse_origin] returns *)

(** A text is its first line and, behind a line feed, the rest. *)
Lemma first_line (s : string) :
  dropwhile is_dot s = ""
  \/ exists rest, dropwhile is_dot s = String newline rest.
Proof.
  pose proof (dropwhile_stops is_dot s) as H.
  destruct (dropwhile is_dot s) as [|c rest]; [auto|].
  right. exists rest. simpl in H. unfold is_dot in H.
  rewrite negb_involutive in H. apply Ascii.eqb_eq in H. subst. reflexivity.
Qed.

Lemma str_split_line (l rest : string) :
  all_chars is_dot l = true ->
  str_split newline (l ++ String newline rest) = l :: str_split newline rest.
Proof.
  induction l as [|c l IH]; intros H.
  - simpl. reflexivity.
  - simpl in H. apply andb_prop in H. destruct H as [Hc Hl].
    cbn [append str_split]. unfold is_dot in Hc.
    apply negb_true_iff in Hc. rewrite Hc, (IH Hl). reflexivity.
Qed.

Lemma str_split_last (l : string) :
  all_chars is_dot l = true -> str_split newline l = [l].
Proof.
  induction l as [|c l IH]; intros H; [reflexivity|].
  simpl in H. apply andb_prop in H. destruct H as [Hc Hl].
  cbn [str_split]. unfold is_dot in Hc.
  apply negb_true_iff in Hc. rewrite Hc, (IH Hl). reflexivity.
Qed.

Lemma startswith_inv (p s : string) :
  startswith p s = true -> exists t, s = p ++ t.
Proof.
  revert s. induction p as [|a p IH]; intros s H; [exists s; reflexivity|].
  destruct s as [|b s]; [discriminate|]. simpl in H.
  apply andb_prop in H. destruct H as [Hab Hp].
  apply Ascii.eqb_eq in Hab. subst b.
  destruct (IH s Hp) as [t ->]. exists t. reflexivity.
Qed.

Lemma ends_lit (s : string) :
  forall prev rest, ends (lit s) prev (s ++ rest) = [(lastc prev s, rest)].
Proof.
  induction s as [|c s IH]; intros prev rest; [reflexivity|].
  cbn [lit ends append]. rewrite Ascii.eqb_refl. cbn [flat_map fst snd].
  rewrite IH. reflexivity.
Qed.

(** Off the start of a line the pattern has no match. *)
Lemma origin_line_ends_off_bol prev rest :
  at_bol true prev = false -> ends origin_line_pattern prev rest = [].
Proof.
  intros H. unfold origin_line_pattern. cbn [seq ends]. rewrite H. reflexivity.
Qed.

Lemma ends_cat_head (a b : re) prev rest q qs q' qs' :
  ends a prev rest = q :: qs ->
  ends b (fst q) (snd q) = q' :: qs' ->
  exists l, ends (Cat a b) prev rest = q' :: l.
Proof.
  intros Ea Eb. cbn [ends]. rewrite Ea. eapply flat_map_head. exact Eb.
Qed.

(** At the start of a line of the right shape the first match is the
    whole line. *)
Lemma origin_line_ends_match prev l tail :
  at_bol true prev = true ->
  all_chars is_dot l = true ->
  at_eol true tail = true ->
  is_origin_line l = true ->
  exists qs,
    ends origin_line_pattern prev (l ++ tail) = (lastc prev l, tail) :: qs.
Proof.
  intros Hb Hl Ht Ho. unfold is_origin_line in Ho.
  apply startswith_inv in Ho. destruct Ho as [x Ex].
  pose proof (takewhile_dropwhile blank_char l) as El. rewrite Ex in El.
  set (ws := takewhile blank_char l) in *.
  assert (Hx : all_chars is_dot x = true).
  { rewrite El, !all_chars_append in Hl.
    apply andb_prop in Hl. destruct Hl as [_ Hl].
    apply andb_prop in Hl. tauto. }
  assert (Hstop : stops is_dot tail = true).
  { destruct tail as [|c tail]; [reflexivity|]. simpl in *.
    apply andb_prop in Ht. destruct Ht as [Hc _].
    unfold is_dot. rewrite Hc. reflexivity. }
  assert (E1 : ends (Bol true) prev (l ++ tail) = [(prev, l ++ tail)])
    by (cbn [ends]; rewrite Hb; reflexivity).
  destruct (ends_star_sym_head blank_char prev (l ++ tail)) as [l2 E2].
  assert (Etw : takewhile blank_char (l ++ tail) = ws
                /\ dropwhile blank_char (l ++ tail) = "$ORIGIN" ++ x ++ tail).
  { rewrite El. rewrite !append_assoc.
    split; [apply takewhile_app | apply dropwhile_app];
      try apply takewhile_all; reflexivity. }
  destruct Etw as [Et Ed]. rewrite Et, Ed in E2.
  pose proof (ends_lit "$ORIGIN" (lastc prev ws) (x ++ tail)) as E3.
  destruct (ends_star_sym_head is_dot (lastc (lastc prev ws) "$ORIGIN")
              (x ++ tail)) as [l4 E4].
  rewrite (takewhile_app is_dot x tail Hx Hstop),
    (dropwhile_app is_dot x tail Hx Hstop) in E4.
  assert (E5 : ends (Eol true) (lastc (lastc (lastc prev ws) "$ORIGIN") x) tail
               = [(lastc (lastc (lastc prev ws) "$ORIGIN") x, tail)])
    by (cbn [ends]; rewrite Ht; reflexivity).
  destruct (ends_cat_head _ _ _ _ _ _ _ _ E4 E5) as [l45 E45].
  destruct (ends_cat_head _ _ _ _ _ _ _ _ E3 E45) as [l35 E35].
  destruct (ends_cat_head _ _ _ _ _ _ _ _ E2 E35) as [l25 E25].
  destruct (ends_cat_head _ _ _ _ _ _ _ _ E1 E25) as [l15 E15].
  exists l15. unfold origin_line_pattern. cbn [seq].
  rewrite E15.
  replace (lastc prev l) with (lastc prev (ws ++ "$ORIGIN" ++ x))
    by (rewrite <- El; reflexivity).
  rewrite !lastc_append. reflexivity.
Qed.

Lemma prefix_of_line (u : string) :
  forall l tail v,
    l ++ tail = u ++ v -> all_chars is_dot u = true ->
    stops is_dot tail = true -> exists l', l = u ++ l'.
Proof.
  induction u as [|c u IH]; intros l tail v E Hu Ht; [exists l; reflexivity|].
  simpl in Hu. apply andb_prop in Hu. destruct Hu as [Hc Hu].
  destruct l as [|d l].
  - simpl in E. subst tail. simpl in Ht. rewrite Hc in Ht. discriminate.
  - simpl in E. injection E as -> E.
    destruct (IH l tail v E Hu Ht) as [l' ->]. exists l'. reflexivity.
Qed.

Lemma at_eol_stops tail : at_eol true tail = true -> stops is_dot tail = true.
Proof.
  destruct tail as [|c tail]; [reflexivity|]. simpl.
  intros H. apply andb_prop in H. destruct H as [Hc _].
  unfold is_dot. rewrite Hc. reflexivity.
Qed.

(** At the start of a line of another shape the pattern has no match. *)
Lemma origin_line_ends_other prev l tail :
  all_chars is_dot l = true ->
  at_eol true tail = true ->
  is_origin_line l = false ->
  ends origin_line_pattern prev (l ++ tail) = [].
Proof.
  intros Hl Ht Ho. apply ends_nil_iff. intros m post E H.
  unfold origin_line_pattern in H. cbn [seq] in H.
  apply Match_Cat_inv in H. destruct H as [m0 [ma [-> [H0 H]]]].
  apply Match_Bol_inv in H0. destruct H0 as [-> _].
  apply Match_Cat_inv in H. destruct H as [ws [mb [-> [H1 H]]]].
  apply Match_Star_Sym_inv in H1.
  apply Match_Cat_inv in H. destruct H as [kw [mc [-> [H2 _]]]].
  apply Match_lit_inv in H2. subst kw.
  assert (E' : l ++ tail = (ws ++ "$ORIGIN") ++ mc ++ post)
    by (rewrite E; norm_app; reflexivity).
  apply prefix_of_line in E'.
  - destruct E' as [l' ->]. unfold is_origin_line in Ho.
    rewrite append_assoc, dropwhile_app in Ho;
      [discriminate Ho | exact H1 | reflexivity].
  - rewrite all_chars_append, (blank_is_dot ws H1). reflexivity.
  - apply at_eol_stops, Ht.
Qed.

(** ** Unfolding [re.findall] *)

Lemma findall_at_nil r prev rest :
  ends r prev rest = [] ->
  findall_at r 0 prev rest
  = match rest with
    | EmptyString => []
    | String c rest' => findall_at r 0 (Some c) rest'
    end.
Proof. intros E. destruct rest; cbn [findall_at]; rewrite E; reflexivity. Qed.

Lemma findall_at_hit r prev c rest q qs :
  ends r prev (String c rest) = q :: qs ->
  (String.length (snd q) < String.length (String c rest))%nat ->
  findall_at r 0 prev (String c rest)
  = consumed (String c rest) (snd q)
    :: findall_at r (String.length (consumed (String c rest) (snd q)) - 1)
         (Some c) rest.
Proof.
  intros E Hl. cbn [findall_at]. rewrite E.
  apply Nat.ltb_lt in Hl. rewrite Hl. reflexivity.
Qed.

Lemma findall_at_skip r (l : string) :
  forall prev rest,
    findall_at r (String.length l) prev (l ++ rest)
    = findall_at r 0 (lastc prev l) rest.
Proof.
  induction l as [|c l IH]; intros prev rest; [reflexivity|].
  cbn [String.length append lastc]. rewrite <- IH. reflexivity.
Qed.

Lemma is_dot_off_bol c : is_dot c = true -> at_bol true (Some c) = false.
Proof. unfold is_dot. simpl. intros H. apply negb_true_iff in H. exact H. Qed.

Lemma lastc_is_dot (l : string) :
  forall c, is_dot c = true -> all_chars is_dot l = true ->
            exists d, lastc (Some c) l = Some d /\ is_dot d = true.
Proof.
  induction l as [|x l IH]; intros c Hc Hl; [exists c; auto|].
  simpl in Hl. apply andb_prop in Hl. destruct Hl as [Hx Hl].
  simpl. apply IH; assumption.
Qed.

(** Inside a line nothing is found up to the next line. *)
Lemma findall_at_inside (l : string) :
  forall prev tail,
    at_bol true prev = false -> all_chars is_dot l = true ->
    findall_at origin_line_pattern 0 prev (l ++ tail)
    = match tail with
      | EmptyString => []
      | String c rest' => findall_at origin_line_pattern 0 (Some c) rest'
      end.
Proof.
  induction l as [|x l IH]; intros prev tail Hb Hl.
  - simpl append. apply findall_at_nil, origin_line_ends_off_bol, Hb.
  - simpl in Hl. apply andb_prop in Hl. destruct Hl as [Hx Hl].
    rewrite findall_at_nil by (apply origin_line_ends_off_bol, Hb).
    cbn [append]. apply IH; [apply is_dot_off_bol, Hx | exact Hl].
Qed.

Lemma is_origin_line_empty : is_origin_line "" = false.
Proof. reflexivity. Qed.

Lemma parse_origin_from_bol :
  forall n data prev,
    (String.length data <= n)%nat -> at_bol true prev = true ->
    findall_at origin_line_pattern 0 prev data
    = filter is_origin_line (str_split newline data).
Proof.
  induction n as [|n IH]; intros data prev Hn Hb.
  - destruct data; [|simpl in Hn; lia].
    rewrite findall_at_nil; [reflexivity|].
    apply (origin_line_ends_other prev "" ""); reflexivity.
  - pose proof (takewhile_dropwhile is_dot data) as Ed.
    pose proof (takewhile_all is_dot data) as Hl.
    remember (takewhile is_dot data) as l eqn:Heql. clear Heql.
    assert (Htail : forall tail,
               dropwhile is_dot data = tail ->
               at_eol true tail = true
               /\ (tail = "" \/ exists rest', tail = String newline rest')).
    { intros tail <-. destruct (first_line data) as [E|[rest' E]]; rewrite E.
      - split; [reflexivity | left; reflexivity].
      - split; [reflexivity | right; exists rest'; reflexivity]. }
    destruct (Htail _ eq_refl) as [Ht Hcases]. clear Htail.
    remember (dropwhile is_dot data) as tail eqn:Heqt. clear Heqt.
    (* what follows the line *)
    assert (Hnext :
               match tail with
               | EmptyString => []
               | String c rest' =>
                   findall_at origin_line_pattern 0 (Some c) rest'
               end
               = filter is_origin_line
                   (match tail with
                    | EmptyString => []
                    | String _ rest' => str_split newline rest'
                    end)).
    { destruct Hcases as [E|[rest' E]]; rewrite E; [reflexivity|].
      apply IH; [|reflexivity].
      assert (Hlen : String.length data
                     = (String.length l + String.length tail)%nat)
        by (rewrite Ed at 1; apply length_append).
      rewrite E in Hlen. simpl in Hlen. lia. }
    assert (Hsplit : str_split newline data
                     = l :: match tail with
                            | EmptyString => []
                            | String _ rest' => str_split newline rest'
                            end).
    { rewrite Ed at 1. destruct Hcases as [E|[rest' E]]; rewrite E.
      - rewrite append_nil_r. apply str_split_last, Hl.
      - apply str_split_line, Hl. }
    rewrite Hsplit. cbn [filter].
    destruct (is_origin_line l) eqn:Ho.
    + (* the line is returned *)
      destruct l as [|c l'] eqn:El; [discriminate Ho|].
      destruct (origin_line_ends_match prev (String c l') tail Hb Hl Ht Ho)
        as [qs E].
      rewrite Ed at 1. cbn [append] in *.
      rewrite (findall_at_hit _ _ _ _ _ _ E)
        by (cbn [snd]; simpl; rewrite length_append; lia).
      cbn [snd].
      change (String c (l' ++ tail)) with (String c l' ++ tail).
      rewrite consumed_append. f_equal.
      cbn [String.length]. rewrite Nat.sub_succ, Nat.sub_0_r.
      rewrite findall_at_skip.
      simpl in Hl. apply andb_prop in Hl. destruct Hl as [Hc Hl'].
      destruct (lastc_is_dot l' c Hc Hl') as [d [-> Hd]].
      rewrite <- Hnext.
      apply (findall_at_inside "" (Some d) tail);
        [apply is_dot_off_bol, Hd | reflexivity].
    + (* the line is passed over *)
      rewrite <- Hnext. rewrite Ed at 1.
      rewrite findall_at_nil
        by (apply origin_line_ends_other; assumption).
      destruct l as [|c l'] eqn:El.
      * simpl append. destruct tail; reflexivity.
      * cbn [append]. simpl in Hl. apply andb_prop in Hl.
        destruct Hl as [Hc Hl'].
        apply findall_at_inside; [apply is_dot_off_bol, Hc | exact Hl'].
Qed.

(** [parse_origin] returns the lines that begin with [$ORIGIN], in order. *)
Lemma parse_origin_filter (data : string) :
  parse_origin data = filter is_origin_line (str_split newline data).
Proof.
  unfold parse_origin, findall.
  apply (parse_origin_from_bol (String.length data)); [lia | reflexivity].
Qed.

Lemma check_origin_zero_iff (l : list string) :
  check_origin l = 0%Z
  <-> forall line, In line l -> Found origin_dot_pattern line.
Proof.
  rewrite check_origin_cases. destruct (forallb _ l) eqn:F.
  - split; [intros _|reflexivity]. intros line Hin.
    rewrite forallb_forall in F. specialize (F line Hin).
    destruct (search_dec origin_dot_pattern line); [assumption|discriminate].
  - split; [discriminate|]. intros H. exfalso.
    assert (F' : forallb (fun line => if search_dec origin_dot_pattern line
                                      then true else false) l = true).
    { apply forallb_forall. intros line Hin.
      destruct (search_dec origin_dot_pattern line) as [Hf|Hf];
        [reflexivity | exfalso; auto]. }
    congruence.
Qed.

Lemma origin_lines_pass_iff (data : string) :
  check_origin (parse_origin data) = 0%Z
  <-> forall line,
      In line (str_split newline data) ->
      is_origin_line line = true -> ends_with_dot line = true.
Proof.
  rewrite check_origin_zero_iff. split.
  - intros H line Hin Ho.
    assert (Hp : In line (parse_origin data)).
    { rewrite parse_origin_filter. apply filter_In. auto. }
    apply (parse_origin_line_dot data line Hp), origin_dot_found, H, Hp.
  - intros H line Hp. apply origin_dot_found.
    apply (parse_origin_line_dot data line Hp).
    rewrite parse_origin_filter in Hp. apply filter_In in Hp.
    apply H; tauto.
Qed.

(** X5.  [parse_origin] returns, in their order, exactly the lines of
    the text (cut at line feeds) that begin, after blanks and tabs, with
    [$ORIGIN]; and [check_origin] passes on them exactly when every such
    line ends with a dot. *)
Theorem parse_origin_takes_the_origin_lines (data : string) :
  parse_origin data = filter is_origin_line (str_split newline data)
  /\ (check_origin (parse_origin data) = 0%Z
      <-> forall line,
          In line (str_split newline data) ->
          is_origin_line line = true -> ends_with_dot line = true).
Proof.
  split; [apply parse_origin_filter | apply origin_lines_pass_iff].
Qed.

(** ** The loop that removes while it iterates *)

Lemma subseq_refl {A : Type} (l : list A) : subseq l l.
Proof. induction l; constructor; assumption. Qed.

Lemma subseq_trans {A : Type} (l1 l2 l3 : list A) :
  subseq l1 l2 -> subseq l2 l3 -> subseq l1 l3.
Proof.
  intros H12 H23. revert l1 H12.
  induction H23 as [|x l2 l3 H IH|x l2 l3 H IH]; intros l1 H12.
  - exact H12.
  - apply subseq_skip. apply IH. exact H12.
  - inversion H12; subst.
    + apply subseq_skip. apply IH. assumption.
    + apply subseq_keep. apply IH. assumption.
Qed.

Lemma list_remove_subseq (x : string) (l : list string) :
  subseq (list_remove x l) l.
Proof.
  induction l as [|y l IH]; simpl; [constructor|].
  destruct (y =? x).
  - apply subseq_skip, subseq_refl.
  - apply subseq_keep, IH.
Qed.

Lemma remove_loop_subseq :
  forall fuel i l, subseq (remove_loop fuel i l) l.
Proof.
  induction fuel as [|fuel IH]; intros i l; simpl; [apply subseq_refl|].
  destruct (nth_error l i) as [item|]; [|apply subseq_refl].
  destruct (is_zonefile item); [apply IH|].
  eapply subseq_trans; [apply IH | apply list_remove_subseq].
Qed.

Lemma subseq_in {A : Type} (l1 l2 : list A) (x : A) :
  subseq l1 l2 -> In x l1 -> In x l2.
Proof.
  induction 1; simpl; intros Hin; [exact Hin | right; auto |].
  destruct Hin; [left; assumption | right; auto].
Qed.

(** The list that the listings return is the list of the paths git
    printed with some of them left out: nothing is added, the order is
    kept, and no path is empty. *)
(** X7.  The list that [get_all_zonefiles] and
    [get_changed_zonefiles] build from the output of git is that output's
    list of non-empty lines with some lines left out: no path is added,
    the order is kept, and no path is empty. *)
Theorem zonefiles_of_is_a_sublist (out : string) :
  subseq (zonefiles_of out) (filter truthy (str_split newline out))
  /\ (forall item, In item (zonefiles_of out) ->
                   item <> "" /\ In item (str_split newline out)).
Proof.
  assert (H : subseq (zonefiles_of out)
                (filter truthy (str_split newline out)))
    by apply remove_loop_subseq.
  split; [exact H|]. intros item Hin.
  apply (subseq_in _ _ _ H) in Hin. apply filter_In in Hin.
  destruct Hin as [Hin Ht]. split; [|exact Hin].
  intros ->. discriminate Ht.
Qed.

Lemma list_remove_after_zonefiles (done rest : list string) (x : string) :
  forallb is_zonefile done = true -> is_zonefile x = false ->
  list_remove x (done +++ x :: rest) = done +++ rest.
Proof.
  intros Hd Hx. induction done as [|d done IH]; simpl.
  - rewrite String.eqb_refl. reflexivity.
  - simpl in Hd. apply andb_prop in Hd. destruct Hd as [Hz Hd].
    destruct (String.eqb_spec d x) as [->|_]; [congruence|].
    rewrite IH by exact Hd. reflexivity.
Qed.

Lemma remove_loop_past_end fuel i (l : list string) :
  (List.length l <= i)%nat -> remove_loop fuel i l = l.
Proof.
  intros H. destruct fuel; simpl; [reflexivity|].
  replace (nth_error l i) with (@None string)
    by (symmetry; apply nth_error_None; exact H).
  reflexivity.
Qed.

Lemma no_adjacent_strangers_tail x l :
  no_adjacent_strangers (x :: l) = true -> no_adjacent_strangers l = true.
Proof. simpl. intros H. apply andb_prop in H. tauto. Qed.

Lemma remove_loop_filter :
  forall fuel done rest,
    forallb is_zonefile done = true ->
    no_adjacent_strangers rest = true ->
    (List.length rest <= fuel)%nat ->
    remove_loop fuel (List.length done) (done +++ rest)
    = done +++ filter is_zonefile rest.
Proof.
  induction fuel as [fuel IH] using lt_wf_ind.
  intros done rest Hd Hr Hlen.
  destruct rest as [|x rest].
  - apply remove_loop_past_end. rewrite app_nil_r. lia.
  - destruct fuel as [|fuel]; [simpl in Hlen; lia|].
    cbn [remove_loop].
    rewrite nth_error_app2 by lia. rewrite Nat.sub_diag. cbn [nth_error].
    assert (Edone : forall y, S (List.length done) = List.length (done +++ [y]))
      by (intros y; rewrite length_app; simpl; lia).
    destruct (is_zonefile x) eqn:Hx.
    + rewrite (Edone x).
      replace (done +++ x :: rest) with ((done +++ [x]) +++ rest)
        by (rewrite <- app_assoc; reflexivity).
      rewrite IH; [| lia | | | ].
      * cbn [filter]. rewrite Hx, <- app_assoc. reflexivity.
      * rewrite forallb_app, Hd. simpl. rewrite Hx. reflexivity.
      * apply (no_adjacent_strangers_tail x), Hr.
      * simpl in Hlen. lia.
    + rewrite (list_remove_after_zonefiles done rest x Hd Hx).
      cbn [filter]. rewrite Hx.
      destruct rest as [|y rest].
      * cbn [filter]. rewrite !app_nil_r. apply remove_loop_past_end. lia.
      * assert (Hy : is_zonefile y = true).
        { simpl in Hr. rewrite Hx in Hr. simpl in Hr.
          apply andb_prop in Hr. tauto. }
        rewrite (Edone y).
        replace (done +++ y :: rest) with ((done +++ [y]) +++ rest)
          by (rewrite <- app_assoc; reflexivity).
        rewrite IH; [| lia | | | ].
        -- cbn [filter]. rewrite Hy, <- app_assoc. reflexivity.
        -- rewrite forallb_app, Hd. simpl. rewrite Hy. reflexivity.
        -- apply (no_adjacent_strangers_tail y),
             (no_adjacent_strangers_tail x), Hr.
        -- simpl in Hlen. lia.
Qed.

(** X8.  When no two paths in a row fail the naming convention, the
    loop that removes while it iterates does filter: the listings return
    exactly the paths whose name matches the pattern. *)
Theorem zonefiles_of_filters_when_strangers_are_apart (out : string) :
  no_adjacent_strangers (filter truthy (str_split newline out)) = true ->
  zonefiles_of out
  = filter is_zonefile (filter truthy (str_split newline out)).
Proof.
  intros H. unfold zonefiles_of.
  apply (remove_loop_filter _ [] _ eq_refl H). lia.
Qed.

Lemma zonefiles_of_filters_when_strangers_are_apart_witness :
  zonefiles_of
    ("db.example.com" ++ nl ++ "notes.txt" ++ nl ++ "zones/foo.zone" ++ nl)
  = filter is_zonefile
      (filter truthy
         (str_split newline
            ("db.example.com" ++ nl ++ "notes.txt" ++ nl
             ++ "zones/foo.zone" ++ nl))).
Proof.
  apply zonefiles_of_filters_when_strangers_are_apart.
  vm_compute. reflexivity.
Defined.

(** ** The text that [read_file] returns *)

Lemma splitlines_no_linebreak :
  forall n s,
    (String.length s <= n)%nat ->
    Forall (fun l => all_chars no_linebreak l = true) (splitlines s).
Proof.
  induction n as [|n IH]; intros s Hn.
  - destruct s; [constructor | simpl in Hn; lia].
  - destruct s as [|c s]; [constructor|]. simpl in Hn.
    cbn [splitlines]. destruct (is_linebreak c) eqn:Hc.
    + constructor; [reflexivity|].
      destruct s as [|d s']; [constructor|].
      destruct (Ascii.eqb c carriage_return && Ascii.eqb d newline);
        apply IH; simpl in *; lia.
    + pose proof (IH s ltac:(lia)) as H.
      destruct (splitlines s) as [|l ls].
      * constructor; [|constructor]. simpl. unfold no_linebreak.
        rewrite Hc. reflexivity.
      * inversion H; subst. constructor; [|assumption].
        simpl. unfold no_linebreak at 1. rewrite Hc. assumption.
Qed.

Lemma no_linebreak_lf_only (l : string) :
  all_chars no_linebreak l = true -> all_chars lf_only l = true.
Proof.
  apply all_chars_weaken. intros c H. unfold lf_only.
  unfold no_linebreak in H. rewrite H. reflexivity.
Qed.

Lemma join_lf_only (ls : list string) :
  Forall (fun l => all_chars no_linebreak l = true) ls ->
  all_chars lf_only (join nl ls) = true.
Proof.
  unfold join. induction 1 as [|l ls Hl _ IH]; [reflexivity|].
  cbn [String.concat]. destruct ls as [|l' ls].
  - apply no_linebreak_lf_only, Hl.
  - rewrite !all_chars_append, (no_linebreak_lf_only l Hl), IH. reflexivity.
Qed.

Lemma str_split_chars (q : ascii -> bool) (sep : ascii) (s : string) :
  all_chars (fun c => q c || Ascii.eqb c sep) s = true ->
  Forall (fun l => all_chars q l = true) (str_split sep s).
Proof.
  induction s as [|c s IH]; intros H.
  - constructor; [reflexivity | constructor].
  - simpl in H. apply andb_prop in H. destruct H as [Hc Hs].
    specialize (IH Hs). cbn [str_split].
    destruct (Ascii.eqb c sep) eqn:E.
    + constructor; [reflexivity | exact IH].
    + rewrite orb_false_r in Hc.
      destruct (str_split sep s) as [|w ws_].
      * constructor; [simpl; rewrite Hc; reflexivity | constructor].
      * inversion IH; subst. constructor; [|assumption].
        simpl. rewrite Hc. assumption.
Qed.

(** X9.  The text that [read_file] returns has no line boundary but
    the line feed (no CR, VT, FF, FS, GS, RS or NEL), so no line of it,
    and no line that [parse_origin] takes from it, holds a line
    boundary. *)
Theorem read_file_has_line_feeds_only w call zonefile revision data :
  read_file w call zonefile revision = Ok data ->
  all_chars lf_only data = true
  /\ (forall line, In line (str_split newline data) ->
                   all_chars no_linebreak line = true)
  /\ (forall line, In line (parse_origin data) ->
                   all_chars no_linebreak line = true).
Proof.
  intros H. unfold read_file in H.
  match type of H with
  | match ?x with _ => _ end = _ => destruct x as [r| |]; try discriminate
  end.
  injection H as <-.
  set (data := join (String newline "") (splitlines (stdout r))).
  assert (Hd : all_chars lf_only data = true).
  { apply join_lf_only. apply (splitlines_no_linebreak _ _ (le_n _)). }
  assert (Hl : forall line, In line (str_split newline data) ->
                            all_chars no_linebreak line = true).
  { apply Forall_forall. apply str_split_chars. exact Hd. }
  split; [exact Hd|]. split; [exact Hl|].
  intros line Hin. rewrite parse_origin_filter in Hin.
  apply filter_In in Hin. apply Hl. tauto.
Qed.

Lemma read_file_has_line_feeds_only_witness :
  exists data,
    read_file crlf_world git_hook "db.example.com" 0 = Ok data
    /\ all_chars lf_only data = true.
Proof.
  eexists. split; [reflexivity|].
  apply (read_file_has_line_feeds_only crlf_world git_hook
           "db.example.com" 0).
  reflexivity.
Defined.

(** ** How [check_origin] composes *)

(** X6.  [check_origin] of two lists put together is the larger of
    the two results: it passes exactly when both lists pass. *)
Theorem check_origin_of_two_lists (l1 l2 : list string) :
  check_origin (l1 +++ l2) = Z.max (check_origin l1) (check_origin l2)
  /\ (check_origin (l1 +++ l2) = 0%Z
      <-> check_origin l1 = 0%Z /\ check_origin l2 = 0%Z).
Proof.
  rewrite !check_origin_cases, forallb_app.
  destruct (forallb _ l1), (forallb _ l2); simpl;
    (split; [reflexivity | split; [intros H; try discriminate H; auto
                                  | intros [H1 H2]; congruence]]).
Qed.

(** ** The counter of [pre_commit] *)

Lemma check_serial_01 date s0 s1 :
  check_serial date s0 s1 = 0%Z \/ check_serial date s0 s1 = 1%Z.
Proof.
  destruct s1 as [s1|].
  - rewrite check_serial_baseline_cases.
    destruct (search_dec _ _); [destruct (s0 >? s1)%Z|]; auto.
  - rewrite check_serial_new_cases. destruct (search_dec _ _); auto.
Qed.

Lemma check_origin_01 l : check_origin l = 0%Z \/ check_origin l = 1%Z.
Proof. rewrite check_origin_cases. destruct (forallb _ l); auto. Qed.

Lemma later_calls_nonneg w rc evs :
  later_calls w rc evs -> Forall (fun e => (0 <= ret_of e)%Z) evs.
Proof.
  intros H. destruct H; repeat constructor; simpl; try lia.
  - destruct (check_serial_01 (now_Ymd w) s0 s1) as [E|E]; rewrite E; lia.
  - destruct (check_origin_01 l) as [E|E]; rewrite E; lia.
  - destruct (check_origin_01 l) as [E|E]; rewrite E; lia.
Qed.

Lemma pre_commit_loop_events w call repo :
  (forall cmd, (0 <= returncode (run w cmd))%Z) ->
  forall files e t total t',
    pre_commit_loop w call repo files e t = (Ok total, t') ->
    exists evs,
      t' = t +++ evs
      /\ Forall (fun ev => (0 <= ret_of ev)%Z) evs
      /\ total = (e + sum (map ret_of evs))%Z.
Proof.
  intros Hrun. induction files as [|f files IH]; intros e t total t' H.
  - simpl in H. injection H as <- <-. exists [].
    rewrite app_nil_r. repeat split; [constructor | simpl; lia].
  - simpl in H. unfold bind in H.
    destruct (pre_commit_file w call repo f e t) as [[e1| |] t1] eqn:Ef;
      try discriminate.
    apply pre_commit_file_ok in Ef.
    destruct Ef as [zn [rc [evs [Et [Erc [Ee Hl]]]]]].
    apply IH in H. destruct H as [evs' [Et' [Hall Htot]]].
    exists (Checking f :: Called_check_zone zn (path_join repo f) rc
              :: evs +++ evs').
    split; [|split].
    + rewrite Et', Et, <- app_assoc. reflexivity.
    + constructor; [simpl; lia|]. constructor.
      * simpl. rewrite check_zone_returncode in Erc.
        injection Erc as <-. apply Hrun.
      * apply Forall_app. split; [eapply later_calls_nonneg; eauto | exact Hall].
    + rewrite Htot, Ee. cbn [map sum fold_right ret_of].
      rewrite map_app. unfold sum. rewrite fold_right_app.
      assert (G : forall (a b : list Z),
                 fold_right Z.add (fold_right Z.add 0%Z b) a
                 = (fold_right Z.add 0 a + fold_right Z.add 0 b)%Z).
      { induction a; intros b; simpl; [reflexivity|]. rewrite IHa. lia. }
      rewrite G. lia.
Qed.

Lemma sum_zero_iff (l : list Z) :
  Forall (fun x => (0 <= x)%Z) l ->
  (0 <= sum l)%Z /\ (sum l = 0%Z <-> Forall (fun x => x = 0%Z) l).
Proof.
  induction 1 as [|x l Hx _ [IH1 IH2]]; simpl.
  - split; [lia | split; auto].
  - split; [lia|]. split.
    + intros H. constructor; [lia|]. apply IH2. lia.
    + intros H. inversion H; subst. apply IH2 in H3. lia.
Qed.

(** X10.  When no program ends with a negative status and the loop
    of [pre_commit] gets through all the files, the counter is not
    negative, and [pre_commit] returns without [sys.exit] exactly when
    every recorded call of a checker returned 0. *)
Theorem pre_commit_passes_iff_no_check_failed w call repo files total t' :
  (forall cmd, (0 <= returncode (run w cmd))%Z) ->
  pre_commit_loop w call repo files 0%Z [] = (Ok total, t') ->
  (0 <= total)%Z
  /\ (total = 0%Z <-> forall ev, In ev t' -> ret_of ev = 0%Z)
  /\ (pre_commit w call repo files [] = (Ok tt, t')
      <-> forall ev, In ev t' -> ret_of ev = 0%Z).
Proof.
  intros Hrun H. pose proof H as H0.
  apply (pre_commit_loop_events w call repo Hrun) in H.
  destruct H as [evs [Et [Hall Htot]]]. simpl in Et. subst t'.
  assert (Hm : Forall (fun x => (0 <= x)%Z) (map ret_of evs)).
  { apply Forall_map. exact Hall. }
  destruct (sum_zero_iff _ Hm) as [Hs Hz].
  assert (Hiff : total = 0%Z <-> forall ev, In ev evs -> ret_of ev = 0%Z).
  { rewrite Htot. rewrite Z.add_0_l, Hz, Forall_map, Forall_forall. tauto. }
  split; [lia|]. split; [exact Hiff|].
  unfold pre_commit, bind. rewrite H0. rewrite <- Hiff.
  destruct (Z.eqb_spec total 0); split; intros; try congruence; try reflexivity.
  discriminate.
Qed.

Lemma pre_commit_passes_iff_no_check_failed_witness :
  (pre_commit two_files_world git_hook "/repo" ["db.example.com"] []
   = (Ok tt,
      [Checking "db.example.com";
       Called_check_zone "example.com" "/repo/db.example.com" 0;
       Called_check_serial 2024010100 None 0;
       Called_check_origin ["$ORIGIN example.com."] 0])
   <-> forall ev,
       In ev [Checking "db.example.com";
              Called_check_zone "example.com" "/repo/db.example.com" 0;
              Called_check_serial 2024010100 None 0;
              Called_check_origin ["$ORIGIN example.com."] 0] ->
       ret_of ev = 0%Z).
Proof.
  refine (proj2 (proj2 (pre_commit_passes_iff_no_check_failed two_files_world
            git_hook "/repo" ["db.example.com"] 0%Z _ _ _))).
  - intros cmd. unfold two_files_world, hook_world, sample_world. cbn [run].
    destruct cmd as [|prog [|sub args]]; [simpl; lia | simpl; lia |].
    destruct (prog =? "named-checkzone").
    + destruct (last args "" =? "/repo/db.bad"); simpl; lia.
    + destruct (sub =? "show"); [simpl; lia|].
      destruct (sub =? "rev-list"); [simpl; lia|].
      destruct (sub =? "ls-files"); [simpl; lia|].
      destruct (sub =? "-C"); simpl; lia.
  - vm_compute. reflexivity.
Defined.

(** ** Exceptions that nothing catches *)

Lemma pre_commit_stops_at_raise w call repo pre f rest e t x t1 :
  pre_commit_loop w call repo pre 0%Z [] = (Ok e, t) ->
  pre_commit_file w call repo f e t = (Raise x, t1) ->
  pre_commit w call repo (pre +++ f :: rest) [] = (Raise x, t1).
Proof.
  intros Hpre Hf. unfold pre_commit. unfold bind at 1.
  rewrite pre_commit_loop_app. unfold bind at 1. rewrite Hpre.
  simpl. unfold bind at 1. rewrite Hf. reflexivity.
Qed.

Lemma exec_cmd_raise w cmd x :
  exec_cmd w cmd = Raise x ->
  exists out,
    x = CommandExecutionError (returncode (run w cmd)) out
    /\ returncode (run w cmd) <> 0%Z.
Proof.
  unfold exec_cmd. destruct (Z.eqb_spec (returncode (run w cmd)) 0);
    [discriminate|].
  intros H. injection H as <-. eauto.
Qed.

Lemma read_file_raise w call f rev x :
  read_file w call f rev = Raise x ->
  exists rc out, x = CommandExecutionError rc out /\ rc <> 0%Z.
Proof.
  unfold read_file.
  match goal with
  | |- match ?c with _ => _ end = _ -> _ => destruct c as [r| |] eqn:E
  end; try discriminate.
  intros H. injection H as <-.
  apply exec_cmd_raise in E. destruct E as [out [-> Hrc]]. eauto.
Qed.

(** X11.  When [git show] fails for the current text of a file,
    [read_file] raises [CommandExecutionError] with the status of git,
    nothing in [pre_commit] catches it, and the run ends there (exit
    status 1) before any check of that file or of the files behind it. *)
Theorem unreadable_file_ends_the_run w call repo pre f rest e t rev x :
  pre_commit_loop w call repo pre 0%Z [] = (Ok e, t) ->
  get_rev_count w call (Some f) = Ok rev ->
  read_file w call f 0 = Raise x ->
  (exists rc out, x = CommandExecutionError rc out /\ rc <> 0%Z)
  /\ pre_commit w call repo (pre +++ f :: rest) []
     = (Raise x, t +++ [Checking f])
  /\ exit_status (fst (pre_commit w call repo (pre +++ f :: rest) [])) = 1%Z.
Proof.
  intros Hpre Hrev Hread.
  assert (H : pre_commit w call repo (pre +++ f :: rest) []
              = (Raise x, t +++ [Checking f])).
  { eapply pre_commit_stops_at_raise; [exact Hpre|].
    unfold pre_commit_file, bind, lift, tell, ret.
    rewrite Hrev, Hread. reflexivity. }
  split; [eapply read_file_raise; exact Hread|].
  split; [exact H|]. rewrite H. reflexivity.
Qed.

Lemma unreadable_file_ends_the_run_witness :
  pre_commit missing_file_world git_hook "/repo"
    ([] +++ "db.gone" :: ["db.other"]) []
  = (Raise (CommandExecutionError 128
              "fatal: path 'db.gone' does not exist"),
     [] +++ [Checking "db.gone"]).
Proof.
  refine (proj1 (proj2 (unreadable_file_ends_the_run missing_file_world
            git_hook "/repo" [] "db.gone" ["db.other"] 0%Z [] 0%Z _ _ _ _)));
    vm_compute; reflexivity.
Defined.

(** ** A baseline that cannot be parsed *)

(** X12.  For a file with a history, a previous revision in which
    [parse_serial] finds no serial ends the run with [sys.exit(1)] after
    the external check, although the current text parses: no serial
    check and no origin check is made, and the files behind it are not
    touched. *)
Theorem unparsable_baseline_ends_the_run
    w call repo pre f rest e t rev data zn s0 data1 :
  pre_commit_loop w call repo pre 0%Z [] = (Ok e, t) ->
  get_rev_count w call (Some f) = Ok rev ->
  (0 < rev)%Z ->
  read_file w call f 0 = Ok data ->
  parse_zone data = Ok zn ->
  check_zone w zn (path_join repo f) = Ok 0%Z ->
  parse_serial data = Ok s0 ->
  read_file w call f 1 = Ok data1 ->
  parse_serial data1 = Exit 1 ->
  pre_commit w call repo (pre +++ f :: rest) []
  = (Exit 1, t +++ [Checking f; Called_check_zone zn (path_join repo f) 0]).
Proof.
  intros Hpre Hrev Hpos Hdata Hzn Hrc Hs0 Hdata1 Hs1.
  eapply pre_commit_stops_at_exit; [exact Hpre|].
  unfold pre_commit_file, bind, lift, tell, ret.
  rewrite Hrev, Hdata, Hzn, Hrc.
  assert (He : (e =? e + 0)%Z = true) by (apply Z.eqb_eq; lia).
  replace (rev =? 0)%Z with false by (symmetry; apply Z.eqb_neq; lia).
  replace (rev >? 0)%Z with true by (symmetry; apply Z.gtb_lt; lia).
  rewrite He. cbn [andb]. rewrite He. cbn [andb].
  rewrite Hs0, Hdata1, Hs1. rewrite <- app_assoc. reflexivity.
Qed.

Lemma unparsable_baseline_ends_the_run_witness :
  pre_commit old_tight_paren_world git_hook "/repo"
    ([] +++ "db.example.com" :: ["db.other"]) []
  = (Exit 1,
     [] +++ [Checking "db.example.com";
             Called_check_zone "example.com"
               (path_join "/repo" "db.example.com") 0]).
Proof.
  refine (unparsable_baseline_ends_the_run old_tight_paren_world git_hook
            "/repo" [] "db.example.com" ["db.other"] 0%Z [] 3%Z
            (join nl (splitlines (sample_zone "( " "2024031500")))
            "example.com" 2024031500%Z
            (join nl (splitlines (sample_zone "(" "2024031401")))
            _ _ _ _ _ _ _ _ _);
    vm_compute; reflexivity.
Defined.

(** ** The other ways through [main] *)

(** X13.  When [git rev-list --count HEAD] succeeds and prints a
    number [n], which is greater than 0 in hook mode and greater than 1
    in pipeline mode (where 1 is taken off), [main] hands the list of
    [get_changed_zonefiles] to [pre_commit]; and when the [git diff] of
    that listing fails, the exception escapes from [main] before any
    file is checked. *)
Theorem main_takes_changed_files_with_history (w : world) (n : Z) :
  let count := run w ["git"; "rev-list"; "--count"; "HEAD"] in
  returncode count = 0%Z ->
  py_int (stdout count) = Some n ->
  (if is_git_hook (init w) then 0 < n else 1 < n)%Z ->
  forall t,
    main w t
    = (repo_path <- lift (get_repo_path w) ;;
       file_list <- lift (get_changed_zonefiles w (init w) repo_path) ;;
       pre_commit w (init w) repo_path file_list) t
    /\ (forall repo x,
          get_repo_path w = Ok repo ->
          get_changed_zonefiles w (init w) repo = Raise x ->
          main w t = (Raise x, t)).
Proof.
  cbv zeta. intros Hrc Hn Hlt t.
  pose proof (get_rev_count_counted w (init w) None n Hrc Hn) as H.
  set (k := match init w with git_hook => n | ci_cd => (n - 1)%Z end) in H.
  assert (Hk : (0 < k)%Z).
  { subst k. destruct (init w); simpl in Hlt; lia. }
  assert (Hmain : main w t
    = (repo_path <- lift (get_repo_path w) ;;
       file_list <- lift (get_changed_zonefiles w (init w) repo_path) ;;
       pre_commit w (init w) repo_path file_list) t).
  { unfold main, bind, lift, ret. rewrite H.
    destruct (get_repo_path w) as [repo| |]; try reflexivity.
    replace (k =? 0)%Z with false by (symmetry; apply Z.eqb_neq; lia).
    replace (k >? 0)%Z with true by (symmetry; apply Z.gtb_lt; lia).
    destruct (get_changed_zonefiles w (init w) repo) as [fl| |];
      reflexivity. }
  split; [exact Hmain|].
  intros repo x Hrepo Hx. rewrite Hmain. unfold bind, lift.
  rewrite Hrepo, Hx. reflexivity.
Qed.

Lemma main_takes_changed_files_with_history_witness :
  main five_commits_world []
  = (repo_path <- lift (get_repo_path five_commits_world) ;;
     file_list <- lift (get_changed_zonefiles five_commits_world
                          (init five_commits_world) repo_path) ;;
     pre_commit five_commits_world (init five_commits_world)
       repo_path file_list) [].
Proof.
  refine (proj1 (main_takes_changed_files_with_history five_commits_world
                   5%Z _ _ _ [])); vm_compute; reflexivity.
Defined.

(** X14.  [main] ends before any file is checked when git finds no
    repository ([sys.exit(1)]), and when the count of revisions comes
    out negative, as in pipeline mode when git prints 0: [file_list] is
    then unbound and an exception escapes. *)
Theorem main_ends_before_any_check (w : world) :
  (returncode (run w ["git"; "-C"; getcwd w; "rev-parse"; "--show-toplevel"])
   <> 0%Z ->
   forall t, main w t = (Exit 1, t))
  /\ (forall n repo,
         get_repo_path w = Ok repo ->
         get_rev_count w (init w) None = Ok n ->
         (n < 0)%Z ->
         forall t, main w t = (Raise (UnboundLocalError "file_list"), t))
  /\ (init w = ci_cd ->
      returncode (run w ["git"; "rev-list"; "--count"; "HEAD"]) = 0%Z ->
      py_int (stdout (run w ["git"; "rev-list"; "--count"; "HEAD"]))
      = Some 0%Z ->
      get_rev_count w (init w) None = Ok (-1)%Z).
Proof.
  split; [|split].
  - intros H t. unfold main, bind, lift.
    unfold get_repo_path, exec_cmd. apply Z.eqb_neq in H. rewrite H.
    reflexivity.
  - intros n repo Hrepo Hrev Hn t. unfold main, bind, lift, ret.
    rewrite Hrepo, Hrev.
    replace (n =? 0)%Z with false by (symmetry; apply Z.eqb_neq; lia).
    replace (n >? 0)%Z with false
      by (symmetry; apply not_true_is_false; rewrite Z.gtb_lt; lia).
    reflexivity.
  - intros Hci H E.
    rewrite (get_rev_count_counted w (init w) None 0%Z H E), Hci. reflexivity.
Qed.

Lemma main_ends_before_any_check_witness :
  main outside_repo_world [] = (Exit 1, []).
Proof.
  apply (proj1 (main_ends_before_any_check outside_repo_world)).
  vm_compute. discriminate.
Defined.

(** ** The path of the repository *)

Lemma hd_str_split (sep : ascii) (s : string) :
  exists rest,
    s = hd "" (str_split sep s) ++ rest
    /\ all_chars (fun c => negb (Ascii.eqb c sep)) (hd "" (str_split sep s))
       = true
    /\ (rest = "" \/ exists rest', rest = String sep rest').
Proof.
  induction s as [|c s [rest [E [Hall Hrest]]]].
  - exists "". simpl. auto.
  - cbn [str_split]. destruct (Ascii.eqb c sep) eqn:Ec.
    + apply Ascii.eqb_eq in Ec. subst c. exists (String sep s). simpl.
      repeat split. right. eauto.
    + destruct (str_split sep s) as [|w ws_] eqn:Es.
      * exists rest. simpl in *. rewrite Ec. simpl.
        repeat split; [congruence | exact Hrest].
      * exists rest. simpl in *. rewrite Ec, Hall. simpl.
        repeat split; [congruence | exact Hrest].
Qed.

(** X15.  [get_repo_path] leaves with [sys.exit(1)] when git fails,
    and otherwise returns the first line of what git printed, without
    its line feed. *)
Theorem get_repo_path_is_the_first_line (w : world) :
  let result := run w ["git"; "-C"; getcwd w; "rev-parse"; "--show-toplevel"] in
  (returncode result <> 0%Z -> get_repo_path w = Exit 1)
  /\ (returncode result = 0%Z ->
      exists repo_path rest,
        get_repo_path w = Ok repo_path
        /\ stdout result = repo_path ++ rest
        /\ all_chars is_dot repo_path = true
        /\ (rest = "" \/ exists rest', rest = String newline rest')).
Proof.
  cbv zeta. unfold get_repo_path, exec_cmd. split; intros H.
  - apply Z.eqb_neq in H. rewrite H. reflexivity.
  - rewrite H. cbn [Z.eqb].
    destruct (hd_str_split newline
                (stdout (run w ["git"; "-C"; getcwd w; "rev-parse";
                                "--show-toplevel"])))
      as [rest [E [Hall Hrest]]].
    eexists; exists rest. split; [reflexivity|].
    split; [exact E|]. split; [exact Hall | exact Hrest].
Qed.

Lemma get_repo_path_is_the_first_line_witness :
  exists repo_path rest,
    get_repo_path two_files_world = Ok repo_path
    /\ ("/repo" ++ nl) = repo_path ++ rest
    /\ all_chars is_dot repo_path = true
    /\ (rest = "" \/ exists rest', rest = String newline rest').
Proof.
  apply (proj2 (get_repo_path_is_the_first_line two_files_world)).
  reflexivity.
Defined.

(** ** Serials as numbers *)

Lemma digits_val_num (s : string) :
  forall acc b,
    all_chars is_digit s = true -> (s <> "" \/ b = true) ->
    digits_val acc b s = Some (digits_num acc s).
Proof.
  induction s as [|c s IH]; intros acc b Hs Hb.
  - destruct Hb as [Hb|Hb]; [congruence|]. subst. reflexivity.
  - simpl in Hs. apply andb_prop in Hs. destruct Hs as [Hc Hs].
    cbn [digits_val digits_num]. rewrite Hc. apply IH; auto.
Qed.

Lemma digits_num_app (a c : string) :
  forall acc, digits_num acc (a ++ c) = digits_num (digits_num acc a) c.
Proof. induction a as [|x a IH]; intros acc; simpl; auto. Qed.

Lemma digit_val_range (c : ascii) :
  is_digit c = true -> (0 <= digit_val c <= 9)%Z.
Proof.
  unfold is_digit, in_range, digit_val. change (ord "0") with 48%nat.
  change (ord "9") with 57%nat. intros H. apply andb_prop in H.
  destruct H as [H1 H2]. apply Nat.leb_le in H1. apply Nat.leb_le in H2. lia.
Qed.

Lemma py_int_digits_val (g : string) :
  all_chars is_digit g = true -> g <> "" ->
  (String.length g <= int_max_str_digits)%nat ->
  py_int g = Some (digits_num 0 g).
Proof.
  intros Hg Hne Hlen. rewrite (py_int_of_digits g Hg).
  apply Nat.leb_le in Hlen. rewrite Hlen.
  apply digits_val_num; [exact Hg | left; exact Hne].
Qed.

Lemma digits_num_uint_acc (d : Decimal.uint) :
  forall acc : positive,
    digits_num (Z.pos acc) (NilEmpty.string_of_uint d)
    = Z.pos (Pos.of_uint_acc d acc).
Proof.
  induction d; intros acc; cbn [NilEmpty.string_of_uint digits_num Pos.of_uint_acc];
    [reflexivity
    | rewrite <- IHd; f_equal;
      match goal with
      | |- context [digit_val ?c] =>
          let v := eval vm_compute in (digit_val c) in
          change (digit_val c) with v
      end; lia ..].
Qed.

Lemma digits_num_uint (d : Decimal.uint) :
  digits_num 0 (NilEmpty.string_of_uint d) = Z.of_N (Pos.of_uint d).
Proof.
  induction d; cbn [NilEmpty.string_of_uint digits_num Pos.of_uint];
    [reflexivity | exact IHd | ..];
    (etransitivity; [|apply digits_num_uint_acc]); reflexivity.
Qed.

(** The decimal text of a number that is not negative stands for it. *)
Lemma digits_num_str (n : Z) : (0 <= n)%Z -> digits_num 0 (str n) = n.
Proof.
  intros Hn. unfold str. destruct n as [|p|p]; [reflexivity| |lia].
  cbn [Z.to_int NilZero.string_of_int].
  assert (E : NilZero.string_of_uint (Pos.to_uint p)
              = NilEmpty.string_of_uint (Pos.to_uint p)).
  { pose proof (Unsigned.to_uint_nonnil p) as Hnn.
    destruct (Pos.to_uint p); [congruence | reflexivity ..]. }
  rewrite E, digits_num_uint, Unsigned.of_to. reflexivity.
Qed.

Lemma str_negative (n : Z) :
  (n < 0)%Z -> exists t, str n = String "-" t.
Proof.
  intros Hn. destruct n as [|p|p]; [lia | lia |].
  unfold str. simpl. eauto.
Qed.

(** X16.  With a baseline and a date made of digits, a serial that
    [check_serial] accepts is the number of the date times 100 plus a
    counter from 0 to 99, and it is greater than the baseline.  The
    number of the date is the one its digits stand for, which is what
    [int] reads from a date of at most [int_max_str_digits] digits. *)
Theorem accepted_serial_is_date_and_counter (date : string) (s0 s1 : Z) :
  all_chars is_digit date = true -> date <> "" ->
  check_serial date s0 (Some s1) = 0%Z ->
  exists day counter,
    digits_num 0 date = day
    /\ ((String.length date <= int_max_str_digits)%nat ->
        py_int date = Some day)
    /\ (0 <= counter <= 99)%Z
    /\ s0 = (100 * day + counter)%Z
    /\ (s1 < s0)%Z.
Proof.
  intros Hdate Hne H. rewrite check_serial_baseline_cases in H.
  destruct (search_dec _ _) as [Hf|Hf]; [|discriminate].
  destruct (Z.gtb_spec s0 s1) as [Hgt|Hle]; [|discriminate].
  apply dated_serial_found in Hf. destruct Hf as [d1 [d2 [Hd1 [Hd2 E]]]].
  assert (Hpos : (0 <= s0)%Z).
  { destruct (Z.lt_ge_cases s0 0) as [Hneg|Hge]; [|exact Hge].
    apply str_negative in Hneg. destruct Hneg as [t Et]. rewrite Et in E.
    destruct date as [|c date]; [congruence|]. simpl in E, Hdate.
    injection E as <- _. discriminate Hdate. }
  exists (digits_num 0 date), (10 * digit_val d1 + digit_val d2)%Z.
  split; [reflexivity|].
  split; [intros Hlen; apply py_int_digits_val; assumption|].
  pose proof (digit_val_range d1 Hd1). pose proof (digit_val_range d2 Hd2).
  split; [lia|]. split; [|lia].
  rewrite <- (digits_num_str s0 Hpos) at 1.
  rewrite E, digits_num_app. cbn [digits_num]. lia.
Qed.

Lemma accepted_serial_is_date_and_counter_witness :
  exists day counter,
    digits_num 0 "20240315" = day
    /\ ((String.length "20240315" <= int_max_str_digits)%nat ->
        py_int "20240315" = Some day)
    /\ (0 <= counter <= 99)%Z
    /\ 2024031507%Z = (100 * day + counter)%Z
    /\ (2024031401 < 2024031507)%Z.
Proof.
  apply (accepted_serial_is_date_and_counter "20240315" 2024031507 2024031401).
  - reflexivity.
  - discriminate.
  - vm_compute. reflexivity.
Defined.

(** ** A serial is read back as it was written *)

Lemma str_digits (n : Z) :
  (0 <= n)%Z -> all_chars is_digit (str n) = true /\ str n <> "".
Proof.
  intros Hn. unfold str. destruct n as [|p|p]; [split; [reflexivity|discriminate]| |lia].
  cbn [Z.to_int NilZero.string_of_int].
  pose proof (Unsigned.to_uint_nonnil p) as Hnn.
  split.
  - destruct (Pos.to_uint p) eqn:E; [congruence|..];
      rewrite <- E; unfold NilZero.string_of_uint;
      rewrite E; rewrite <- E; apply string_of_uint_digits.
  - destruct (Pos.to_uint p); [congruence|..]; discriminate.
Qed.

Lemma py_int_str (n : Z) :
  (0 <= n)%Z -> (String.length (str n) <= int_max_str_digits)%nat ->
  py_int (str n) = Some n.
Proof.
  intros Hn Hlen. destruct (str_digits n Hn) as [Hd Hne].
  rewrite (py_int_digits_val _ Hd Hne Hlen), (digits_num_str n Hn).
  reflexivity.
Qed.

Lemma only_paren (A : string) :
  forall x y B,
    all_chars no_open_paren A = true -> all_chars no_open_paren B = true ->
    x ++ "(" ++ y = A ++ "(" ++ B -> x = A /\ y = B.
Proof.
  induction A as [|c A IH]; intros x y B HA HB E.
  - destruct x as [|d x]; simpl in E.
    + injection E as ->. auto.
    + injection E as -> E. rewrite <- E, all_chars_append in HB.
      simpl in HB. rewrite andb_false_r in HB. discriminate.
  - simpl in HA. apply andb_prop in HA. destruct HA as [Hc HA].
    destruct x as [|d x]; simpl in E.
    + injection E as <- _. discriminate Hc.
    + injection E as -> E. destruct (IH x y B HA HB E) as [-> ->]. auto.
Qed.

Lemma run_then_stop (p : ascii -> bool) (a b a' b' : string) :
  all_chars p a = true -> stops p b = true ->
  all_chars p a' = true -> stops p b' = true ->
  a ++ b = a' ++ b' -> a = a' /\ b = b'.
Proof.
  intros Ha Hb Ha' Hb' E.
  pose proof (takewhile_app p a b Ha Hb) as T.
  pose proof (dropwhile_app p a b Ha Hb) as D.
  rewrite E in T, D.
  rewrite (takewhile_app p a' b' Ha' Hb') in T.
  rewrite (dropwhile_app p a' b' Ha' Hb') in D. auto.
Qed.

Lemma Match_Plus_Sym p prev m post :
  m <> "" -> all_chars p m = true -> Match (Plus (Sym p)) prev m post.
Proof.
  intros Hne Hm. destruct m as [|c m]; [congruence|].
  simpl in Hm. apply andb_prop in Hm. destruct Hm as [Hc Hm].
  change (String c m) with (String c "" ++ m).
  apply MCat; [constructor; exact Hc | apply Match_Star_Sym; exact Hm].
Qed.

(** X2.  A serial that is not negative, written as [str] prints it in
    a record [IN SOA <mname> <rname> ( <serial>], is read back by
    [parse_serial] as the same number when it has at most
    [int_max_str_digits] digits, and makes [parse_serial] raise
    [ValueError] when it has more; the text holds no other opening
    parenthesis and no digit follows the serial. *)
Theorem parse_serial_round_trip (n : Z) (pre mname rname post : string) :
  (0 <= n)%Z ->
  all_chars no_open_paren pre = true ->
  mname <> "" -> all_chars name_char mname = true ->
  rname <> "" -> all_chars name_char rname = true ->
  all_chars no_open_paren post = true ->
  stops is_digit post = true ->
  ((String.length (str n) <= int_max_str_digits)%nat ->
   parse_serial
     (pre ++ "IN SOA " ++ mname ++ " " ++ rname ++ " ( " ++ str n ++ post)
   = Ok n)
  /\ ((int_max_str_digits < String.length (str n))%nat ->
      parse_serial
        (pre ++ "IN SOA " ++ mname ++ " " ++ rname ++ " ( " ++ str n ++ post)
      = Raise ValueError).
Proof.
  intros Hn Hpre Hm1 Hm2 Hr1 Hr2 Hpost Hstop.
  destruct (str_digits n Hn) as [Hd Hne].
  set (data := pre ++ "IN SOA " ++ mname ++ " " ++ rname ++ " ( "
                   ++ str n ++ post).
  assert (Hfound : Found (Cat serial_before (Cat serial_group Eps)) data).
  { exists pre, ("IN SOA " ++ mname ++ " " ++ rname ++ " ( " ++ str n), post.
    split; [unfold data; norm_app; reflexivity|].
    replace ("IN SOA " ++ mname ++ " " ++ rname ++ " ( " ++ str n)
      with (("IN" ++ " " ++ "SOA" ++ " " ++ mname ++ " " ++ rname ++ " "
             ++ "(" ++ " ") ++ str n ++ "")
      by (norm_app; reflexivity).
    apply MCat; [|apply MCat; [apply Match_Plus_Sym; assumption | constructor]].
    unfold serial_before. cbn [seq].
    repeat (apply MCat;
            [first [apply Match_lit
                   | apply Match_Plus_Sym; [discriminate | reflexivity]
                   | apply Match_Plus_Sym; assumption
                   | constructor; reflexivity]|]).
    apply Match_Plus_Sym; [discriminate | reflexivity]. }
  unfold parse_serial.
  destruct (search_group serial_before serial_group Eps data) as [g|] eqn:Eg;
    [|apply search_group_none_iff in Eg; contradiction].
  destruct (parse_serial_group data g Eg)
    as [before [ws [after [Ed [Hws [Hsp [Hg [Hdig Hst]]]]]]]].
  assert (E : before ++ "(" ++ (ws ++ g ++ after)
              = (pre ++ "IN SOA " ++ mname ++ " " ++ rname ++ " ")
                  ++ "(" ++ (" " ++ str n ++ post)).
  { rewrite <- Ed. unfold data. norm_app. reflexivity. }
  apply only_paren in E.
  - destruct E as [_ E].
    assert (Hsg : stops is_space (g ++ after) = true).
    { destruct g as [|c g]; [congruence|]. simpl in *.
      apply andb_prop in Hdig. destruct Hdig as [Hc _].
      rewrite (digit_not_space c Hc). reflexivity. }
    assert (Hsn : stops is_space (str n ++ post) = true).
    { destruct (str n) as [|c s]; [congruence|]. simpl in *.
      apply andb_prop in Hd. destruct Hd as [Hc _].
      rewrite (digit_not_space c Hc). reflexivity. }
    destruct (run_then_stop is_space ws (g ++ after) " " (str n ++ post)
                Hsp Hsg eq_refl Hsn E) as [_ E2].
    destruct (run_then_stop is_digit g after (str n) post
                Hdig Hst Hd Hstop E2) as [-> _].
    split; intros Hlen.
    + rewrite (py_int_str n Hn Hlen). reflexivity.
    + rewrite (py_int_too_long (str n) Hd Hlen). reflexivity.
  - pose proof (name_no_paren mname Hm2) as P1.
    pose proof (name_no_paren rname Hr2) as P2.
    change (all_chars no_open_paren mname = true) in P1.
    change (all_chars no_open_paren rname = true) in P2.
    rewrite !all_chars_append, Hpre, P1, P2. reflexivity.
  - assert (all_chars no_open_paren (str n) = true).
    { revert Hd. apply all_chars_weaken. intros c Hc.
      destruct c as [[] [] [] [] [] [] [] []]; try discriminate Hc; reflexivity. }
    rewrite !all_chars_append, H, Hpost. reflexivity.
Qed.

Lemma parse_serial_round_trip_witness :
  parse_serial
    ("example.com. " ++ "IN SOA " ++ "ns1.example.com." ++ " "
     ++ "admin.example.com." ++ " ( " ++ str 2024031500 ++ " 3600 )")
  = Ok 2024031500%Z.
Proof.
  apply parse_serial_round_trip;
    first [lia | discriminate | vm_compute; reflexivity
          | apply Nat.leb_le; vm_compute; reflexivity].
Defined.

(** ** A new zone and the previous revision *)

Lemma exec_cmd_same w w' cmd :
  run w' cmd = run w cmd -> exec_cmd w' cmd = exec_cmd w cmd.
Proof. intros H. unfold exec_cmd. rewrite H. reflexivity. Qed.

(** X17.  For a file whose count of revisions is 0 (or less) the
    loop of [pre_commit] does not depend on what [git show] answers for
    the previous revision: worlds that differ in that answer only give
    the same result and the same trace. *)
Theorem new_zone_never_reads_baseline w w' call repo f rev :
  (forall cmd, cmd <> baseline_cmd call f -> run w' cmd = run w cmd) ->
  now_Ymd w' = now_Ymd w ->
  get_rev_count w call (Some f) = Ok rev ->
  (rev <= 0)%Z ->
  forall e t,
    pre_commit_file w' call repo f e t = pre_commit_file w call repo f e t.
Proof.
  intros Hrun Hday Hrev Hle e t.
  assert (Hcount : get_rev_count w' call (Some f) = get_rev_count w call (Some f)).
  { unfold get_rev_count. cbv zeta. rewrite (exec_cmd_same w w'); [reflexivity|].
    apply Hrun. unfold baseline_cmd.
    destruct (truthy f); simpl; discriminate. }
  assert (Hread : read_file w' call f 0 = read_file w call f 0).
  { unfold read_file. cbv zeta. rewrite (exec_cmd_same w w'); [reflexivity|].
    apply Hrun. unfold baseline_cmd. destruct call; simpl; discriminate. }
  assert (Hzone : forall zn p, check_zone w' zn p = check_zone w zn p).
  { intros zn p. unfold check_zone. cbv zeta.
    rewrite (exec_cmd_same w w'); [reflexivity|].
    apply Hrun. unfold baseline_cmd. discriminate. }
  unfold pre_commit_file, bind, lift, tell, ret.
  rewrite Hcount, Hread, Hday, Hrev.
  destruct (read_file w call f 0) as [data| |]; try reflexivity.
  destruct (parse_zone data) as [zn| |]; try reflexivity.
  rewrite Hzone.
  destruct (check_zone w zn (path_join repo f)) as [rc| |]; try reflexivity.
  replace (rev >? 0)%Z with false
    by (symmetry; apply not_true_is_false; rewrite Z.gtb_lt; lia).
  destruct ((e =? e + rc)%Z && (rev =? 0)%Z);
    [destruct (parse_serial data)|];
    cbv beta iota; rewrite ?andb_false_r; reflexivity.
Qed.

Lemma new_zone_never_reads_baseline_witness :
  pre_commit_file
    (with_answer (hook_world (sample_zone "( " "2024010100") (fun _ => 0%Z))
       (baseline_cmd git_hook "db.example.com") (completed "anything"))
    git_hook "/repo" "db.example.com" 0%Z []
  = pre_commit_file
      (hook_world (sample_zone "( " "2024010100") (fun _ => 0%Z))
      git_hook "/repo" "db.example.com" 0%Z [].
Proof.
  apply (new_zone_never_reads_baseline
           (hook_world (sample_zone "( " "2024010100") (fun _ => 0%Z))
           _ git_hook "/repo" "db.example.com" 0%Z).
  - intros cmd Hcmd. unfold with_answer. cbn [run].
    destruct (list_eq_dec string_dec cmd
                (baseline_cmd git_hook "db.example.com"));
      [contradiction | reflexivity].
  - reflexivity.
  - vm_compute. reflexivity.
  - lia.
Defined.

(** ** The choice of [init] *)

Lemma contains_inv (n s : string) :
  contains n s = true -> exists a b, s = a ++ n ++ b.
Proof.
  induction s as [|c s IH]; cbn [contains]; intros H.
  - rewrite orb_false_r in H. apply startswith_inv in H.
    destruct H as [t ->]. exists "", t. reflexivity.
  - apply orb_prop in H. destruct H as [H|H].
    + apply startswith_inv in H. destruct H as [t ->]. exists "", t. reflexivity.
    + destruct (IH H) as [a [b ->]]. exists (String c a), b. reflexivity.
Qed.

(** X18.  [init] chooses hook mode exactly when the path of the
    script holds [.git/hooks], and pipeline mode otherwise. *)
Theorem init_decides_by_path (w : world) :
  (init w = git_hook
   <-> exists a b, argv0_abspath w = a ++ ".git/hooks" ++ b)
  /\ (init w = ci_cd
      <-> ~ exists a b, argv0_abspath w = a ++ ".git/hooks" ++ b).
Proof.
  unfold init.
  destruct (contains ".git/hooks" (argv0_abspath w)) eqn:E.
  - apply contains_inv in E. split; split; auto; try discriminate.
    intros H. contradiction.
  - assert (Hn : ~ exists a b, argv0_abspath w = a ++ ".git/hooks" ++ b).
    { intros [a [b Eab]]. rewrite Eab, contains_append in E. discriminate. }
    split; split; auto; try discriminate. intros H. contradiction.
Qed.

(** ** The SOA record comes first *)

Lemma strip_name_group_dots prev g post :
  Match name_group prev g post ->
  exists dots,
    g = strip is_period g ++ dots /\ all_chars is_period dots = true.
Proof.
  intros H. apply name_group_inv in H.
  destruct H as [c [r [-> [Hc [_ Hr]]]]].
  pose proof (label_not_period c Hc) as Hp.
  assert (E : strip is_period (String c r) = String c (rstrip is_period r)).
  { unfold strip. rewrite rstrip_cons by exact Hp. apply lstrip_keeps, Hp. }
  destruct (rstrip_split is_period r) as [dots [Ed Hd]].
  exists dots. rewrite E. split; [simpl; congruence | exact Hd].
Qed.

(** ** The first match *)

(** [re.search] stops at the leftmost start that has a match: no match
    of the whole pattern starts before it. *)
Lemma search_group_at_first (pre grp post : re) :
  forall rest prev g,
    search_group_at pre grp post prev rest = Some g ->
    exists a p,
      rest = a ++ p
      /\ group_at pre grp post (lastc prev a) p = Some g
      /\ forall a' m z,
          rest = a' ++ m ++ z ->
          Match (Cat pre (Cat grp post)) (lastc prev a') m z ->
          (String.length a <= String.length a')%nat.
Proof.
  induction rest as [|c rest IH]; intros prev g H; cbn [search_group_at] in H.
  - destruct (group_at pre grp post prev "") eqn:E; [|discriminate].
    injection H as ->. exists "", "". split; [reflexivity|].
    split; [exact E|]. intros; simpl; lia.
  - destruct (group_at pre grp post prev (String c rest)) eqn:E.
    + injection H as ->. exists "", (String c rest). split; [reflexivity|].
      split; [exact E|]. intros; simpl; lia.
    + apply IH in H. destruct H as [a [p [E' [G F]]]].
      exists (String c a), p. split; [simpl; congruence|].
      split; [exact G|]. intros a' m z Ea Hm.
      destruct a' as [|c' a'].
      * exfalso. apply group_at_none in E.
        simpl in Ea. rewrite Ea in E.
        exact (proj1 (ends_nil_iff _ _ _) E m z eq_refl Hm).
      * simpl in Ea. injection Ea as <- Ea. simpl.
        apply le_n_S. exact (F a' m z Ea Hm).
Qed.

(** The three parts of a match make a match of the whole pattern. *)
Lemma Match_whole (pre grp post : re) prev m0 g m2 z :
  Match pre prev m0 (g ++ m2 ++ z) ->
  Match grp (lastc prev m0) g (m2 ++ z) ->
  Match post (lastc prev (m0 ++ g)) m2 z ->
  Match (Cat pre (Cat grp post)) prev (m0 ++ g ++ m2) z.
Proof.
  intros A B C. apply MCat.
  - rewrite append_assoc. exact A.
  - apply MCat; [exact B|]. rewrite <- lastc_append. exact C.
Qed.

(** A start of line: the start of the text, or the place behind a line
    feed. *)
Lemma at_bol_true_inv (a : string) :
  at_bol true (lastc None a) = true ->
  a = "" \/ exists a', a = a' ++ String newline "".
Proof.
  intros H. destruct (lastc None a) as [c|] eqn:E.
  - right. simpl in H. apply Ascii.eqb_eq in H. subst c.
    destruct a as [|d a]; [discriminate|].
    apply (lastc_snoc (String d a) None newline); [discriminate | exact E].
  - left. apply lastc_None_inv. exact E.
Qed.

Lemma flat_map_head_in {A B : Type} (f : A -> list B) (l : list A) y ys :
  flat_map f l = y :: ys -> exists x l', In x l /\ f x = y :: l'.
Proof.
  induction l as [|x l IH]; simpl; [discriminate|].
  destruct (f x) as [|y' l'] eqn:E.
  - simpl. intros H. destruct (IH H) as [x' [l'' [Hin Hf]]].
    exists x', l''. auto.
  - simpl. intros H. injection H as <- _. exists x, l'. auto.
Qed.

(** The first end of a pattern that closes with a greedy run of one
    class stands where that class stops. *)
Lemma ends_cat_plus_sym_stops (r : re) (p : ascii -> bool) prev s q l :
  ends (Cat r (Plus (Sym p))) prev s = q :: l -> stops p (snd q) = true.
Proof.
  cbn [ends]. intros H. apply flat_map_head_in in H.
  destruct H as [x [l' [_ H]]].
  change (ends (Plus (Sym p)) (fst x) (snd x) = q :: l') in H.
  rewrite ends_plus_sym in H.
  destruct (snd x) as [|c s']; [discriminate|].
  destruct (p c); [|discriminate].
  destruct (ends_star_sym_head p (Some c) s') as [l'' E].
  rewrite E in H. injection H as <- _. apply dropwhile_stops.
Qed.

(** The name that [parse_zone] makes of the group. *)
Lemma name_group_strip prev g post :
  Match name_group prev g post ->
  exists c rest dots,
    strip is_period g = String c rest
    /\ g = strip is_period g ++ dots
    /\ label_char c = true
    /\ all_chars name_char rest = true
    /\ ends_with_dot (strip is_period g) = false
    /\ all_chars is_period dots = true.
Proof.
  intros H. destruct (strip_name_group _ _ _ H)
    as [c [rest [dots [E [Eg [Hc [Hr Hd]]]]]]].
  destruct (strip_name_group_dots _ _ _ H) as [dots' [Eg' Hdots]].
  assert (dots = dots').
  { rewrite Eg' in Eg at 1. apply append_inv_head in Eg. congruence. }
  subst dots'. exists c, rest, dots. auto 10.
Qed.

(** X4.  When the SOA pattern matches, [parse_zone] returns the owner
    name of the first match: at the leftmost start of a line from which
    the pattern matches, white space, then the name with its final dots,
    then white space, [IN], white space, [SOA].  The name is the whole
    word between the white space (it begins with a letter, a digit or a
    hyphen), without its final dots, whatever [$ORIGIN] lines the text
    has. *)
Theorem parse_zone_prefers_soa (data : string) :
  Found (Cat soa_before (Cat name_group soa_after)) data ->
  exists zn a ws dots w1 w2 b,
    parse_zone data = Ok zn
    /\ data = a ++ ws ++ zn ++ dots ++ w1 ++ "IN" ++ w2 ++ "SOA" ++ b
    /\ (a = "" \/ exists a', a = a' ++ String newline "")
    /\ all_chars is_space ws = true
    /\ (exists c rest,
          zn = String c rest /\ label_char c = true
          /\ all_chars name_char rest = true)
    /\ ends_with_dot zn = false
    /\ all_chars is_period dots = true
    /\ w1 <> "" /\ all_chars is_space w1 = true
    /\ w2 <> "" /\ all_chars is_space w2 = true
    /\ Match (Cat soa_before (Cat name_group soa_after)) (lastc None a)
         (ws ++ zn ++ dots ++ w1 ++ "IN" ++ w2 ++ "SOA") b
    /\ (forall pre m post,
          data = pre ++ m ++ post ->
          Match (Cat soa_before (Cat name_group soa_after))
            (lastc None pre) m post ->
          (String.length a <= String.length pre)%nat).
Proof.
  intros Hf. unfold parse_zone.
  destruct (search_group soa_before name_group soa_after data) as [g|] eqn:E;
    [|apply search_group_none_iff in E; contradiction].
  apply search_group_at_first in E.
  destruct E as [a [p [Ed [G Hfirst]]]].
  apply group_at_some in G.
  destruct G as [m0 [m2 [z [Ep [Hb [Hg H]]]]]].
  pose proof (Match_whole _ _ _ _ _ _ _ _ Hb Hg H) as HM.
  destruct (name_group_strip _ _ _ Hg)
    as [c [rest [dots [Ez [Eg [Hc [Hr [Hnd Hdots]]]]]]]].
  unfold soa_before in Hb.
  apply Match_Cat_inv in Hb. destruct Hb as [b0 [ws [-> [Hb0 Hws]]]].
  apply Match_Bol_inv in Hb0. destruct Hb0 as [-> Hbol].
  apply Match_Star_Sym_inv in Hws.
  unfold soa_after in H. cbn [seq] in H.
  apply Match_Cat_inv in H. destruct H as [w1 [r1 [-> [Hw1 H]]]].
  apply Match_Cat_inv in H. destruct H as [k1 [r2 [-> [Hk1 H]]]].
  apply Match_lit_inv in Hk1. subst k1.
  apply Match_Cat_inv in H. destruct H as [w2 [r3 [-> [Hw2 H]]]].
  apply Match_lit_inv in H. subst r3.
  pose proof (Match_Plus_Sym_all _ _ _ _ Hw1) as A1.
  pose proof (Match_Plus_Sym_all _ _ _ _ Hw2) as A2.
  apply Match_Plus_Sym_inv in Hw1. destruct Hw1 as [c1 [w1' [-> _]]].
  apply Match_Plus_Sym_inv in Hw2. destruct Hw2 as [c2 [w2' [-> _]]].
  exists (strip is_period g), a, ws, dots, (String c1 w1'),
    (String c2 w2'), z.
  split; [reflexivity|]. split.
  { rewrite Ed, Ep. rewrite Eg at 1. norm_app. reflexivity. }
  split; [apply at_bol_true_inv; exact Hbol|].
  split; [exact Hws|].
  split; [exists c, rest; auto|].
  split; [exact Hnd|]. split; [exact Hdots|].
  split; [discriminate|]. split; [exact A1|].
  split; [discriminate|]. split; [exact A2|].
  split; [|exact Hfirst].
  replace (ws ++ strip is_period g ++ dots ++ String c1 w1' ++ "IN"
              ++ String c2 w2' ++ "SOA")
    with (("" ++ ws) ++ g ++ String c1 w1' ++ "IN" ++ String c2 w2' ++ "SOA");
    [exact HM|].
  rewrite Eg at 1. norm_app. reflexivity.
Qed.

Lemma parse_zone_prefers_soa_witness :
  exists zn a ws dots w1 w2 b,
    parse_zone (sample_zone "( " "2024010100") = Ok zn
    /\ sample_zone "( " "2024010100"
       = a ++ ws ++ zn ++ dots ++ w1 ++ "IN" ++ w2 ++ "SOA" ++ b
    /\ (a = "" \/ exists a', a = a' ++ String newline "")
    /\ all_chars is_space ws = true
    /\ (exists c rest,
          zn = String c rest /\ label_char c = true
          /\ all_chars name_char rest = true)
    /\ ends_with_dot zn = false
    /\ all_chars is_period dots = true
    /\ w1 <> "" /\ all_chars is_space w1 = true
    /\ w2 <> "" /\ all_chars is_space w2 = true
    /\ Match (Cat soa_before (Cat name_group soa_after)) (lastc None a)
         (ws ++ zn ++ dots ++ w1 ++ "IN" ++ w2 ++ "SOA") b
    /\ (forall pre m post,
          sample_zone "( " "2024010100" = pre ++ m ++ post ->
          Match (Cat soa_before (Cat name_group soa_after))
            (lastc None pre) m post ->
          (String.length a <= String.length pre)%nat).
Proof.
  apply parse_zone_prefers_soa.
  apply search_some_iff. eexists. vm_compute. reflexivity.
Defined.

(** ** White space around a text *)

Lemma lstrip_dropwhile p s : lstrip p s = dropwhile p s.
Proof.
  induction s as [|c s IH]; [reflexivity|].
  simpl. destruct (p c); [exact IH | reflexivity].
Qed.

Lemma rstrip_blank p s : all_chars p s = true -> rstrip p s = "".
Proof.
  induction s as [|c s IH]; [reflexivity|]. simpl. intros H.
  apply andb_prop in H. destruct H as [Hc Hs].
  rewrite (IH Hs), Hc. reflexivity.
Qed.

Lemma rstrip_app_blank p x b :
  all_chars p b = true -> rstrip p (x ++ b) = rstrip p x.
Proof.
  intros Hb. induction x as [|c x IH]; [apply rstrip_blank, Hb|].
  cbn [append rstrip]. rewrite IH. reflexivity.
Qed.

Lemma lastc_nonempty (s : string) :
  s <> "" -> forall prev prev', lastc prev s = lastc prev' s.
Proof. destruct s; [congruence | reflexivity]. Qed.

Lemma lastc_some (s : string) : forall c, lastc (Some c) s <> None.
Proof. induction s as [|d s IH]; intros c; [discriminate | apply IH]. Qed.

Lemma rstrip_keep p x d :
  lastc None x = Some d -> p d = false -> rstrip p x = x.
Proof.
  induction x as [|c x IH]; [discriminate|]. intros H Hd.
  destruct x as [|c' x].
  - simpl in H. injection H as ->. simpl. rewrite Hd. reflexivity.
  - change (rstrip p (String c (String c' x)))
      with (match rstrip p (String c' x) with
            | EmptyString => if p c then "" else String c ""
            | String _ _ as t => String c t
            end).
    rewrite IH; [reflexivity | | exact Hd].
    rewrite <- H.
    exact (lastc_nonempty (String c' x) ltac:(discriminate) None (Some c)).
Qed.

Lemma strip_split p s :
  exists a b,
    s = a ++ strip p s ++ b
    /\ all_chars p a = true /\ all_chars p b = true.
Proof.
  destruct (rstrip_split p s) as [b [E Hb]].
  exists (takewhile p (rstrip p s)), b. split; [|split].
  - unfold strip. rewrite lstrip_dropwhile, <- append_assoc.
    rewrite <- takewhile_dropwhile. exact E.
  - apply takewhile_all.
  - exact Hb.
Qed.

Lemma strip_stops p s : stops p (strip p s) = true.
Proof. unfold strip. rewrite lstrip_dropwhile. apply dropwhile_stops. Qed.

Lemma strip_last p s :
  match lastc None (strip p s) with
  | Some d => p d = false
  | None => True
  end.
Proof.
  unfold strip. rewrite lstrip_dropwhile.
  pose proof (rstrip_last p s) as H.
  rewrite (takewhile_dropwhile p (rstrip p s)), lastc_append in H.
  destruct (dropwhile p (rstrip p s)) as [|c r] eqn:E; [exact I|].
  rewrite (lastc_nonempty (String c r)
             ltac:(discriminate) None
             (lastc None (takewhile p (rstrip p s)))).
  exact H.
Qed.

Lemma strip_empty_iff p s : strip p s = "" <-> all_chars p s = true.
Proof.
  split.
  - intros E. destruct (strip_split p s) as [a [b [Es [Ha Hb]]]].
    rewrite E in Es. rewrite Es, !all_chars_append, Ha, Hb. reflexivity.
  - intros H. unfold strip. rewrite (rstrip_blank p s H). reflexivity.
Qed.

Lemma strip_padded p a g b :
  all_chars p a = true -> all_chars p b = true ->
  stops p g = true ->
  match lastc None g with Some d => p d = false | None => True end ->
  strip p (a ++ g ++ b) = g.
Proof.
  intros Ha Hb Hs Hl. unfold strip.
  rewrite <- append_assoc, (rstrip_app_blank p (a ++ g) b Hb).
  destruct g as [|c g].
  - rewrite append_nil_r, (rstrip_blank p a Ha). reflexivity.
  - destruct (lastc None (String c g)) as [d|] eqn:E.
    + rewrite (rstrip_keep p (a ++ String c g) d).
      * rewrite lstrip_dropwhile. apply dropwhile_app; assumption.
      * rewrite lastc_append, <- E. apply lastc_nonempty. discriminate.
      * exact Hl.
    + exfalso. revert E. cbn [lastc]. apply lastc_some.
Qed.

Lemma lastc_all p s d :
  all_chars p s = true -> lastc None s = Some d -> p d = true.
Proof.
  intros H E. destruct s as [|c s]; [discriminate|].
  destruct (lastc_snoc (String c s) None d ltac:(discriminate) E) as [s' Es].
  rewrite Es, all_chars_append in H. apply andb_prop in H.
  destruct H as [_ H]. simpl in H. rewrite andb_true_r in H. exact H.
Qed.

Lemma py_int_padded (n : Z) (a b : string) :
  (0 <= n)%Z ->
  (String.length (str n) <= int_max_str_digits)%nat ->
  all_chars is_int_space a = true -> all_chars is_int_space b = true ->
  py_int (a ++ str n ++ b) = Some n.
Proof.
  intros Hn Hlen Ha Hb. destruct (str_digits n Hn) as [Hd Hne].
  rewrite <- (py_int_str n Hn Hlen). unfold py_int.
  rewrite (digits_strip (str n) Hd).
  rewrite (strip_padded is_int_space a (str n) b Ha Hb); [reflexivity | |].
  - destruct (str n) as [|c s]; [reflexivity|]. simpl in Hd.
    apply andb_prop in Hd. destruct Hd as [Hc _]. simpl.
    rewrite (digit_not_int_space c Hc). reflexivity.
  - destruct (lastc None (str n)) as [d|] eqn:E; [|exact I].
    apply digit_not_int_space. exact (lastc_all is_digit (str n) d Hd E).
Qed.

(** [int] refuses a text of white space only. *)
Lemma py_int_blank (s : string) :
  all_chars is_space s = true -> py_int s = None.
Proof.
  intros H. unfold py_int.
  destruct (strip_split is_int_space s) as [a [b [E _]]].
  rewrite E, !all_chars_append in H.
  apply andb_prop in H. destruct H as [_ H].
  apply andb_prop in H. destruct H as [H _].
  destruct (strip is_int_space s) as [|c t].
  - cbv beta iota zeta. destruct (_ <=? _)%nat; reflexivity.
  - simpl in H. apply andb_prop in H. destruct H as [Hc _].
    destruct c as [[] [] [] [] [] [] [] []]; try discriminate Hc;
      cbv beta iota zeta; destruct (_ <=? _)%nat; reflexivity.
Qed.

(** ** The count of revisions *)

(** X19.  [get_rev_count] never leaves with [sys.exit]: a command that
    fails counts as 0; a count [n] of at most [int_max_str_digits]
    digits that git prints in decimal, with the white space around it
    that [int] skips (as the final line feed), is returned as [n] in
    hook mode and as [n - 1] in pipeline mode; an output of white space
    only escapes as [ValueError]. *)
Theorem get_rev_count_reads_the_count w call zonefile :
  let cmd := ["git"; "rev-list"; "--count"; "HEAD"]
             +++ match zonefile with
                 | Some f => if truthy f then ["--"; f] else []
                 | None => []
                 end in
  let result := run w cmd in
  (returncode result <> 0%Z -> get_rev_count w call zonefile = Ok 0%Z)
  /\ (returncode result = 0%Z ->
      forall n a b,
        (0 <= n)%Z ->
        (String.length (str n) <= int_max_str_digits)%nat ->
        all_chars is_int_space a = true ->
        all_chars is_int_space b = true ->
        stdout result = a ++ str n ++ b ->
        get_rev_count w call zonefile
        = Ok (match call with git_hook => n | ci_cd => n - 1 end)%Z)
  /\ (returncode result = 0%Z ->
      all_chars is_space (stdout result) = true ->
      get_rev_count w call zonefile = Raise ValueError)
  /\ (forall c, get_rev_count w call zonefile <> Exit c).
Proof.
  cbv zeta. split; [|split; [|split]].
  - apply get_rev_count_failed.
  - intros Hrc n a b Hn Hlen Ha Hb E.
    apply get_rev_count_counted; [exact Hrc|].
    rewrite E. apply py_int_padded; assumption.
  - intros Hrc Hb. unfold get_rev_count, exec_cmd. cbv zeta.
    rewrite Hrc. change (0 =? 0)%Z with true. cbv iota.
    rewrite (py_int_blank _ Hb). reflexivity.
  - intros c. unfold get_rev_count, exec_cmd. cbv zeta.
    destruct (returncode _ =? 0)%Z; [|discriminate].
    destruct (py_int _); [destruct call|]; discriminate.
Qed.

Lemma get_rev_count_reads_the_count_witness :
  get_rev_count five_commits_world git_hook None = Ok 5%Z.
Proof.
  refine (proj1 (proj2 (get_rev_count_reads_the_count five_commits_world
                          git_hook None)) _ 5%Z "" nl _ _ _ _ _);
    first [lia | vm_compute; reflexivity
          | apply Nat.leb_le; vm_compute; reflexivity].
Defined.

(** ** The message of a failed command *)

(** X20.  [exec_cmd] returns the result of the process exactly when
    its status is 0 and never leaves with [sys.exit]; otherwise it
    raises [CommandExecutionError] with that status and a message that
    has no white space at either end: what is left of stderr, or of
    stdout when stderr is blank; the message is empty exactly when both
    are blank. *)
Theorem exec_cmd_message (w : world) (cmd : list string) :
  let result := run w cmd in
  (exec_cmd w cmd = Ok result <-> returncode result = 0%Z)
  /\ (forall c, exec_cmd w cmd <> Exit c)
  /\ (returncode result <> 0%Z ->
      exists msg,
        exec_cmd w cmd = Raise (CommandExecutionError (returncode result) msg)
        /\ stops is_space msg = true
        /\ match lastc None msg with
           | Some d => is_space d = false
           | None => True
           end
        /\ (msg = ""
            <-> all_chars is_space (stderr result) = true
                /\ all_chars is_space (stdout result) = true)
        /\ (all_chars is_space (stderr result) = false ->
            exists a b, stderr result = a ++ msg ++ b
                        /\ all_chars is_space a = true
                        /\ all_chars is_space b = true)
        /\ (all_chars is_space (stderr result) = true ->
            exists a b, stdout result = a ++ msg ++ b
                        /\ all_chars is_space a = true
                        /\ all_chars is_space b = true)).
Proof.
  cbv zeta. unfold exec_cmd. cbv zeta.
  destruct (Z.eqb_spec (returncode (run w cmd)) 0) as [E|E].
  - split; [tauto|]. split; [discriminate|]. intros H. contradiction.
  - split; [split; [discriminate | contradiction]|].
    split; [discriminate|]. intros _.
    pose proof (strip_empty_iff is_space (stderr (run w cmd))) as He.
    pose proof (strip_empty_iff is_space (stdout (run w cmd))) as Ho.
    unfold truthy.
    destruct (strip is_space (stderr (run w cmd))) as [|c e] eqn:Ee.
    + assert (Hb : all_chars is_space (stderr (run w cmd)) = true)
        by (apply He; reflexivity).
      cbn [String.eqb negb].
      eexists. split; [reflexivity|].
      split; [apply strip_stops|]. split; [apply strip_last|].
      split; [|split].
      * rewrite Ho. tauto.
      * rewrite Hb. discriminate.
      * intros _. apply strip_split.
    + assert (Hb : all_chars is_space (stderr (run w cmd)) = false).
      { apply not_true_is_false. intros H. apply He in H. discriminate. }
      cbn [String.eqb negb].
      eexists. split; [reflexivity|].
      rewrite <- Ee.
      split; [apply strip_stops|]. split; [apply strip_last|].
      split; [|split].
      * rewrite Ee, Hb. split; [discriminate | intros [H _]; discriminate].
      * intros _. apply strip_split.
      * rewrite Hb. discriminate.
Qed.

(** ** One file, from its texts *)

(** X21.  For a file whose texts parse (new, or with a history and a
    readable previous revision), the body of the loop of [pre_commit]
    ends normally, and it leaves the counter as it was exactly when
    named-checkzone ends with status 0, [check_serial] passes against
    the baseline (none for a new file) and every [$ORIGIN] line of the
    text ends with a dot. *)
Theorem file_passes_iff_all_checks_pass
    w call repo f rev data zn s0 base e t :
  get_rev_count w call (Some f) = Ok rev ->
  read_file w call f 0 = Ok data ->
  parse_zone data = Ok zn ->
  parse_serial data = Ok s0 ->
  match base with
  | None => rev = 0%Z
  | Some s1 =>
      (0 < rev)%Z
      /\ exists data1, read_file w call f 1 = Ok data1
                       /\ parse_serial data1 = Ok s1
  end ->
  exists e' t',
    pre_commit_file w call repo f e t = (Ok e', t')
    /\ (e' = e
        <-> returncode
              (run w ["named-checkzone"; "-k"; "fail"; zn; path_join repo f])
            = 0%Z
            /\ check_serial (now_Ymd w) s0 base = 0%Z
            /\ forall line,
                In line (str_split newline data) ->
                is_origin_line line = true -> ends_with_dot line = true).
Proof.
  intros Hrev Hdata Hzn Hs0 Hbase.
  pose proof (origin_lines_pass_iff data) as Ho.
  unfold pre_commit_file, bind, lift, tell, ret.
  rewrite Hrev, Hdata, Hzn, check_zone_returncode, Hs0.
  set (rc := returncode _).
  remember (check_origin (parse_origin data)) as eo eqn:Eo.
  pose proof (check_origin_01 (parse_origin data)) as Ho01.
  try rewrite <- Eo in Ho. try rewrite <- Eo in Ho01.
  assert (Hself : forall x, (e =? e + x)%Z = (x =? 0)%Z).
  { intros x. destruct (Z.eqb_spec x 0), (Z.eqb_spec e (e + x));
      try reflexivity; lia. }
  rewrite Hself.
  destruct (Z.eqb_spec rc 0) as [Hrc|Hrc]; cbn [andb].
  - rewrite Hrc, Z.add_0_r.
    destruct base as [s1|].
    + destruct Hbase as [Hpos [data1 [Hd1 Hs1]]].
      replace (rev =? 0)%Z with false by (symmetry; apply Z.eqb_neq; lia).
      replace (rev >? 0)%Z with true by (symmetry; apply Z.gtb_lt; lia).
      rewrite Z.eqb_refl. cbn [andb]. rewrite Hd1, Hs1.
      remember (check_serial (now_Ymd w) s0 (Some s1)) as es eqn:Ees.
      pose proof (check_serial_01 (now_Ymd w) s0 (Some s1)) as Hs01.
      rewrite <- Ees in Hs01. rewrite Hself.
      destruct (Z.eqb_spec es 0) as [Hes|Hes].
      * do 2 eexists. split; [reflexivity|]. rewrite <- Ho. lia.
      * do 2 eexists. split; [reflexivity|]. lia.
    + subst rev. rewrite Z.eqb_refl. cbn [andb Z.gtb Z.compare].
      remember (check_serial (now_Ymd w) s0 None) as es eqn:Ees.
      pose proof (check_serial_01 (now_Ymd w) s0 None) as Hs01.
      rewrite <- Ees in Hs01. rewrite ?andb_false_r. cbv beta iota.
      rewrite Hself.
      destruct (Z.eqb_spec es 0) as [Hes|Hes].
      * do 2 eexists. split; [reflexivity|]. rewrite <- Ho. lia.
      * do 2 eexists. split; [reflexivity|]. lia.
  - cbv beta iota. rewrite Hself.
    destruct (Z.eqb_spec rc 0) as [?|_]; [contradiction|].
    cbn [andb]. cbv beta iota. rewrite Hself.
    destruct (Z.eqb_spec rc 0) as [?|_]; [contradiction|].
    do 2 eexists. split; [reflexivity|]. lia.
Qed.

Lemma file_passes_iff_all_checks_pass_witness :
  exists e' t',
    pre_commit_file five_commits_world git_hook "/repo" "db.example.com"
      0%Z [] = (Ok e', t')
    /\ (e' = 0%Z
        <-> returncode
              (run five_commits_world
                 ["named-checkzone"; "-k"; "fail"; "example.com";
                  path_join "/repo" "db.example.com"])
            = 0%Z
            /\ check_serial (now_Ymd five_commits_world) 2024031500
                 (Some 2024031500%Z) = 0%Z
            /\ forall line,
                In line
                  (str_split newline
                     (join nl (splitlines (sample_zone "( " "2024031500")))) ->
                is_origin_line line = true -> ends_with_dot line = true).
Proof.
  apply (file_passes_iff_all_checks_pass five_commits_world git_hook "/repo"
           "db.example.com" 5%Z
           (join nl (splitlines (sample_zone "( " "2024031500")))
           "example.com" 2024031500%Z (Some 2024031500%Z)).
  - vm_compute. reflexivity.
  - vm_compute. reflexivity.
  - vm_compute. reflexivity.
  - vm_compute. reflexivity.
  - split; [lia|]. eexists. split; vm_compute; reflexivity.
Defined.

(** X22.  When the SOA pattern matches nowhere (as with [@ IN SOA])
    and the [$ORIGIN] pattern does, [parse_zone] returns the name of the
    first match: at the leftmost start of a line from which the pattern
    matches, white space, [$ORIGIN], white space, then the name with
    its final dots.  The name is the whole run of name characters (no
    such character follows it), without its final dots. *)
Theorem parse_zone_falls_back_to_origin (data : string) :
  ~ Found (Cat soa_before (Cat name_group soa_after)) data ->
  Found (Cat origin_before (Cat name_group Eps)) data ->
  exists zn a ws w dots b,
    parse_zone data = Ok zn
    /\ data = a ++ ws ++ "$ORIGIN" ++ w ++ zn ++ dots ++ b
    /\ (a = "" \/ exists a', a = a' ++ String newline "")
    /\ all_chars is_space ws = true
    /\ w <> "" /\ all_chars is_space w = true
    /\ (exists c rest,
          zn = String c rest /\ label_char c = true
          /\ all_chars name_char rest = true)
    /\ ends_with_dot zn = false
    /\ all_chars is_period dots = true
    /\ stops name_char b = true
    /\ Match (Cat origin_before (Cat name_group Eps)) (lastc None a)
         (ws ++ "$ORIGIN" ++ w ++ zn ++ dots) b
    /\ (forall pre m post,
          data = pre ++ m ++ post ->
          Match (Cat origin_before (Cat name_group Eps))
            (lastc None pre) m post ->
          (String.length a <= String.length pre)%nat).
Proof.
  intros Hn Hf. unfold parse_zone.
  rewrite (proj2 (search_group_none_iff _ _ _ _) Hn).
  destruct (search_group origin_before name_group Eps data) as [g|] eqn:E;
    [|apply search_group_none_iff in E; contradiction].
  apply search_group_at_first in E.
  destruct E as [a [p [Ed [G Hfirst]]]].
  pose proof (group_at_last_some _ _ _ _ _ G) as L.
  destruct L as [q1 [q2 [l [H1 [H2 Eg2]]]]].
  pose proof (ends_cat_plus_sym_stops _ _ _ _ _ _ H2) as Hstop.
  pose proof (ends_head _ _ _ _ _ H2) as [Es [_ Hg]].
  rewrite <- Eg2 in Es, Hg.
  apply ends_sound in H1. destruct H1 as [m0 [E0 [P0 Hb]]].
  assert (HM : Match (Cat origin_before (Cat name_group Eps)) (lastc None a)
                 (m0 ++ g ++ "") (snd q2)).
  { rewrite P0 in Hg. rewrite Es in Hb.
    apply (Match_whole origin_before name_group Eps (lastc None a)
             m0 g "" (snd q2)); [exact Hb | exact Hg | constructor]. }
  destruct (name_group_strip _ _ _ Hg)
    as [c [rest [dots [Ez [Eg [Hc [Hr [Hnd Hdots]]]]]]]].
  unfold origin_before in Hb. cbn [seq] in Hb.
  apply Match_Cat_inv in Hb. destruct Hb as [b0 [r1 [-> [Hb0 H]]]].
  apply Match_Bol_inv in Hb0. destruct Hb0 as [-> Hbol].
  apply Match_Cat_inv in H. destruct H as [ws [r2 [-> [Hws H]]]].
  apply Match_Star_Sym_inv in Hws.
  apply Match_Cat_inv in H. destruct H as [k [w [-> [Hk Hw]]]].
  apply Match_lit_inv in Hk. subst k.
  pose proof (Match_Plus_Sym_all _ _ _ _ Hw) as A1.
  apply Match_Plus_Sym_inv in Hw. destruct Hw as [c1 [w' [-> _]]].
  exists (strip is_period g), a, ws, (String c1 w'), dots, (snd q2).
  split; [reflexivity|]. split.
  { rewrite Ed, E0, Es. rewrite Eg at 1. norm_app. reflexivity. }
  split; [apply at_bol_true_inv; exact Hbol|].
  split; [exact Hws|].
  split; [discriminate|]. split; [exact A1|].
  split; [exists c, rest; auto|].
  split; [exact Hnd|]. split; [exact Hdots|].
  split; [exact Hstop|].
  split; [|exact Hfirst].
  replace (ws ++ "$ORIGIN" ++ String c1 w' ++ strip is_period g ++ dots)
    with ((("" ++ ws) ++ "$ORIGIN" ++ String c1 w') ++ g ++ "");
    [exact HM|].
  rewrite Eg at 1. norm_app. reflexivity.
Qed.

Lemma parse_zone_falls_back_to_origin_witness :
  exists zn a ws w dots b,
    parse_zone ("$ORIGIN example.org." ++ nl ++ "@ IN SOA ns1 admin ( 1 )")
    = Ok zn
    /\ "$ORIGIN example.org." ++ nl ++ "@ IN SOA ns1 admin ( 1 )"
       = a ++ ws ++ "$ORIGIN" ++ w ++ zn ++ dots ++ b
    /\ (a = "" \/ exists a', a = a' ++ String newline "")
    /\ all_chars is_space ws = true
    /\ w <> "" /\ all_chars is_space w = true
    /\ (exists c rest,
          zn = String c rest /\ label_char c = true
          /\ all_chars name_char rest = true)
    /\ ends_with_dot zn = false
    /\ all_chars is_period dots = true
    /\ stops name_char b = true
    /\ Match (Cat origin_before (Cat name_group Eps)) (lastc None a)
         (ws ++ "$ORIGIN" ++ w ++ zn ++ dots) b
    /\ (forall pre m post,
          "$ORIGIN example.org." ++ nl ++ "@ IN SOA ns1 admin ( 1 )"
          = pre ++ m ++ post ->
          Match (Cat origin_before (Cat name_group Eps))
            (lastc None pre) m post ->
          (String.length a <= String.length pre)%nat).
Proof.
  apply parse_zone_falls_back_to_origin.
  - apply search_none_iff. vm_compute. reflexivity.
  - apply search_some_iff. eexists. vm_compute. reflexivity.
Defined.
